(** * TrendRadar: keyword rulebook matching and report-data aggregation

    A shallow embedding of [trendradar/core/frequency.py] and of
    [trendradar/report/generator.py], with the properties of the two
    modules that the specification states, and further properties read
    off the code.

    Layout:
    - [Py]: the fragment of the Python runtime the two modules rely on
      (strings as sequences of code points, [int()], truthiness, dicts
      that keep insertion order, exceptions as an error monad, stable sort);
    - [Frequency]: the rulebook loader and the title matcher;
    - [Generator]: [prepare_report_data];
    - [Report]: [generate_html_report], over a log of file-system calls;
    - [FrequencyProps], [GeneratorProps]: what the specification states;
    - [LoaderProps], [MatcherProps], [PayloadProps], [ReportProps]: what
      the code shows besides. *)

From Stdlib Require Import String Ascii.
From Stdlib Require Import ZArith List Bool Lia Setoid.
From Stdlib Require Import Sorting.Sorted Sorting.Permutation.
From Stdlib Require Import Floats.SpecFloat.
Import ListNotations.
Local Open Scope Z_scope.
Set Warnings "-register-all".

(* ===================================================================== *)
(** * The Python runtime fragment *)
(* ===================================================================== *)

Module Py.

(** ** Strings *)

(** A Python [str] is a sequence of Unicode code points. *)
Definition codepoint := Z.
Definition str := list codepoint.

(** Source literals are written as UTF-8 text and decoded to code points. *)
Definition byte_val (a : ascii) : Z := Z.of_nat (nat_of_ascii a).

Fixpoint utf8_decode (cont : nat) (acc : Z) (bs : list Z) : str :=
  match bs with
  | [] => match cont with O => [] | S _ => [acc] end
  | b :: bs' =>
      match cont with
      | S k =>
          let acc' := acc * 64 + (b mod 64) in
          match k with
          | O => acc' :: utf8_decode O 0 bs'
          | S _ => utf8_decode k acc' bs'
          end
      | O =>
          if b <? 128 then b :: utf8_decode O 0 bs'
          else if b <? 224 then utf8_decode 1 (b mod 32) bs'
          else if b <? 240 then utf8_decode 2 (b mod 16) bs'
          else utf8_decode 3 (b mod 8) bs'
      end
  end.

Definition utf8 (s : string) : str :=
  utf8_decode O 0 (map byte_val (list_ascii_of_string s)).
Arguments utf8 s%_string.

Definition str_eqb (a b : str) : bool :=
  if list_eq_dec Z.eq_dec a b then true else false.

Definition len {A} (l : list A) : Z := Z.of_nat (length l).

(** [not s] for a string, [not l] for a list. *)
Definition is_nil {A} (l : list A) : bool :=
  match l with [] => true | _ => false end.
Definition str_is_empty (s : str) : bool := is_nil s.

(** *** Character classes *)

Definition in_range (lo hi c : codepoint) : bool := (lo <=? c) && (c <=? hi).

Definition is_ascii (c : codepoint) : bool := in_range 0 127 c.
Definition is_ascii_upper (c : codepoint) : bool := in_range 65 90 c.
Definition is_ascii_lower (c : codepoint) : bool := in_range 97 122 c.
Definition is_ascii_digit (c : codepoint) : bool := in_range 48 57 c.
Definition is_ascii_alnum (c : codepoint) : bool :=
  is_ascii_upper c || is_ascii_lower c || is_ascii_digit c.

(** [str.isspace()] on one code point: the Unicode whitespace set
    (bidirectional type WS, B or S, or category Zs). *)
Definition is_space (c : codepoint) : bool :=
  in_range 9 13 c || in_range 28 32 c || (c =? 133) || (c =? 160)
  || (c =? 5760) || in_range 8192 8202 c || (c =? 8232) || (c =? 8233)
  || (c =? 8239) || (c =? 8287) || (c =? 12288).

(** [s.isascii()] *)
Definition str_isascii (s : str) : bool := forallb is_ascii s.

(** [s.isalnum()] for an ASCII string (the sources call it only behind
    [isascii()]): non-empty, letters and digits only. *)
Definition ascii_isalnum (s : str) : bool :=
  negb (str_is_empty s) && forallb is_ascii_alnum s.

(** *** Stripping and searching *)

Fixpoint str_lstrip (s : str) : str :=
  match s with
  | c :: s' => if is_space c then str_lstrip s' else s
  | [] => []
  end.

Definition str_rstrip (s : str) : str := rev (str_lstrip (rev s)).

(** [s.strip()] *)
Definition str_strip (s : str) : str := str_rstrip (str_lstrip s).

(** [s.startswith(p)]: when [p] is a prefix, the rest of [s]. *)
Fixpoint strip_prefix (p s : str) : option str :=
  match p, s with
  | [], _ => Some s
  | a :: p', b :: s' => if a =? b then strip_prefix p' s' else None
  | _ :: _, [] => None
  end.

Definition starts_with (p s : str) : bool :=
  match strip_prefix p s with Some _ => true | None => false end.

Definition ends_with (p s : str) : bool := starts_with (rev p) (rev s).

(** [needle in hay] *)
Fixpoint str_contains (needle hay : str) : bool :=
  starts_with needle hay
  || match hay with
     | [] => false
     | _ :: hay' => str_contains needle hay'
     end.

(** [s.split(sep)] for a non-empty separator: cut at every occurrence of
    [sep], scanning left to right without overlap. [skip] counts the
    code points of a separator still to be dropped, [cur] holds the
    current piece in reverse. *)
Fixpoint split_aux (sep : str) (skip : nat) (cur : str) (s : str) : list str :=
  match s with
  | [] => [rev cur]
  | c :: s' =>
      match skip with
      | S k => split_aux sep k cur s'
      | O =>
          if starts_with sep s
          then rev cur :: split_aux sep (length sep - 1) [] s'
          else split_aux sep O (c :: cur) s'
      end
  end.

Definition str_split (sep s : str) : list str := split_aux sep O [] s.

(** The last element of a list, if any. *)
Definition last_opt {A} (l : list A) : option A := hd_error (rev l).

(** [sep.join(parts)] *)
Fixpoint str_join (sep : str) (parts : list str) : str :=
  match parts with
  | [] => []
  | [p] => p
  | p :: rest => p ++ sep ++ str_join sep rest
  end.

(** [a < b] on strings: lexicographic on code points. *)
Fixpoint str_ltb (a b : str) : bool :=
  match a, b with
  | [], [] => false
  | [], _ :: _ => true
  | _ :: _, [] => false
  | x :: a', y :: b' => (x <? y) || ((x =? y) && str_ltb a' b')
  end.

(** *** Case mapping *)

Definition ascii_lower (c : codepoint) : codepoint :=
  if is_ascii_upper c then c + 32 else c.
Definition ascii_upper (c : codepoint) : codepoint :=
  if is_ascii_lower c then c - 32 else c.

(** ** What the model takes from the interpreter

    The Unicode character database changes with the interpreter's
    version, and decimal-to-binary conversion of floats is outside this
    development: they are taken as given. Every operation below is
    fixed on ASCII text; only text with a code point above 127 reaches
    the tables. *)
Class Runtime := {
  (** [s.lower()] for a string that is not pure ASCII *)
  ucd_lower : str -> str;
  (** [s.upper()] for a string that is not pure ASCII *)
  ucd_upper : str -> str;
  (** decimal digit value of a non-ASCII code point (category Nd) *)
  ucd_decimal : codepoint -> option Z;
  (** [float(s)] of a string; [None] is ValueError *)
  float_of_str : str -> option spec_float;
  (** [sys.get_int_max_str_digits()]; 0 switches the limit off *)
  int_max_str_digits : Z
}.

(** A runtime that knows ASCII only, for running examples. *)
Definition ascii_runtime : Runtime := {|
  ucd_lower := fun s => s;
  ucd_upper := fun s => s;
  ucd_decimal := fun _ => None;
  float_of_str := fun _ => None;
  int_max_str_digits := 4300
|}.

Section WithRuntime.
Context {RT : Runtime}.

(** [s.lower()], [s.upper()]: CPython maps ASCII strings bytewise and
    sends the rest through the Unicode tables. *)
Definition str_lower (s : str) : str :=
  if str_isascii s then map ascii_lower s else ucd_lower s.
Definition str_upper (s : str) : str :=
  if str_isascii s then map ascii_upper s else ucd_upper s.

(** *** [int(s)] for a string

    CPython first rewrites the text to ASCII: a non-ASCII space becomes a
    blank, a non-ASCII decimal digit its ASCII digit, and at the first
    other non-ASCII code point the text is cut and closed with a question
    mark. *)
Fixpoint transform_decimal_and_space (s : str) : str :=
  match s with
  | [] => []
  | c :: s' =>
      if is_ascii c then c :: transform_decimal_and_space s'
      else if is_space c then 32 :: transform_decimal_and_space s'
      else match ucd_decimal c with
           | Some d => (48 + d) :: transform_decimal_and_space s'
           | None => [63]
           end
  end.

(** The C locale's [isspace]: blank, TAB, LF, VT, FF, CR. *)
Definition is_c_space (c : codepoint) : bool := in_range 9 13 c || (c =? 32).

Fixpoint skip_c_space (s : str) : str :=
  match s with
  | c :: s' => if is_c_space c then skip_c_space s' else s
  | [] => []
  end.

(** A run of digits in base 10, single underscores allowed between
    digits. Returns the value, the number of digits and the rest. *)
Fixpoint scan_digits (acc digits : Z) (prev_underscore : bool) (s : str)
  : option (Z * Z * str) :=
  match s with
  | c :: s' =>
      if is_ascii_digit c
      then scan_digits (acc * 10 + (c - 48)) (digits + 1) false s'
      else if c =? 95
      then if prev_underscore then None
           else scan_digits acc digits true s'
      else if prev_underscore then None else Some (acc, digits, s)
  | [] => if prev_underscore then None else Some (acc, digits, [])
  end.

(** [PyLong_FromString(text, 10)]: blanks, a sign, digits, blanks, end. *)
Definition long_from_string (text : str) : option Z :=
  let s := skip_c_space text in
  let '(negative, s) :=
    match s with
    | 43 :: s' => (false, s')
    | 45 :: s' => (true, s')
    | _ => (false, s)
    end in
  if starts_with [95] s then None
  else
    match scan_digits 0 0 false s with
    | None => None
    | Some (n, digits, rest) =>
        if digits =? 0 then None
        else if (640 <? digits) && (0 <? int_max_str_digits)
                && (int_max_str_digits <? digits)
        then None
        else match skip_c_space rest with
             | [] => Some (if negative then - n else n)
             | _ :: _ => None
             end
    end.

(** [int(s)]; [None] is ValueError. *)
Definition int_of_str (s : str) : option Z :=
  long_from_string (transform_decimal_and_space s).

End WithRuntime.

(** ** Exceptions *)

Inductive exn :=
| TypeError | ValueError | KeyError | AttributeError | OverflowError
| FileNotFoundError.

Inductive result (A : Type) : Type :=
| Ok (a : A)
| Raise (e : exn).
Arguments Ok {A} a.
Arguments Raise {A} e.

Definition bind {A B} (c : result A) (k : A -> result B) : result B :=
  match c with
  | Ok a => k a
  | Raise e => Raise e
  end.

Declare Scope py_scope.
Delimit Scope py_scope with py.
Notation "x <- c ;; k" := (bind c (fun x => k))
  (at level 61, c at next level, right associativity) : py_scope.
Local Open Scope py_scope.

(** [try: c  except (TypeError, ValueError): handler] *)
Definition except_type_value {A} (c handler : result A) : result A :=
  match c with
  | Raise TypeError | Raise ValueError => handler
  | _ => c
  end.

(** A loop body run over a list, left to right, stopping at the first
    exception. *)
Fixpoint mapM {A B} (f : A -> result B) (l : list A) : result (list B) :=
  match l with
  | [] => Ok []
  | x :: l' => y <- f x ;; ys <- mapM f l' ;; Ok (y :: ys)
  end.

Fixpoint foldM {A S} (f : S -> A -> result S) (l : list A) (s : S) : result S :=
  match l with
  | [] => Ok s
  | x :: l' => s' <- f s x ;; foldM f l' s'
  end.

(** A list comprehension with a condition. *)
Fixpoint filterM {A} (f : A -> result bool) (l : list A) : result (list A) :=
  match l with
  | [] => Ok []
  | x :: l' =>
      b <- f x ;; r <- filterM f l' ;; Ok (if b then x :: r else r)
  end.

(** ** Values *)

(** The objects that reach [prepare_report_data]: JSON-shaped data.
    Dicts keep insertion order and have string keys. A float is an IEEE
    754 binary64 number in [spec_float]'s canonical form. *)
Inductive value :=
| VNone
| VBool (b : bool)
| VInt (z : Z)
| VFloat (f : spec_float)
| VStr (s : str)
| VList (l : list value)
| VDict (d : list (str * value)).

Definition dict := list (str * value).

(** *** Floats: IEEE 754 binary64 *)

Definition prec : Z := 53.
Definition emax : Z := 1024.

(** [float(n)] of an integer: round to nearest, ties to even;
    OverflowError beyond the largest finite double. *)
Definition float_of_Z (z : Z) : result spec_float :=
  match binary_normalize prec emax z 0 false with
  | S754_infinity _ => Raise OverflowError
  | f => Ok f
  end.

Definition float_add : spec_float -> spec_float -> spec_float :=
  SFadd prec emax.

Definition float_is_zero (f : spec_float) : bool :=
  match f with S754_zero _ => true | _ => false end.

(** [int(x)] of a float: truncation toward zero. *)
Definition float_to_Z (f : spec_float) : result Z :=
  match f with
  | S754_zero _ => Ok 0
  | S754_nan => Raise ValueError
  | S754_infinity _ => Raise OverflowError
  | S754_finite s m e =>
      let mag := if 0 <=? e then Zpos m * 2 ^ e else Zpos m / 2 ^ (- e) in
      Ok (if s then - mag else mag)
  end.

(** Numbers compare by value across [bool], [int] and [float]. *)
Inductive number := NInt (z : Z) | NFloat (f : spec_float).

Definition as_number (v : value) : option number :=
  match v with
  | VBool b => Some (NInt (if b then 1 else 0))
  | VInt z => Some (NInt z)
  | VFloat f => Some (NFloat f)
  | _ => None
  end.

(** An integer against a float, exactly; [None] when the float is NaN. *)
Definition Z_float_compare (z : Z) (f : spec_float) : option comparison :=
  match f with
  | S754_nan => None
  | S754_infinity s => Some (if s then Gt else Lt)
  | S754_zero _ => Some (z ?= 0)
  | S754_finite s m e =>
      let m' := if s then Zneg m else Zpos m in
      Some (if 0 <=? e then z ?= m' * 2 ^ e else z * 2 ^ (- e) ?= m')
  end.

Definition num_compare (a b : number) : option comparison :=
  match a, b with
  | NInt x, NInt y => Some (x ?= y)
  | NInt x, NFloat g => Z_float_compare x g
  | NFloat f, NInt y => option_map CompOpp (Z_float_compare y f)
  | NFloat f, NFloat g => SFcompare f g
  end.

(** *** Truthiness and [or] *)

Definition truthy (v : value) : bool :=
  match v with
  | VNone => false
  | VBool b => b
  | VInt z => negb (z =? 0)
  | VFloat f => negb (float_is_zero f)
  | VStr s => negb (str_is_empty s)
  | VList l => match l with [] => false | _ => true end
  | VDict d => match d with [] => false | _ => true end
  end.

(** [a or b] *)
Definition py_or (a b : value) : value := if truthy a then a else b.

(** *** Comparisons *)

(** [a == b] where [b] is a string. *)
Definition eq_str (a : value) (b : str) : bool :=
  match a with VStr s => str_eqb s b | _ => false end.

(** [a < b]. Numbers with numbers, strings with strings, TypeError
    otherwise. Two lists compare element by element in Python; the only
    caller that can meet lists is [_rank_key], which answers 999 for a
    list whatever the comparison says ([int()] of a list is a TypeError
    as well), so the order on lists is not developed here. *)
Definition py_lt (a b : value) : result bool :=
  match as_number a, as_number b with
  | Some x, Some y =>
      Ok (match num_compare x y with Some Lt => true | _ => false end)
  | _, _ =>
      match a, b with
      | VStr s, VStr t => Ok (str_ltb s t)
      | _, _ => Raise TypeError
      end
  end.

(** [v <= n] for an integer [n]. *)
Definition py_le_int (v : value) (n : Z) : result bool :=
  match as_number v with
  | Some x =>
      Ok (match num_compare x (NInt n) with
          | Some Lt | Some Eq => true
          | _ => false
          end)
  | None => Raise TypeError
  end.

(** *** Hashable values as dict keys *)

Definition hashable (v : value) : bool :=
  match v with VList _ | VDict _ => false | _ => true end.

(** Key equality is [==]. (CPython tries object identity first, which
    only shows for NaN keys; values here have no identity.) *)
Definition key_eqb (a b : value) : bool :=
  match as_number a, as_number b with
  | Some x, Some y => match num_compare x y with Some Eq => true | _ => false end
  | _, _ =>
      match a, b with
      | VNone, VNone => true
      | VStr s, VStr t => str_eqb s t
      | _, _ => false
      end
  end.

(** A dict keyed by arbitrary hashable values, in insertion order. *)
Definition kdict (A : Type) := list (value * A).

Fixpoint kd_lookup {A} (k : value) (d : kdict A) : option A :=
  match d with
  | [] => None
  | (k', a) :: d' => if key_eqb k' k then Some a else kd_lookup k d'
  end.

(** [d[k] = a]: an existing key keeps its place (and its first spelling). *)
Fixpoint kd_set {A} (k : value) (a : A) (d : kdict A) : kdict A :=
  match d with
  | [] => [(k, a)]
  | (k', a') :: d' =>
      if key_eqb k' k then (k', a) :: d' else (k', a') :: kd_set k a d'
  end.

(** Using [k] as a key raises TypeError when it is unhashable. *)
Definition check_hashable (k : value) : result unit :=
  if hashable k then Ok tt else Raise TypeError.

(** *** String-keyed dicts *)

Fixpoint dict_lookup (k : str) (d : dict) : option value :=
  match d with
  | [] => None
  | (k', v) :: d' => if str_eqb k' k then Some v else dict_lookup k d'
  end.

(** [d[k] = v] *)
Fixpoint dict_set (k : str) (v : value) (d : dict) : dict :=
  match d with
  | [] => [(k, v)]
  | (k', v') :: d' =>
      if str_eqb k' k then (k', v) :: d' else (k', v') :: dict_set k v d'
  end.

(** [d.get(k, default)] on a dict in hand. *)
Definition dict_get (d : dict) (k : str) (default : value) : value :=
  match dict_lookup k d with Some v => v | None => default end.

(** [x.get(k, default)]: only dicts have the method. *)
Definition py_get (x : value) (k : str) (default : value) : result value :=
  match x with
  | VDict d => Ok (dict_get d k default)
  | _ => Raise AttributeError
  end.

(** [x[k]] with a string key. *)
Definition py_getitem (x : value) (k : str) : result value :=
  match x with
  | VDict d =>
      match dict_lookup k d with Some v => Ok v | None => Raise KeyError end
  | _ => Raise TypeError
  end.

(** [x.items()] *)
Definition py_items (x : value) : result dict :=
  match x with
  | VDict d => Ok d
  | _ => Raise AttributeError
  end.

(** Iterating over [x] ([for _ in x], [list(x)], [min(x)]): a list gives
    its elements, a string its characters, a dict its keys. *)
Definition py_iter (x : value) : result (list value) :=
  match x with
  | VList l => Ok l
  | VStr s => Ok (map (fun c => VStr [c]) s)
  | VDict d => Ok (map (fun kv => VStr (fst kv)) d)
  | _ => Raise TypeError
  end.

(** [len(x)] *)
Definition py_len (x : value) : result Z :=
  match x with
  | VStr s => Ok (len s)
  | VList l => Ok (len l)
  | VDict d => Ok (len d)
  | _ => Raise TypeError
  end.

Section Conversions.
Context {RT : Runtime}.

(** [int(x)] *)
Definition py_int (x : value) : result Z :=
  match x with
  | VBool b => Ok (if b then 1 else 0)
  | VInt z => Ok z
  | VFloat f => float_to_Z f
  | VStr s =>
      match int_of_str s with Some z => Ok z | None => Raise ValueError end
  | VNone | VList _ | VDict _ => Raise TypeError
  end.

(** [float(x)] *)
Definition py_float (x : value) : result spec_float :=
  match x with
  | VBool b => float_of_Z (if b then 1 else 0)
  | VInt z => float_of_Z z
  | VFloat f => Ok f
  | VStr s =>
      match float_of_str s with Some f => Ok f | None => Raise ValueError end
  | VNone | VList _ | VDict _ => Raise TypeError
  end.

End Conversions.

(** [min(xs)] over a non-empty sequence: the first smallest element. *)
Fixpoint min_from (m : value) (xs : list value) : result value :=
  match xs with
  | [] => Ok m
  | x :: xs' => b <- py_lt x m ;; min_from (if b then x else m) xs'
  end.

Definition py_min (xs : list value) : result value :=
  match xs with
  | [] => Raise ValueError
  | x :: xs' => min_from x xs'
  end.

(** ** Sorting

    [list.sort] and [sorted] are stable, and a stable sort has one
    possible outcome on keys that are totally ordered, so insertion into
    a sorted tail models them. Only [<] is asked of the keys, as in
    CPython. *)

Fixpoint insert_by {A} (lt : A -> A -> bool) (x : A) (l : list A) : list A :=
  match l with
  | [] => [x]
  | y :: l' => if lt y x then y :: insert_by lt x l' else x :: l
  end.

Fixpoint stable_sort {A} (lt : A -> A -> bool) (l : list A) : list A :=
  match l with
  | [] => []
  | x :: l' => insert_by lt x (stable_sort lt l')
  end.

(** The same with a comparison that may raise. *)
Fixpoint insert_byM {A} (lt : A -> A -> result bool) (x : A) (l : list A)
  : result (list A) :=
  match l with
  | [] => Ok [x]
  | y :: l' =>
      b <- lt y x ;;
      if b then (r <- insert_byM lt x l' ;; Ok (y :: r)) else Ok (x :: l)
  end.

Fixpoint stable_sortM {A} (lt : A -> A -> result bool) (l : list A)
  : result (list A) :=
  match l with
  | [] => Ok []
  | x :: l' => r <- stable_sortM lt l' ;; insert_byM lt x r
  end.

(** [enumerate(l)] *)
Fixpoint enumerate_from {A} (i : Z) (l : list A) : list (Z * A) :=
  match l with
  | [] => []
  | x :: l' => (i, x) :: enumerate_from (i + 1) l'
  end.

Definition enumerate {A} (l : list A) : list (Z * A) := enumerate_from 0 l.

End Py.

(* ===================================================================== *)
(** * trendradar/core/frequency.py *)
(* ===================================================================== *)

Module Frequency.
Import Py.
Local Open Scope py_scope.

(** A word group as the loader builds it. [required] and [normal] are
    optional because [matches_group] reads them with
    [group.get(key, []) or []]: [None] stands for an absent key or a
    [None] value. *)
Record word_group := {
  required : option (list str);
  normal : option (list str);
  group_key : str;
  max_count : Z
}.

(** The [title] argument of the matchers: a string, [None], or any other
    object, which the matchers use through [str(title)] only. *)
Inductive title_arg :=
| TitleStr (s : str)
| TitleNone
| TitleObj (str_of : str).

(** [if not isinstance(title, str): title = str(title) if title is not None else ''] *)
Definition coerce_title (title : title_arg) : str :=
  match title with
  | TitleStr s => s
  | TitleNone => []
  | TitleObj s => s
  end.

(** [x or []] for an optional list. *)
Definition or_empty {A} (x : option (list A)) : list A :=
  match x with Some l => l | None => [] end.

(** ** The compiled boundary pattern

    [(?<![A-Za-z0-9])<literal>(?![A-Za-z0-9])] compiled with
    [re.IGNORECASE]. The module compiles it only for lower-cased keywords
    of ASCII letters and digits, on which [re.escape] is the identity;
    the matcher below is exact for such literals. *)
Record pattern := { literal : str }.

(** The lower-case mapping of the regex engine on one code point, as far
    as a pattern of ASCII letters and digits can tell: besides the ASCII
    capitals, U+0130 (capital I with dot) lowers to [i] and U+212A
    (Kelvin sign) to [k]; every other code point lowers to something
    outside ASCII, or to itself. *)
Definition sre_lower (c : codepoint) : codepoint :=
  if is_ascii_upper c then c + 32
  else if c =? 304 then 105
  else if c =? 8490 then 107
  else c.

(** Case variants the engine adds to a lower-case letter because
    lowering alone misses them: dotless i (U+0131) for [i], long s
    (U+017F) for [s]. *)
Definition sre_fixes (lo : codepoint) : list codepoint :=
  if lo =? 105 then [305]
  else if lo =? 115 then [383]
  else [].

(** One literal code point [p] of the pattern against one code point [c]
    of the text, ignoring case. *)
Definition literal_ignorecase (p c : codepoint) : bool :=
  let lo := sre_lower p in
  let lc := sre_lower c in
  (lc =? lo) || existsb (Z.eqb lc) (sre_fixes lo).

(** The class [[A-Za-z0-9]] under IGNORECASE: the lowered ranges plus
    their added variants, tested on the lowered text code point. *)
Definition class_alnum_ignorecase (c : codepoint) : bool :=
  let lc := sre_lower c in
  is_ascii_lower lc || is_ascii_digit lc || (lc =? 305) || (lc =? 383).

(** The literal at the start of [text]; on success, what follows it. *)
Fixpoint match_literal (lit text : str) : option str :=
  match lit, text with
  | [], _ => Some text
  | p :: lit', c :: text' =>
      if literal_ignorecase p c then match_literal lit' text' else None
  | _ :: _, [] => None
  end.

(** The pattern at the current position: [prev] is the code point just
    before it, if any. *)
Definition match_here (pat : pattern) (prev : option codepoint) (text : str) : bool :=
  match prev with
  | Some c => negb (class_alnum_ignorecase c)
  | None => true
  end
  && match match_literal (literal pat) text with
     | Some (c :: _) => negb (class_alnum_ignorecase c)
     | Some [] => true
     | None => false
     end.

Fixpoint search_from (pat : pattern) (prev : option codepoint) (text : str) : bool :=
  match_here pat prev text
  || match text with
     | [] => false
     | c :: text' => search_from pat (Some c) text'
     end.

(** [bool(pattern.search(text))] *)
Definition pattern_search (pat : pattern) (text : str) : bool :=
  search_from pat None text.

Section WithRuntime.
Context {RT : Runtime}.

(** ** load_frequency_words *)

Inductive section_name := GLOBAL_FILTER | WORD_GROUPS.

(** The accumulators of one word-group block (lines 94-97). *)
Record group_scan := {
  group_required_words : list str;
  group_normal_words : list str;
  group_filter_words : list str;
  group_max_count : Z
}.

Definition empty_scan : group_scan :=
  {| group_required_words := []; group_normal_words := [];
     group_filter_words := []; group_max_count := 0 |}.

(** One turn of [for word in words] (lines 99-114). The first component
    is the rulebook-wide [filter_words]. *)
Definition scan_word (st : list str * group_scan) (word : str)
  : list str * group_scan :=
  let '(filter_words, g) := st in
  if starts_with (utf8 "@") word then
    match int_of_str (tl word) with
    | Some count =>
        if 0 <? count
        then (filter_words,
              {| group_required_words := group_required_words g;
                 group_normal_words := group_normal_words g;
                 group_filter_words := group_filter_words g;
                 group_max_count := count |})
        else st
    | None => st
    end
  else if starts_with (utf8 "!") word then
    (filter_words ++ [tl word],
     {| group_required_words := group_required_words g;
        group_normal_words := group_normal_words g;
        group_filter_words := group_filter_words g ++ [tl word];
        group_max_count := group_max_count g |})
  else if starts_with (utf8 "+") word then
    (filter_words,
     {| group_required_words := group_required_words g ++ [tl word];
        group_normal_words := group_normal_words g;
        group_filter_words := group_filter_words g;
        group_max_count := group_max_count g |})
  else
    (filter_words,
     {| group_required_words := group_required_words g;
        group_normal_words := group_normal_words g ++ [word];
        group_filter_words := group_filter_words g;
        group_max_count := group_max_count g |}).

Definition scan_words (filter_words : list str) (words : list str)
  : list str * group_scan :=
  fold_left scan_word words (filter_words, empty_scan).

(** Lines 116-129: the group is kept when it has a required or a normal
    word. *)
Definition emit_group (g : group_scan) : list word_group :=
  match group_required_words g, group_normal_words g with
  | [], [] => []
  | _, _ =>
      let group_key :=
        match group_normal_words g with
        | _ :: _ => str_join (utf8 " ") (group_normal_words g)
        | [] => str_join (utf8 " ") (group_required_words g)
        end in
      [ {| required := Some (group_required_words g);
           normal := Some (group_normal_words g);
           group_key := group_key;
           max_count := group_max_count g |} ]
  end.

(** The state of the loop over blocks. *)
Record loader := {
  processed_groups : list word_group;
  filter_words : list str;
  global_filters : list str;
  current_section : section_name
}.

(** [[l.strip() for l in text.split(sep) if l.strip()]] *)
Definition stripped_pieces (sep text : str) : list str :=
  filter (fun l => negb (str_is_empty l)) (map str_strip (str_split sep text)).

(** [line[1:-1]] *)
Definition inner (line : str) : str := removelast (tl line).

(** Lines 73-78: the section switch on the first line of a block. *)
Definition section_switch (cur : section_name) (lines : list str)
  : section_name * list str :=
  match lines with
  | first :: rest =>
      if starts_with (utf8 "[") first && ends_with (utf8 "]") first then
        let name := str_upper (inner first) in
        if str_eqb name (utf8 "GLOBAL_FILTER") then (GLOBAL_FILTER, rest)
        else if str_eqb name (utf8 "WORD_GROUPS") then (WORD_GROUPS, rest)
        else (cur, lines)
      else (cur, lines)
  | [] => (cur, lines)
  end.

(** One turn of [for group in word_groups] (lines 67-129). *)
Definition process_block (st : loader) (group : str) : loader :=
  match stripped_pieces [10] group with
  | [] => st
  | lines =>
      let '(sec, lines) := section_switch (current_section st) lines in
      match sec with
      | GLOBAL_FILTER =>
          let plain line :=
            negb (starts_with (utf8 "!") line || starts_with (utf8 "+") line
                  || starts_with (utf8 "@") line)
            && negb (str_is_empty line) in
          {| processed_groups := processed_groups st;
             filter_words := filter_words st;
             global_filters := global_filters st ++ filter plain lines;
             current_section := sec |}
      | WORD_GROUPS =>
          let '(fw, g) := scan_words (filter_words st) lines in
          {| processed_groups := processed_groups st ++ emit_group g;
             filter_words := fw;
             global_filters := global_filters st;
             current_section := sec |}
      end
  end.

(** [load_frequency_words]; [content] is the text of the rulebook file,
    [None] when the file does not exist. *)
Definition load_frequency_words (content : option str)
  : result (list word_group * list str * list str) :=
  match content with
  | None => Raise FileNotFoundError
  | Some content =>
      let word_groups :=
        stripped_pieces [10; 10] content in
      let st := fold_left process_block word_groups
                  {| processed_groups := []; filter_words := [];
                     global_filters := []; current_section := WORD_GROUPS |} in
      Ok (processed_groups st, filter_words st, global_filters st)
  end.

(** ** Matching *)

Definition _should_use_ascii_word_boundary (keyword : str) : bool :=
  if str_is_empty keyword then false
  else if (len keyword <? 2) || (len keyword >? 4) then false
  else str_isascii keyword && ascii_isalnum keyword.

Definition _compile_ascii_boundary_pattern (keyword_lower : str) : pattern :=
  {| literal := keyword_lower |}.

Definition _keyword_in_title (title title_lower keyword : str) : bool :=
  if str_is_empty keyword then false
  else if _should_use_ascii_word_boundary keyword then
    pattern_search (_compile_ascii_boundary_pattern (str_lower keyword)) title
  else str_contains (str_lower keyword) title_lower.

Definition matches_group (title : title_arg) (group : word_group) : bool :=
  let title := coerce_title title in
  if str_is_empty title then false
  else
    let title_lower := str_lower title in
    let required_words := or_empty (required group) in
    let normal_words := or_empty (normal group) in
    if negb (is_nil required_words)
       && negb (forallb (_keyword_in_title title title_lower) required_words)
    then false
    else if negb (is_nil normal_words)
            && negb (existsb (_keyword_in_title title title_lower) normal_words)
    then false
    else true.

Definition matches_word_groups
  (title : title_arg) (word_groups : list word_group)
  (filter_words : list str) (global_filters : option (list str)) : bool :=
  let title := coerce_title title in
  if str_is_empty (str_strip title) then false
  else
    let title_lower := str_lower title in
    if negb (is_nil (or_empty global_filters))
       && existsb (_keyword_in_title title title_lower) (or_empty global_filters)
    then false
    else if is_nil word_groups then true
    else if existsb (_keyword_in_title title title_lower) filter_words
    then false
    else existsb (matches_group (TitleStr title)) word_groups.

(** ** The specification's wording *)

(** "keyword matches the title" *)
Definition keyword_matches (title keyword : str) : Prop :=
  _keyword_in_title title (str_lower title) keyword = true.

(** "a group matches iff (its required list is empty or every required
    keyword matches the title) and (its normal list is empty or at least
    one normal keyword matches the title)" *)
Definition group_matches (title : str) (g : word_group) : Prop :=
  (or_empty (required g) = []
   \/ forall k, In k (or_empty (required g)) -> keyword_matches title k)
  /\ (or_empty (normal g) = []
      \/ exists k, In k (or_empty (normal g)) /\ keyword_matches title k).

(** "no global filter matches, and either there are no groups, or no
    flat filter word matches and at least one group matches" *)
Definition title_passes
  (title : str) (word_groups : list word_group)
  (filter_words : list str) (global_filters : option (list str)) : Prop :=
  (~ exists k, In k (or_empty global_filters) /\ keyword_matches title k)
  /\ (word_groups = []
      \/ ((~ exists k, In k filter_words /\ keyword_matches title k)
          /\ exists g, In g word_groups /\ group_matches title g)).

(** "2 to 4 characters long and entirely ASCII letters/digits" *)
Definition short_ascii (keyword : str) : Prop :=
  2 <= len keyword <= 4 /\ Forall (fun c => is_ascii_alnum c = true) keyword.

(** "it occurs (case-insensitively) not immediately preceded or followed
    by an ASCII letter/digit": the title splits into [before ++ occ ++
    after] where [occ] is the keyword up to the case of ASCII letters. *)
Definition not_alnum_next (neighbour : option codepoint) : Prop :=
  match neighbour with
  | Some c => is_ascii_alnum c = false
  | None => True
  end.

Definition boundary_occurrence (keyword title : str) : Prop :=
  exists before occ after,
    title = before ++ occ ++ after
    /\ map ascii_lower occ = map ascii_lower keyword
    /\ not_alnum_next (last_opt before)
    /\ not_alnum_next (hd_error after).

(** "a case-insensitive substring of the title" *)
Definition substring_ignoring_case (keyword title : str) : Prop :=
  exists before after,
    str_lower title = before ++ str_lower keyword ++ after.

(** The four letters outside ASCII that IGNORECASE folds onto ASCII
    letters: U+0130, U+0131, U+017F, U+212A. *)
Definition folds_to_ascii (c : codepoint) : bool :=
  (c =? 304) || (c =? 305) || (c =? 383) || (c =? 8490).

(** The counts that the [@] lines of a block set, in order. *)
Definition valid_counts (words : list str) : list Z :=
  flat_map (fun word =>
    if starts_with (utf8 "@") word then
      match int_of_str (tl word) with
      | Some n => if 0 <? n then [n] else []
      | None => []
      end
    else []) words.

End WithRuntime.
End Frequency.

(* ===================================================================== *)
(** * trendradar/report/generator.py: prepare_report_data *)
(* ===================================================================== *)

Module Generator.
Import Py.
Local Open Scope py_scope.

Definition PERSONAL_RSS_GROUP_KEY : str :=
  Eval vm_compute in utf8 "个人博客更新".

(** Field names, as [str]. *)
Definition k_word : str := Eval vm_compute in utf8 "word".
Definition k_count : str := Eval vm_compute in utf8 "count".
Definition k_titles : str := Eval vm_compute in utf8 "titles".
Definition k_position : str := Eval vm_compute in utf8 "position".
Definition k_percentage : str := Eval vm_compute in utf8 "percentage".
Definition k_source_name : str := Eval vm_compute in utf8 "source_name".
Definition k_ranks : str := Eval vm_compute in utf8 "ranks".
Definition k_title : str := Eval vm_compute in utf8 "title".
Definition k_time_display : str := Eval vm_compute in utf8 "time_display".
Definition k_rank_threshold : str := Eval vm_compute in utf8 "rank_threshold".
Definition k_url : str := Eval vm_compute in utf8 "url".
Definition k_mobile_url : str := Eval vm_compute in utf8 "mobile_url".
Definition k_mobileUrl : str := Eval vm_compute in utf8 "mobileUrl".
Definition k_is_new : str := Eval vm_compute in utf8 "is_new".
Definition k_source_id : str := Eval vm_compute in utf8 "source_id".

(** The returned dict, one field per key. *)
Record payload := {
  p_stats : list value;
  p_new_titles : list value;
  p_rss_stats : list value;
  p_rss_new_stats : list value;
  p_failed_ids : list value;
  p_total_new_count : Z
}.

(** [(a1, a2) < (b1, b2)] on tuples of integers. *)
Definition pair_ltb (a b : Z * Z) : bool :=
  (fst a <? fst b) || ((fst a =? fst b) && (snd a <? snd b)).

(** [sorted(l, key=...)] once the keys are computed: decorate, sort
    stably on the key, undecorate. *)
Definition sort_on {K A} (lt : K -> K -> bool) (keys : list K) (l : list A)
  : list A :=
  map snd (stable_sort (fun a b => lt (fst a) (fst b)) (combine keys l)).

(** [dict(x)] where [x] is a dict. *)
Definition py_dict (x : value) : result dict :=
  match x with
  | VDict d => Ok d
  | _ => Raise TypeError
  end.

(** [x or []] for an optional list argument. *)
Definition or_nil {A} (x : option (list A)) : list A :=
  match x with Some l => l | None => [] end.

Section WithRuntime.
Context {RT : Runtime}.

(** ** Splitting the RSS input (lines 53-57) *)

(** [s.get("word") == PERSONAL_RSS_GROUP_KEY] *)
Definition is_personal (s : value) : result bool :=
  w <- py_get s k_word VNone ;; Ok (eq_str w PERSONAL_RSS_GROUP_KEY).

Definition is_keyword (s : value) : result bool :=
  w <- py_get s k_word VNone ;; Ok (negb (eq_str w PERSONAL_RSS_GROUP_KEY)).

(** ** Merging keyword RSS into the hot-list stats (lines 60-101) *)

(** [merged_by_word]: copies of stat dicts by word, in insertion order. *)
Definition merged_map := kdict dict.

(** Lines 63-67, one turn of [for stat in stats or []]. *)
Definition add_primary (m : merged_map) (stat : value) : result merged_map :=
  word <- py_get stat k_word VNone ;;
  if negb (truthy word) then Ok m
  else
    d <- py_dict stat ;;
    _ <- check_hashable word ;;
    Ok (kd_set word d m).

(** Lines 76-91: the update of the copy [merged] with [rss_stat]. *)
Definition merge_into (merged : dict) (rss_stat : value) : result dict :=
  c1 <- py_int (py_or (dict_get merged k_count (VInt 0)) (VInt 0)) ;;
  rc <- py_get rss_stat k_count (VInt 0) ;;
  c2 <- py_int (py_or rc (VInt 0)) ;;
  let merged := dict_set k_count (VInt (c1 + c2)) merged in
  t1 <- py_iter (py_or (dict_get merged k_titles (VList [])) (VList [])) ;;
  rt <- py_get rss_stat k_titles (VList []) ;;
  t2 <- py_iter (py_or rt (VList [])) ;;
  let merged := dict_set k_titles (VList (t1 ++ t2)) merged in
  let merged_position := dict_get merged k_position (VInt 999) in
  rss_position <- py_get rss_stat k_position (VInt 999) ;;
  position <- except_type_value
                (a <- py_int merged_position ;;
                 b <- py_int rss_position ;;
                 Ok (VInt (Z.min a b)))
                (Ok merged_position) ;;
  let merged := dict_set k_position position merged in
  except_type_value
    (p1 <- py_float (py_or (dict_get merged k_percentage (VInt 0)) (VInt 0)) ;;
     rp <- py_get rss_stat k_percentage (VInt 0) ;;
     p2 <- py_float (py_or rp (VInt 0)) ;;
     Ok (dict_set k_percentage (VFloat (float_add p1 p2)) merged))
    (Ok merged).

(** Lines 69-93, one turn of [for rss_stat in rss_keyword_stats]. *)
Definition merge_rss (m : merged_map) (rss_stat : value) : result merged_map :=
  word <- py_get rss_stat k_word VNone ;;
  if negb (truthy word) then Ok m
  else
    _ <- check_hashable word ;;
    match kd_lookup word m with
    | Some merged =>
        merged' <- merge_into merged rss_stat ;;
        Ok (kd_set word merged' m)
    | None =>
        d <- py_dict rss_stat ;;
        Ok (kd_set word d m)
    end.

(** The key of the final sort (lines 97-100). *)
Definition sort_key (x : dict) : result (Z * Z) :=
  c <- py_int (py_or (dict_get x k_count (VInt 0)) (VInt 0)) ;;
  p <- py_int (py_or (dict_get x k_position (VInt 999)) (VInt 999)) ;;
  Ok (- c, p).

(** [merged_by_word] after both loops. *)
Definition merge_by_word (stats rss_keyword_stats : list value)
  : result merged_map :=
  m <- foldM add_primary stats [] ;;
  foldM merge_rss rss_keyword_stats m.

(** The body of [if rss_keyword_stats:], giving the new [stats]. *)
Definition merge_stats (stats rss_keyword_stats : list value)
  : result (list value) :=
  m <- merge_by_word stats rss_keyword_stats ;;
  let values := map snd m in
  keys <- mapM sort_key values ;;
  Ok (map VDict (sort_on pair_ltb keys values)).

(** ** Regrouping the personal feeds (lines 104-153) *)

(** Lines 116-123. *)
Definition _rank_key (item : value) : result Z :=
  ranks <- py_get item k_ranks (VList []) ;;
  if negb (truthy ranks) then Ok 999
  else
    except_type_value
      (xs <- py_iter ranks ;; m <- py_min xs ;; py_int m)
      (Ok 999).

(** [titles_by_feed.setdefault(feed_name, []).append(title_data)] *)
Fixpoint setdefault_append (feed_name : value) (title_data : value)
  (d : kdict (list value)) : kdict (list value) :=
  match d with
  | [] => [(feed_name, [title_data])]
  | (k, items) :: d' =>
      if key_eqb k feed_name then (k, items ++ [title_data]) :: d'
      else (k, items) :: setdefault_append feed_name title_data d'
  end.

(** Lines 112-114, one turn. *)
Definition add_to_feed (titles_by_feed : kdict (list value)) (title_data : value)
  : result (kdict (list value)) :=
  sn <- py_get title_data k_source_name (VStr []) ;;
  let feed_name := py_or sn (VStr (utf8 "RSS")) in
  _ <- check_hashable feed_name ;;
  Ok (setdefault_append feed_name title_data titles_by_feed).

(** Lines 132-136. *)
Definition clean_item (item : value) : result value :=
  item_copy <- py_dict item ;;
  let item_copy := dict_set k_source_name (VStr []) item_copy in
  let item_copy := dict_set k_ranks (VList []) item_copy in
  Ok (VDict item_copy).

(** A feed summary [(feed_name, cleaned_items, latest_rank)]. *)
Definition summary := (value * list value * Z)%type.

(** Lines 127-139, one turn. *)
Definition summarize_feed (kv : value * list value) : result summary :=
  let '(feed_name, items) := kv in
  keys <- mapM _rank_key items ;;
  let sorted_items := sort_on Z.ltb keys items in
  cleaned_items <- mapM clean_item sorted_items ;;
  latest_rank <- match sorted_items with
                 | first :: _ => _rank_key first
                 | [] => Ok 999
                 end ;;
  Ok (feed_name, cleaned_items, latest_rank).

(** [(x[2], -len(x[1]), x[0]) < (y[2], -len(y[1]), y[0])]: the first
    components that differ under [==] decide. *)
Definition summary_lt (x y : summary) : result bool :=
  let '(name1, items1, rank1) := x in
  let '(name2, items2, rank2) := y in
  if negb (rank1 =? rank2) then Ok (rank1 <? rank2)
  else if negb (- len items1 =? - len items2)
  then Ok (- len items1 <? - len items2)
  else if key_eqb name1 name2 then Ok false
  else py_lt name1 name2.

(** Lines 144-153. *)
Definition feed_entry (pos_summary : Z * summary) : value :=
  let '(pos, (feed_name, items, _)) := pos_summary in
  VDict [ (k_word, feed_name);
          (k_count, VInt (len items));
          (k_position, VInt pos);
          (k_titles, VList items);
          (k_percentage, VInt 0) ].

(** Lines 107-109. *)
Definition titles_of (stat : value) : result (list value) :=
  t <- py_get stat k_titles (VList []) ;;
  py_iter (py_or t (VList [])).

(** The body of [if personal_rss_stats:], giving [personal_feed_stats]. *)
Definition regroup_personal (personal_rss_stats : list value)
  : result (list value) :=
  per_stat <- mapM titles_of personal_rss_stats ;;
  let all_personal_titles := concat per_stat in
  titles_by_feed <- foldM add_to_feed all_personal_titles [] ;;
  feed_summaries <- mapM summarize_feed titles_by_feed ;;
  feed_summaries <- stable_sortM summary_lt feed_summaries ;;
  Ok (map feed_entry (enumerate feed_summaries)).

Section Injected.
(** The rulebook as [load_frequency_words_func] returns it, and the two
    injected callables: the loader as the outcome of calling it, the
    matcher applied to a title and the loaded rulebook. *)
Context {rulebook : Type}.
Variable matches_word_groups_func : option (str -> rulebook -> result value).
Variable load_frequency_words_func : option (result rulebook).

(** ** The new-titles section (lines 155-214) *)

(** Lines 168-173, one turn of [for source_id, titles_data in new_titles.items()]. *)
Definition filter_source
  (matches : str -> rulebook -> result value) (rb : rulebook)
  (filtered_new_titles : dict) (kv : str * value) : result dict :=
  let '(source_id, titles_data) := kv in
  items <- py_items titles_data ;;
  filtered_titles <-
    foldM (fun (acc : dict) (tv : str * value) =>
             r <- matches (fst tv) rb ;;
             Ok (if truthy r then dict_set (fst tv) (snd tv) acc else acc))
          items [] ;;
  Ok (if is_nil filtered_titles then filtered_new_titles
      else dict_set source_id (VDict filtered_titles) filtered_new_titles).

(** [sum(len(titles) for titles in d.values()) if d else 0] *)
Definition count_titles (d : value) : result Z :=
  if truthy d then
    items <- py_items d ;;
    lens <- mapM (fun kv : str * value => py_len (snd kv)) items ;;
    Ok (fold_left Z.add lens 0)
  else Ok 0.

(** Lines 162-182: [filtered_new_titles]. The line printed at the end
    leaves no trace in the result; its two sums are kept because
    [len()] can raise. *)
Definition filter_new_titles (new_titles id_to_name : value) : result value :=
  if truthy new_titles && truthy id_to_name then
    filtered <-
      match matches_word_groups_func, load_frequency_words_func with
      | Some matches, Some load =>
          rb <- load ;;
          sources <- py_items new_titles ;;
          d <- foldM (filter_source matches rb) sources [] ;;
          Ok (VDict d)
      | _, _ => Ok new_titles
      end ;;
    _ <- count_titles new_titles ;;
    _ <- count_titles filtered ;;
    Ok filtered
  else Ok (VDict []).

(** Lines 189-205, one turn. *)
Definition new_title_entry (source_name rank_threshold : value)
  (tv : str * value) : result value :=
  let '(title, title_data) := tv in
  url <- py_get title_data k_url (VStr []) ;;
  mobile_url <- py_get title_data k_mobileUrl (VStr []) ;;
  ranks <- py_get title_data k_ranks (VList []) ;;
  Ok (VDict [ (k_title, VStr title);
              (k_source_name, source_name);
              (k_time_display, VStr []);
              (k_count, VInt 1);
              (k_ranks, ranks);
              (k_rank_threshold, rank_threshold);
              (k_url, url);
              (k_mobile_url, mobile_url);
              (k_is_new, VBool true) ]).

(** Lines 185-214, one turn. *)
Definition new_source_entry (id_to_name rank_threshold : value)
  (kv : str * value) : result (list value) :=
  let '(source_id, titles_data) := kv in
  source_name <- py_get id_to_name source_id (VStr source_id) ;;
  items <- py_items titles_data ;;
  source_titles <- mapM (new_title_entry source_name rank_threshold) items ;;
  Ok (if is_nil source_titles then []
      else [ VDict [ (k_source_id, VStr source_id);
                     (k_source_name, source_name);
                     (k_titles, VList source_titles) ] ]).

Definition process_new_titles
  (new_titles id_to_name : value) (mode : str) (rank_threshold : value)
  : result (list value) :=
  if str_eqb mode (utf8 "incremental") then Ok []
  else
    filtered_new_titles <- filter_new_titles new_titles id_to_name ;;
    if truthy filtered_new_titles && truthy id_to_name then
      sources <- py_items filtered_new_titles ;;
      groups <- mapM (new_source_entry id_to_name rank_threshold) sources ;;
      Ok (concat groups)
    else Ok [].

(** ** The final pass over [stats] (lines 216-243) *)

(** Lines 223-233. *)
Definition process_title (title_data : value) : result value :=
  title <- py_getitem title_data k_title ;;
  source_name <- py_getitem title_data k_source_name ;;
  time_display <- py_getitem title_data k_time_display ;;
  count <- py_getitem title_data k_count ;;
  ranks <- py_getitem title_data k_ranks ;;
  rank_threshold <- py_getitem title_data k_rank_threshold ;;
  url <- py_get title_data k_url (VStr []) ;;
  canonical <- py_get title_data k_mobile_url VNone ;;
  mobile_url <- (if truthy canonical then Ok canonical
                 else py_get title_data k_mobileUrl (VStr [])) ;;
  is_new <- py_get title_data k_is_new (VBool false) ;;
  Ok (VDict [ (k_title, title);
              (k_source_name, source_name);
              (k_time_display, time_display);
              (k_count, count);
              (k_ranks, ranks);
              (k_rank_threshold, rank_threshold);
              (k_url, url);
              (k_mobile_url, mobile_url);
              (k_is_new, is_new) ]).

(** Lines 217-243, one turn: nothing or one entry. *)
Definition process_stat (stat : value) : result (list value) :=
  count <- py_getitem stat k_count ;;
  nonpositive <- py_le_int count 0 ;;
  if nonpositive then Ok []
  else
    titles <- py_getitem stat k_titles ;;
    title_list <- py_iter titles ;;
    processed_titles <- mapM process_title title_list ;;
    word <- py_getitem stat k_word ;;
    count <- py_getitem stat k_count ;;
    percentage <- py_get stat k_percentage (VInt 0) ;;
    Ok [ VDict [ (k_word, word);
                 (k_count, count);
                 (k_percentage, percentage);
                 (k_titles, VList processed_titles) ] ].

Definition process_stats (stats : option (list value)) : result (list value) :=
  match stats with
  | None => Raise TypeError
  | Some stats => groups <- mapM process_stat stats ;; Ok (concat groups)
  end.

(** ** prepare_report_data *)

(** [sum(len(source["titles"]) for source in processed_new_titles)] *)
Definition total_new_count (processed_new_titles : list value) : result Z :=
  lens <- mapM (fun source => t <- py_getitem source k_titles ;; py_len t)
               processed_new_titles ;;
  Ok (fold_left Z.add lens 0).

Definition prepare_report_data
  (stats : option (list value))
  (failed_ids : option (list value))
  (new_titles id_to_name : value)
  (mode : str)
  (rank_threshold : value)
  (rss_stats rss_new_stats : option (list value))
  : result payload :=
  let rss_stats := or_nil rss_stats in
  let rss_new_stats := or_nil rss_new_stats in
  personal_rss_stats <- filterM is_personal rss_stats ;;
  rss_keyword_stats <- filterM is_keyword rss_stats ;;
  _ <- filterM is_personal rss_new_stats ;;
  _ <- filterM is_keyword rss_new_stats ;;
  stats <- (if is_nil rss_keyword_stats then Ok stats
            else s <- merge_stats (or_nil stats) rss_keyword_stats ;;
                 Ok (Some s)) ;;
  personal_feed_stats <- (if is_nil personal_rss_stats then Ok []
                          else regroup_personal personal_rss_stats) ;;
  processed_new_titles <-
    process_new_titles new_titles id_to_name mode rank_threshold ;;
  processed_stats <- process_stats stats ;;
  total <- total_new_count processed_new_titles ;;
  Ok {| p_stats := processed_stats;
        p_new_titles := processed_new_titles;
        p_rss_stats := personal_feed_stats;
        p_rss_new_stats := [];
        p_failed_ids := or_nil failed_ids;
        p_total_new_count := total |}.

End Injected.
End WithRuntime.

(** ** The specification's wording *)

(** The [word] of a stat entry ([None] when it has none). *)
Definition word_of (x : value) : value :=
  match x with
  | VDict d => dict_get d k_word VNone
  | _ => VNone
  end.

(** "whose word field is missing, empty, or otherwise falsy" *)
Definition falsy_word (x : value) : bool :=
  match x with
  | VDict d => negb (truthy (dict_get d k_word VNone))
  | _ => false
  end.

(** The count of an entry as an integer: an absent or falsy count reads
    as 0. [None]: a count that is neither an integer nor falsy. *)
Definition count_value (d : dict) : option Z :=
  match dict_lookup k_count d with
  | None => Some 0
  | Some (VInt z) => Some z
  | Some v => if truthy v then None else Some 0
  end.

(** The titles of an entry: an absent or falsy field reads as no titles. *)
Definition titles_value (d : dict) : option (list value) :=
  match dict_lookup k_titles d with
  | None => Some []
  | Some (VList l) => Some l
  | Some v => if truthy v then None else Some []
  end.

(** "position ... (a missing position defaulting to 999)" *)
Definition position_value (d : dict) : option Z :=
  match dict_lookup k_position d with
  | None => Some 999
  | Some (VInt z) => Some z
  | Some _ => None
  end.

(** No entry of the list has the word [w]. *)
Definition no_word (w : str) (l : list value) : Prop :=
  Forall (fun x => word_of x <> VStr w) l.

(** An entry with an integer (or absent, or falsy) count and an absent
    or non-zero integer position. *)
Definition rankable (d : dict) : Prop :=
  (exists c, count_value d = Some c)
  /\ (exists p, position_value d = Some p /\ p <> 0).

Definition rankable_input (x : value) : Prop :=
  forall d, x = VDict d -> rankable d.

(** "descending count with ties broken by ascending position": [a] may
    stand before [b]. *)
Definition ranked_before (a b : dict) : Prop :=
  exists ca pa cb pb,
    count_value a = Some ca /\ position_value a = Some pa
    /\ count_value b = Some cb /\ position_value b = Some pb
    /\ (cb < ca \/ (ca = cb /\ pa <= pb)).

(** The entries with count [c] and position [p]. *)
Definition has_rank (c p : Z) (d : dict) : bool :=
  match count_value d, position_value d with
  | Some c', Some p' => (c' =? c) && (p' =? p)
  | _, _ => false
  end.

(** The key by which a rankable entry is sorted: count descending, then
    position ascending. *)
Definition rank_key (d : dict) : Z * Z :=
  (- match count_value d with Some c => c | None => 0 end,
   match position_value d with Some p => p | None => 999 end).

(** "count strictly greater than 0" for a number. *)
Definition positive (c : value) : Prop :=
  match as_number c with
  | Some n => num_compare n (NInt 0) = Some Gt
  | None => False
  end.

(** The mobile URL the sanitation pass is to give a title: the canonical
    field when it is present and truthy, else the legacy field, else the
    empty string. *)
Definition mobile_url_of (d : dict) : value :=
  match dict_lookup k_mobile_url d with
  | Some u => if truthy u then u else dict_get d k_mobileUrl (VStr [])
  | None => dict_get d k_mobileUrl (VStr [])
  end.

(** *** Personal feeds *)

(** A title entry of the data model, as far as regrouping reads it:
    [source_name] a string, [ranks] a list of integers, either of them
    possibly absent or [None]. *)
Definition is_int (v : value) : bool :=
  match v with VInt _ => true | _ => false end.

Definition title_ok (d : dict) : bool :=
  match dict_lookup k_source_name d with
  | None | Some VNone | Some (VStr _) => true
  | Some _ => false
  end
  && match dict_lookup k_ranks d with
     | None | Some VNone => true
     | Some (VList rs) => forallb is_int rs
     | Some _ => false
     end.

(** A personal stat entry: a dict whose titles are a list of title
    entries (or absent, or [None]). *)
Definition titles_in (x : value) : option (list dict) :=
  match x with
  | VDict d =>
      match dict_lookup k_titles d with
      | None | Some VNone => Some []
      | Some (VList l) =>
          if forallb (fun t => match t with
                               | VDict td => title_ok td
                               | _ => false
                               end) l
          then Some (flat_map (fun t => match t with
                                        | VDict td => [td]
                                        | _ => []
                                        end) l)
          else None
      | Some _ => None
      end
  | _ => None
  end.

(** "bucketed by source_name (blank source_name bucketed as "RSS")" *)
Definition feed_name (d : dict) : str :=
  match dict_lookup k_source_name d with
  | Some (VStr (c :: s)) => c :: s
  | _ => utf8 "RSS"
  end.

Definition int_of (v : value) : Z :=
  match v with VInt z => z | _ => 0 end.

(** "the minimum of their ranks (missing/empty ranks treated as 999)" *)
Definition min_rank (d : dict) : Z :=
  match dict_lookup k_ranks d with
  | Some (VList (r :: rs)) => fold_left Z.min (map int_of rs) (int_of r)
  | _ => 999
  end.

(** The display copy of a title: [source_name] and [ranks] cleared. *)
Definition cleaned (d : dict) : dict :=
  dict_set k_ranks (VList []) (dict_set k_source_name (VStr []) d).

(** A bucket: the feed name and its items (sorted, not yet cleaned). *)
Definition bucket := (str * list dict)%type.

(** "latest_rank is the min-rank key of the bucket's first sorted item" *)
Definition latest_rank (b : bucket) : Z :=
  match snd b with
  | first :: _ => min_rank first
  | [] => 999
  end.

(** "(latest_rank ascending, item count descending, feed name
    ascending)": [a] may stand before [b]. *)
Definition bucket_before (a b : bucket) : Prop :=
  latest_rank a < latest_rank b
  \/ (latest_rank a = latest_rank b
      /\ (len (snd b) < len (snd a)
          \/ (len (snd a) = len (snd b)
              /\ str_ltb (fst b) (fst a) = false))).

(** The same order as a test. *)
Definition bucket_ltb (a b : bucket) : bool :=
  if negb (latest_rank a =? latest_rank b)
  then latest_rank a <? latest_rank b
  else if negb (- len (snd a) =? - len (snd b))
  then - len (snd a) <? - len (snd b)
  else if str_eqb (fst a) (fst b) then false
  else str_ltb (fst a) (fst b).

(** [titles_by_feed] with typed keys and items: adding one title. *)
Fixpoint bucket_add (name : str) (d : dict) (bs : list bucket) : list bucket :=
  match bs with
  | [] => [(name, [d])]
  | (n, items) :: bs' =>
      if str_eqb n name then (n, items ++ [d]) :: bs'
      else (n, items) :: bucket_add name d bs'
  end.

(** A bucket as [titles_by_feed] holds it, and as a feed summary. *)
Definition bucket_feed (b : bucket) : value * list value :=
  (VStr (fst b), map VDict (snd b)).

Definition bucket_summary (b : bucket) : summary :=
  (VStr (fst b), map (fun d => VDict (cleaned d)) (snd b), latest_rank b).

(** The titles of one feed. *)
Definition in_feed (name : str) (d : dict) : bool :=
  str_eqb (feed_name d) name.

(** [bs] groups the titles [ts] by feed: one bucket for each feed name
    that occurs, holding the titles of that feed in their order. *)
Definition grouped (ts : list dict) (bs : list bucket) : Prop :=
  NoDup (map fst bs)
  /\ (forall n items, In (n, items) bs ->
                      items <> [] /\ items = filter (in_feed n) ts)
  /\ (forall d, In d ts -> In (feed_name d) (map fst bs)).

(** The entry emitted for the bucket at ordinal [pos]. *)
Definition bucket_entry (pos : Z) (b : bucket) : value :=
  VDict [ (k_word, VStr (fst b));
          (k_count, VInt (len (snd b)));
          (k_position, VInt pos);
          (k_titles, VList (map (fun d => VDict (cleaned d)) (snd b)));
          (k_percentage, VInt 0) ].

End Generator.

(* ===================================================================== *)
(** * Sample data *)
(* ===================================================================== *)

Module Samples.
Import Py Frequency Generator.

Definition ai_group : word_group :=
  {| required := Some []; normal := Some [utf8 "AI"];
     group_key := utf8 "AI"; max_count := 0 |}.

(** A rulebook file: a global filter section (tag in lower case), a
    group with several [@] lines, and a block opened by an unknown tag. *)
Definition rulebook_text : str :=
  Eval vm_compute in
    str_join [10]
      [ utf8 "[global_filter]"; utf8 "广告"; utf8 "!x"; [];
        utf8 "[WORD_GROUPS]"; utf8 "+芯片"; utf8 "AI"; utf8 "!招聘";
        utf8 "@5"; utf8 "@0"; utf8 "@7"; utf8 "@abc"; utf8 "@-3"; [];
        utf8 "[other]"; utf8 "GPU" ].

(** A stat entry without titles. *)
Definition stat (word : str) (count : value) (more : dict) : value :=
  VDict ([(k_word, VStr word); (k_count, count); (k_titles, VList [])]
         ++ more).

(** The entries of the ordering example: A and B with count 5, B at
    position 1, C with count 7. *)
Definition entry_A : value := stat (utf8 "A") (VInt 5) [].
Definition entry_B : value := stat (utf8 "B") (VInt 5) [(k_position, VInt 1)].
Definition entry_C : value := stat (utf8 "C") (VInt 7) [].

(** A at position 0. *)
Definition entry_A0 : value :=
  stat (utf8 "A") (VInt 5) [(k_position, VInt 0)].

(** A title entry with all the fields the final pass requires. *)
Definition title_dict (text source : str) (ranks : list Z) : dict :=
  [(k_title, VStr text); (k_source_name, VStr source);
   (k_time_display, VStr []); (k_count, VInt 1);
   (k_ranks, VList (map VInt ranks)); (k_rank_threshold, VInt 3)].

Definition title (text source : str) (ranks : list Z) : value :=
  VDict (title_dict text source ranks).

(** The merge example: hot-list count 3 and RSS count 2 under one word. *)
Definition chip : str := Eval vm_compute in utf8 "芯片".
Definition chip_hot : dict :=
  [(k_word, VStr chip); (k_count, VInt 3);
   (k_titles, VList [title (utf8 "h1") (utf8 "hot") [1];
                     title (utf8 "h2") (utf8 "hot") [2]]);
   (k_position, VInt 4)].
Definition chip_rss : dict :=
  [(k_word, VStr chip); (k_count, VInt 2);
   (k_titles, VList [title (utf8 "r1") (utf8 "feed") [3]])].
Definition other_rss : dict :=
  [(k_word, VStr (utf8 "GPU")); (k_count, VInt 1); (k_titles, VList [])].

(** A count that is not a number. *)
Definition chip_bad_count : dict :=
  [(k_word, VStr chip); (k_count, VStr (utf8 "abc")); (k_titles, VList [])].

(** A title with an empty canonical mobile URL and a legacy one. *)
Definition title_two_urls : dict :=
  [(k_title, VStr (utf8 "t")); (k_source_name, VStr (utf8 "s"));
   (k_time_display, VStr []); (k_count, VInt 1); (k_ranks, VList []);
   (k_rank_threshold, VInt 3);
   (k_mobile_url, VStr []); (k_mobileUrl, VStr (utf8 "https://m.example"))].

(** The personal-feed example: Feed1 with items ranked 5 and 2 (in that
    order of arrival), Feed2 with one item ranked 1. *)
Definition feed1_rank5 : dict := title_dict (utf8 "a") (utf8 "Feed1") [5].
Definition feed2_rank1 : dict := title_dict (utf8 "b") (utf8 "Feed2") [1].
Definition feed1_rank2 : dict := title_dict (utf8 "c") (utf8 "Feed1") [2].

Definition personal_stat : value :=
  VDict [(k_word, VStr PERSONAL_RSS_GROUP_KEY); (k_count, VInt 3);
         (k_titles, VList [VDict feed1_rank5; VDict feed2_rank1;
                           VDict feed1_rank2])].

(** *** Runs on the ASCII runtime *)

Definition or_else {A} (r : result A) (default : A) : A :=
  match r with Ok a => a | Raise _ => default end.

(** The merge example with one more keyword entry in front. *)
Definition chip_merged : list value :=
  Eval vm_compute in
    or_else (merge_stats (RT := ascii_runtime)
               [VDict chip_hot] [VDict other_rss; VDict chip_rss]) [].

Definition abc_merged : list value :=
  Eval vm_compute in
    or_else (merge_stats (RT := ascii_runtime)
               [entry_A; entry_B] [entry_C]) [].

(** A report over one entry with a positive count and one with count 0
    that has a title. *)
Definition zero_count_entry : value :=
  VDict [(k_word, VStr (utf8 "Z")); (k_count, VInt 0);
         (k_titles, VList [VDict title_two_urls])].

Definition two_url_entry : value :=
  VDict [(k_word, VStr (utf8 "U")); (k_count, VInt 1);
         (k_titles, VList [VDict title_two_urls])].

Definition empty_payload : payload :=
  {| p_stats := []; p_new_titles := []; p_rss_stats := [];
     p_rss_new_stats := []; p_failed_ids := []; p_total_new_count := 0 |}.

Definition plain_report : payload :=
  Eval vm_compute in
    or_else (prepare_report_data (RT := ascii_runtime) (rulebook := unit)
               None None (Some [entry_A; zero_count_entry; two_url_entry])
               None VNone VNone (utf8 "daily") (VInt 3) None None)
            empty_payload.

(** A primary entry with an empty word and a positive count. *)
Definition wordless_entry : value := stat [] (VInt 9) [].

Definition merged_report : payload :=
  Eval vm_compute in
    or_else (prepare_report_data (RT := ascii_runtime) (rulebook := unit)
               None None (Some [wordless_entry; entry_B])
               None VNone VNone (utf8 "daily") (VInt 3)
               (Some [entry_C]) None)
            empty_payload.

Definition final_pass_out : list value :=
  Eval vm_compute in
    or_else (process_stats (Some [zero_count_entry; two_url_entry])) [].

End Samples.

(* ===================================================================== *)
(** * trendradar/report/generator.py: generate_html_report *)
(* ===================================================================== *)

Module Report.
Import Py Generator.
Local Open Scope py_scope.

(** [pathlib] as far as the function uses it: building a path from a
    string, joining a string to a path with [/], and the string form of
    a path (what [str(p)] gives and what [open(p)] is handed). How paths
    are normalised is the library's business and is left open. *)
Class Pathlib := {
  path : Type;
  Path : str -> path;
  joinpath : path -> str -> path;
  fspath : path -> str
}.

(** The three file names of a daily summary (lines 305-311). *)
Definition current_summary_html : str :=
  Eval vm_compute in utf8 "当前榜单汇总.html".
Definition incremental_summary_html : str :=
  Eval vm_compute in utf8 "当日增量.html".
Definition daily_summary_html : str :=
  Eval vm_compute in utf8 "当日汇总.html".

(** Lines 305-313. *)
Definition report_filename
  (is_daily_summary : bool) (mode time_filename : str) : str :=
  if is_daily_summary then
    if str_eqb mode (utf8 "current") then current_summary_html
    else if str_eqb mode (utf8 "incremental") then incremental_summary_html
    else daily_summary_html
  else time_filename ++ utf8 ".html".

(** The calls that the function makes on the file system:
    [p.mkdir(parents=True, exist_ok=True)], and the three steps of
    [with open(target, "w", encoding="utf-8") as f: f.write(content)]. *)
Inductive fs_call {PL : Pathlib} :=
| Mkdir (p : path)
| Open (target : str)
| WriteText (target content : str)
| Close (target : str).

(** The host decides which call raises, knowing the calls made so far.
    [os_exn] stands for what it raises (OSError and the like). *)
Class Host {PL : Pathlib} := {
  os_exn : Type;
  refuses : list fs_call -> fs_call -> option os_exn
}.

Inductive raised {PL : Pathlib} {H : Host} :=
| FromData (e : exn)
| FromHost (e : os_exn).

Inductive outcome {PL : Pathlib} {H : Host} (A : Type) :=
| Returns (a : A)
| Raises (r : raised).
Arguments Returns {PL H A} a.
Arguments Raises {PL H A} r.

Section OnHost.
Context {RT : Runtime} {PL : Pathlib} {H : Host}.

(** A computation reads the log of the calls made so far and extends it
    with the calls that went through. (What [prepare_report_data] prints
    goes to the standard output and is no such call.) *)
Definition io (A : Type) : Type := list fs_call -> outcome A * list fs_call.

Definition ret {A} (a : A) : io A := fun log => (Returns a, log).

Definition io_bind {A B} (c : io A) (k : A -> io B) : io B :=
  fun log =>
    match c log with
    | (Returns a, log') => k a log'
    | (Raises r, log') => (Raises r, log')
    end.

(** A computation of [prepare_report_data]'s kind, without calls. *)
Definition pure {A} (c : result A) : io A :=
  fun log =>
    match c with
    | Ok a => (Returns a, log)
    | Raise e => (Raises (FromData e), log)
    end.

(** One call: it raises, or it goes through and is logged. *)
Definition call (c : fs_call) : io unit :=
  fun log =>
    match refuses log c with
    | Some e => (Raises (FromHost e), log)
    | None => (Returns tt, log ++ [c])
    end.

(** [with open(target, "w", encoding="utf-8") as f: f.write(content)]:
    once the file is open it is closed on the way out, also when the
    write raises; what the close raises wins. *)
Definition write_file (target content : str) : io unit :=
  io_bind (call (Open target)) (fun _ log =>
    match call (WriteText target content) log with
    | (Returns _, log') => call (Close target) log'
    | (Raises r, log') =>
        match call (Close target) log' with
        | (Returns _, log'') => (Raises r, log'')
        | (Raises r', log'') => (Raises r', log'')
        end
    end).

Section Injected.
Context {rulebook : Type}.
Variable render_html_func
  : option (payload -> value -> bool -> str -> value -> result str).
Variable matches_word_groups_func : option (str -> rulebook -> result value).
Variable load_frequency_words_func : option (result rulebook).

(** [f"{report_data}"]: the text of the payload dict. *)
Variable format_payload : payload -> str.

(** Lines 335-341. *)
Definition render (report_data : payload) (total_titles : value)
  (is_daily_summary : bool) (mode : str) (update_info : value) : result str :=
  match render_html_func with
  | Some f => f report_data total_titles is_daily_summary mode update_info
  | None =>
      Ok (utf8 "<html><body><h1>Report</h1><pre>"
          ++ format_payload report_data
          ++ utf8 "</pre></body></html>")
  end.

(** Lines 347-358. *)
Definition copy_to_index (output_dir html_content : str) : io unit :=
  let root_index_path := Path (utf8 "index.html") in
  io_bind (write_file (fspath root_index_path) html_content) (fun _ =>
  let output_index_path := joinpath (Path output_dir) (utf8 "index.html") in
  io_bind (call (Mkdir (Path output_dir))) (fun _ =>
  write_file (fspath output_index_path) html_content)).

Definition generate_html_report
  (stats : option (list value)) (total_titles : value)
  (failed_ids : option (list value)) (new_titles id_to_name : value)
  (mode : str) (is_daily_summary : bool) (update_info : value)
  (rank_threshold : value) (output_dir date_folder time_filename : str)
  (enable_index_copy : bool) (rss_stats rss_new_stats : option (list value))
  : io str :=
  let filename := report_filename is_daily_summary mode time_filename in
  let output_path :=
    joinpath (joinpath (Path output_dir) date_folder) (utf8 "html") in
  io_bind (call (Mkdir output_path)) (fun _ =>
  let file_path := fspath (joinpath output_path filename) in
  io_bind (pure (prepare_report_data matches_word_groups_func
                   load_frequency_words_func stats failed_ids new_titles
                   id_to_name mode rank_threshold rss_stats rss_new_stats))
          (fun report_data =>
  io_bind (pure (render report_data total_titles is_daily_summary mode
                   update_info))
          (fun html_content =>
  io_bind (write_file file_path html_content) (fun _ =>
  io_bind (if is_daily_summary && enable_index_copy
           then copy_to_index output_dir html_content
           else ret tt) (fun _ =>
  ret file_path))))).

End Injected.

(** ** Notions for the statements *)

(** The html directory of a report. *)
Definition html_dir (output_dir date_folder : str) : path :=
  joinpath (joinpath (Path output_dir) date_folder) (utf8 "html").

(** The report file: the file name of the mode under the html
    directory, as a string (line 318). *)
Definition report_file (output_dir date_folder : str)
  (is_daily_summary : bool) (mode time_filename : str) : str :=
  fspath (joinpath (html_dir output_dir date_folder)
            (report_filename is_daily_summary mode time_filename)).

(** The two index files, and the calls that copy a report to them. *)
Definition root_index : str := fspath (Path (utf8 "index.html")).

Definition output_index (output_dir : str) : str :=
  fspath (joinpath (Path output_dir) (utf8 "index.html")).

Definition index_copies (output_dir html_content : str) : list fs_call :=
  [ Open root_index; WriteText root_index html_content; Close root_index;
    Mkdir (Path output_dir);
    Open (output_index output_dir);
    WriteText (output_index output_dir) html_content;
    Close (output_index output_dir) ].

(** What a call may touch: the directories [dirs], the files [targets],
    and only to put [content] there. *)
Definition touches (dirs : list path) (targets : list str) (content : str)
  (c : fs_call) : Prop :=
  match c with
  | Mkdir p => In p dirs
  | Open t | Close t => In t targets
  | WriteText t x => In t targets /\ x = content
  end.

End OnHost.

End Report.

(* ===================================================================== *)
(** * Notions for the loader and the matcher *)
(* ===================================================================== *)

Module FrequencyTerms.
Import Py Frequency.

(** A line as the loader keeps it: not empty, free of line breaks and of
    whitespace at either end. *)
Definition clean_line (w : str) : Prop :=
  w <> [] /\ ~ In 10 w /\ str_strip w = w.

(** A clean line without one of the prefixes [!], [+], [@]. *)
Definition plain_line (w : str) : Prop :=
  clean_line w
  /\ starts_with (utf8 "!") w = false
  /\ starts_with (utf8 "+") w = false
  /\ starts_with (utf8 "@") w = false.

(** A group as the loader emits it: both lists present, one of them
    not empty, the normal words plain lines, the key the normal words
    joined by blanks (the required words when there is no normal word),
    the limit not negative. *)
Definition well_formed_group (g : word_group) : Prop :=
  exists req nor,
    required g = Some req /\ normal g = Some nor
    /\ (req <> [] \/ nor <> [])
    /\ Forall plain_line nor
    /\ Forall (fun w => ~ In 10 w) req
    /\ group_key g
       = str_join (utf8 " ") (match nor with [] => req | _ :: _ => nor end)
    /\ 0 <= max_count g.

(** The test of the global filter section on a line (lines 85-88). *)
Definition kept_as_global_filter (line : str) : bool :=
  negb (starts_with (utf8 "!") line || starts_with (utf8 "+") line
        || starts_with (utf8 "@") line)
  && negb (str_is_empty line).

Section WithRuntime.
Context {RT : Runtime}.

(** The blocks of a rulebook text, each as its list of lines. *)
Definition blocks_of (content : str) : list (list str) :=
  map (stripped_pieces [10]) (stripped_pieces [10; 10] content).

(** What the scan of a block keeps true of its accumulators, and the
    loop over blocks of its state. *)
Definition scan_ok (g : group_scan) : Prop :=
  Forall plain_line (group_normal_words g)
  /\ Forall (fun w => ~ In 10 w) (group_required_words g)
  /\ 0 <= group_max_count g.

Definition loader_ok (st : loader) : Prop :=
  Forall well_formed_group (processed_groups st)
  /\ Forall plain_line (global_filters st).

(** The group that one block of lines yields, if any. *)
Definition block_group (lines : list str) : list word_group :=
  emit_group (snd (scan_words [] lines)).

(** A line that gives its group a word: one that opens with neither
    [@] nor [!] (lines 100-114). *)
Definition gives_word (word : str) : bool :=
  negb (starts_with (utf8 "@") word || starts_with (utf8 "!") word).

(** The limit of the group of a block: the count of its last valid [@]
    line, 0 when it has none; a block where no line gives a word has no
    group, and so no limit. *)
Definition block_max_count (words : list str) : list Z :=
  if existsb gives_word words then [last (valid_counts words) 0] else [].

(** The blocks that are read as word groups, without their tag line:
    those met while the section is [WORD_GROUPS], [cur] being the
    section before the first block. *)
Fixpoint scanned_blocks (cur : section_name) (blocks : list (list str))
  : list (list str) :=
  match blocks with
  | [] => []
  | lines :: blocks' =>
      let switched := section_switch cur lines in
      match fst switched with
      | WORD_GROUPS => snd switched :: scanned_blocks WORD_GROUPS blocks'
      | GLOBAL_FILTER => scanned_blocks GLOBAL_FILTER blocks'
      end
  end.

End WithRuntime.

(** The filter words of one block: its [!] lines without the mark. *)
Definition block_filter_words (lines : list str) : list str :=
  map (@tl codepoint) (filter (starts_with (utf8 "!")) lines).

(** Two strings that differ at most in the case of ASCII letters. *)
Definition same_up_to_ascii_case (a b : str) : Prop :=
  map ascii_lower a = map ascii_lower b.

(** A block that does not open with a bracket. *)
Definition untagged (lines : list str) : Prop :=
  forall first rest,
    lines = first :: rest -> starts_with (utf8 "[") first = false.

End FrequencyTerms.

(* ===================================================================== *)
(** * Notions for the payload *)
(* ===================================================================== *)

Module GeneratorTerms.
Import Py Generator.

(** "blank source_name bucketed as "RSS"", blank as the matcher takes
    a blank title: nothing is left of it after [strip]. *)
Definition blank_as_RSS (d : dict) : str :=
  match dict_lookup k_source_name d with
  | Some (VStr s) => if str_is_empty (str_strip s) then utf8 "RSS" else s
  | _ => utf8 "RSS"
  end.

(** The entries of [rss_stats] filed under the personal-feed key. *)
Definition personal_word (x : value) : bool :=
  eq_str (word_of x) PERSONAL_RSS_GROUP_KEY.

(** The count test of the final pass (line 218): the entry is kept. *)
Definition kept_by_final_pass (x : value) : bool :=
  match py_getitem x k_count with
  | Ok c => match py_le_int c 0 with Ok false => true | _ => false end
  | Raise _ => false
  end.

(** The field [k] of an entry, when the entry is a dict that has it. *)
Definition entry_field (k : str) (x : value) : option value :=
  match x with
  | VDict d => dict_lookup k d
  | _ => None
  end.

Definition has_field (k : str) (x : value) : Prop :=
  exists v, entry_field k x = Some v.

(** A title entry with the six fields that the final pass reads by
    subscript (lines 224-229). *)
Definition complete_title (t : value) : Prop :=
  has_field k_title t /\ has_field k_source_name t
  /\ has_field k_time_display t /\ has_field k_count t
  /\ has_field k_ranks t /\ has_field k_rank_threshold t.

(** The keys of the dicts that the payload is made of, in order. *)
Definition stat_keys : list str := [k_word; k_count; k_percentage; k_titles].

Definition title_keys : list str :=
  [k_title; k_source_name; k_time_display; k_count; k_ranks;
   k_rank_threshold; k_url; k_mobile_url; k_is_new].

Definition source_keys : list str := [k_source_id; k_source_name; k_titles].

(** A dict with exactly the keys [keys], in this order. *)
Definition has_keys (keys : list str) (x : value) : Prop :=
  exists d, x = VDict d /\ map fst d = keys.

(** An entry with the keys [keys] whose titles are a list of dicts with
    the keys of a title. *)
Definition entry_of_titles (keys : list str) (e : value) : Prop :=
  has_keys keys e
  /\ exists ts, entry_field k_titles e = Some (VList ts)
                /\ Forall (has_keys title_keys) ts.

(** The count of an entry when it is an integer, and the sum of the
    counts of a list of entries. *)
Definition counted (e : value) : Z :=
  match entry_field k_count e with
  | Some (VInt z) => z
  | _ => 0
  end.

Definition sum (l : list Z) : Z := fold_right Z.add 0 l.

Definition total_count (l : list value) : Z := sum (map counted l).

(** The number of titles filed in [titles_by_feed], and in the feed
    summaries. *)
Definition items_total (d : kdict (list value)) : Z :=
  sum (map (fun kv => len (snd kv)) d).

Definition summaries_total (l : list summary) : Z :=
  sum (map (fun s : summary => len (snd (fst s))) l).

(** An entry whose count is the number of its titles. *)
Definition counts_its_titles (e : value) : Prop :=
  exists ts, entry_field k_titles e = Some (VList ts)
             /\ entry_field k_count e = Some (VInt (len ts)).

(** An entry that the merge can count: a dict under a non-empty string
    word, with an integer count (or none, or a falsy one) and a list of
    titles (or none). *)
Definition readable (d : dict) : Prop :=
  (exists c, count_value d = Some c) /\ (exists ts, titles_value d = Some ts).

Definition countable (x : value) : Prop :=
  exists d w,
    x = VDict d /\ dict_lookup k_word d = Some (VStr w) /\ w <> []
    /\ readable d.

Definition count_or_zero (d : dict) : Z :=
  match count_value d with Some c => c | None => 0 end.

Definition titles_number (d : dict) : Z :=
  match titles_value d with Some ts => len ts | None => 0 end.

(** A measure of dicts summed over a list of entries, and over the
    entries of [merged_by_word]. *)
Definition measured (mu : dict -> Z) (x : value) : Z :=
  match x with VDict d => mu d | _ => 0 end.

Definition sum_over (mu : dict -> Z) (l : list value) : Z :=
  sum (map (measured mu) l).

Definition sum_filed (mu : dict -> Z) (m : merged_map) : Z :=
  sum (map (fun kv => mu (snd kv)) m).

(** *** The new-titles argument as typed data

    [new_titles] maps a source id to the titles of the source, and a
    title to its data, a dict. *)
Definition title_table := list (str * dict).
Definition source_table := list (str * title_table).

Definition title_item (tv : str * dict) : str * value :=
  (fst tv, VDict (snd tv)).

Definition source_item (src : str * title_table) : str * value :=
  (fst src, VDict (map title_item (snd src))).

Definition new_titles_value (srcs : source_table) : value :=
  VDict (map source_item srcs).

(** The sources with the titles that pass, the sources left without a
    title dropped. *)
Definition passing (accept : str -> bool) (srcs : source_table)
  : source_table :=
  filter (fun src => negb (is_nil (snd src)))
    (map (fun src => (fst src, filter (fun tv => accept (fst tv)) (snd src)))
       srcs).

(** The entry that shows a new title, and a source with its titles. *)
Definition shows_title (source_name rank_threshold : value)
  (tv : str * dict) (t : value) : Prop :=
  t = VDict [ (k_title, VStr (fst tv));
              (k_source_name, source_name);
              (k_time_display, VStr []);
              (k_count, VInt 1);
              (k_ranks, dict_get (snd tv) k_ranks (VList []));
              (k_rank_threshold, rank_threshold);
              (k_url, dict_get (snd tv) k_url (VStr []));
              (k_mobile_url, dict_get (snd tv) k_mobileUrl (VStr []));
              (k_is_new, VBool true) ].

Definition shows_source (names : dict) (rank_threshold : value)
  (src : str * title_table) (e : value) : Prop :=
  let source_name := dict_get names (fst src) (VStr (fst src)) in
  exists ts,
    e = VDict [ (k_source_id, VStr (fst src));
                (k_source_name, source_name);
                (k_titles, VList ts) ]
    /\ Forall2 (shows_title source_name rank_threshold) (snd src) ts.

(** What the injected matcher and loader answer: [accept] tells the
    titles that pass. Without both of them every title passes. *)
Definition filters_by {rulebook : Type}
  (matches : option (str -> rulebook -> result value))
  (load : option (result rulebook)) (accept : str -> bool) : Prop :=
  match matches, load with
  | Some m, Some l =>
      exists rb, l = Ok rb
                 /\ forall title, exists r, m title rb = Ok r
                                            /\ truthy r = accept title
  | _, _ => forall title, accept title = true
  end.

(** The title [t] that the final pass makes of [title_data]: the six
    fields read by subscript as they are, [url] and [is_new] with their
    defaults. *)
Definition required_title_keys : list str :=
  [k_title; k_source_name; k_time_display; k_count; k_ranks;
   k_rank_threshold].

Definition copied_title (title_data t : value) : Prop :=
  exists d,
    title_data = VDict d
    /\ Forall (fun k => entry_field k t = dict_lookup k d) required_title_keys
    /\ entry_field k_url t = Some (dict_get d k_url (VStr []))
    /\ entry_field k_is_new t = Some (dict_get d k_is_new (VBool false)).

(** The entry [e] that the final pass makes of [stat]. *)
Definition copied_stat (stat e : value) : Prop :=
  exists sd titles ts,
    stat = VDict sd
    /\ entry_field k_word e = dict_lookup k_word sd
    /\ entry_field k_count e = dict_lookup k_count sd
    /\ entry_field k_percentage e = Some (dict_get sd k_percentage (VInt 0))
    /\ bind (py_getitem stat k_titles) py_iter = Ok titles
    /\ entry_field k_titles e = Some (VList ts)
    /\ Forall2 copied_title titles ts.

(** Ranks without an infinite float among them. *)
Definition no_infinite_rank (ranks : value) : Prop :=
  forall l s, ranks = VList l -> ~ In (VFloat (S754_infinity s)) l.

(** An entry whose word, when it is truthy, is a string. *)
Definition string_word (x : value) : Prop :=
  forall d, x = VDict d ->
            truthy (dict_get d k_word VNone) = true ->
            exists w, dict_get d k_word VNone = VStr w.

(** [merged_by_word] files every entry under its own word, a string,
    and has no key twice. *)
Definition filed_by_word (m : merged_map) : Prop :=
  NoDup (map fst m)
  /\ Forall (fun kv => exists w,
                fst kv = VStr w
                /\ dict_lookup k_word (snd kv) = Some (VStr w)) m.

End GeneratorTerms.

(* ===================================================================== *)
(** * More sample data *)
(* ===================================================================== *)

Module Cases.
Import Py Frequency FrequencyTerms Generator GeneratorTerms Report Samples.

(** The group of the one word ["AI"] with the limit [n]. *)
Definition ai_group_limited (n : Z) : word_group :=
  {| required := Some []; normal := Some [utf8 "AI"];
     group_key := utf8 "AI"; max_count := n |}.

(** A personal-feed group of one title, and a title whose source name
    is two blanks. *)
Definition personal_stat_of (d : dict) : value :=
  VDict [(k_word, VStr PERSONAL_RSS_GROUP_KEY); (k_count, VInt 1);
         (k_titles, VList [VDict d])].

Definition spaces_title : dict := title_dict (utf8 "a") (utf8 "  ") [1].

(** [rulebook_text] as the loader reads it. *)
Definition loaded_rulebook : list word_group * list str * list str :=
  Eval vm_compute in
    or_else (load_frequency_words (RT := ascii_runtime) (Some rulebook_text))
            ([], [], []).

(** A rulebook of two blocks without tags. *)
Definition untagged_text : str :=
  Eval vm_compute in
    str_join [10]
      [ utf8 "AI"; utf8 "!x"; []; utf8 "+GPU"; utf8 "@3"; utf8 "!y" ].

(** A rulebook that opens the global filter section and never leaves
    it. *)
Definition global_only_text : str :=
  Eval vm_compute in
    str_join [10]
      [ utf8 "[GLOBAL_FILTER]"; utf8 "ad"; utf8 "!x"; [];
        utf8 "spam"; utf8 "+y" ].

(** The group of a block with a bare [+] line and the word [AI]. *)
Definition bare_plus_group : word_group :=
  {| required := Some [[]]; normal := Some [utf8 "AI"];
     group_key := utf8 "AI"; max_count := 0 |}.

(** A report over one hot-list entry, the personal feeds and one keyword
    RSS entry. *)
Definition mixed_report : payload :=
  Eval vm_compute in
    or_else (prepare_report_data (RT := ascii_runtime) (rulebook := unit)
               None None (Some [entry_B]) None VNone VNone (utf8 "daily")
               (VInt 3) (Some [personal_stat; entry_C]) None)
            empty_payload.

(** The merge of the chip entry of the hot list with an RSS entry under
    another word. *)
Definition chip_unmatched_merged : list value :=
  Eval vm_compute in
    or_else (merge_stats (RT := ascii_runtime)
               [VDict chip_hot] [VDict other_rss]) [].

(** The merge of the chip entries of the hot list and of the RSS. *)
Definition chip_merged_entry : dict :=
  Eval vm_compute in
    or_else (merge_into (RT := ascii_runtime) chip_hot (VDict chip_rss)) [].

(** New titles of two sources, the loader and the matcher of
    [Frequency] as the injected callables, and what the matcher accepts
    under [rulebook_text]. *)
Definition news_table : source_table :=
  [ (utf8 "weibo",
     [ (utf8 "GPU news",
        [(k_url, VStr (utf8 "u1")); (k_mobileUrl, VStr (utf8 "m1"));
         (k_ranks, VList [VInt 2])]);
       (utf8 "weather", []) ]);
    (utf8 "zhihu", [ (utf8 "rain", []) ]) ].

Definition news_names : dict := [(utf8 "weibo", VStr (utf8 "Weibo"))].

Definition rulebook_type : Type :=
  (list word_group * list str * list str)%type.

Definition injected_loader : result rulebook_type :=
  load_frequency_words (RT := ascii_runtime) (Some rulebook_text).

Definition news_accept (title : str) : bool :=
  matches_word_groups (RT := ascii_runtime) (TitleStr title)
    (fst (fst loaded_rulebook)) (snd (fst loaded_rulebook))
    (Some (snd loaded_rulebook)).

Definition injected_matcher (title : str) (rb : rulebook_type)
  : result value :=
  Ok (VBool (matches_word_groups (RT := ascii_runtime) (TitleStr title)
               (fst (fst rb)) (snd (fst rb)) (Some (snd rb)))).

(** A title whose ranks are a string and a number. *)
Definition odd_ranks_title : dict :=
  [(k_title, VStr (utf8 "t")); (k_ranks, VList [VStr (utf8 "x"); VInt 3])].

(** *** A run of generate_html_report *)

(** Paths as plain strings joined by a slash, and a host that lets every
    call through, for running examples. *)
Definition string_paths : Pathlib :=
  {| path := str;
     Path := fun s => s;
     joinpath := fun p s => p ++ utf8 "/" ++ s;
     fspath := fun p => p |}.

Definition willing_host : Host (PL := string_paths) :=
  {| os_exn := unit; refuses := fun _ _ => None |}.

(** A daily summary over [entry_A], with the default rendering and the
    index copies; and the same call without [stats]. *)
Definition daily_run (stats : option (list value))
  : io (H := willing_host) str :=
  generate_html_report (RT := ascii_runtime) (H := willing_host)
    (rulebook := unit) None None None (fun _ => utf8 "{}")
    stats (VInt 1) None VNone VNone (utf8 "daily") true VNone (VInt 3)
    (utf8 "output") (utf8 "2025-01-01") (utf8 "10-00") true None None.

Definition daily_log : list (fs_call (PL := string_paths)) :=
  Eval vm_compute in snd (daily_run (Some [entry_A]) []).

Definition daily_path : str :=
  Eval vm_compute in
    match fst (daily_run (Some [entry_A]) []) with
    | Returns p => p
    | Raises _ => []
    end.

End Cases.

(* ===================================================================== *)
(** * Facts about the runtime fragment *)
(* ===================================================================== *)

Module PyFacts.
Import Py.
Local Open Scope py_scope.

(** ** Strings *)

Lemma str_eqb_eq (a b : str) : str_eqb a b = true <-> a = b.
Proof.
  unfold str_eqb. destruct (list_eq_dec Z.eq_dec a b); split; congruence.
Qed.

Lemma str_eqb_refl (a : str) : str_eqb a a = true.
Proof. now apply str_eqb_eq. Qed.

Lemma str_eqb_neq (a b : str) : str_eqb a b = false <-> a <> b.
Proof.
  unfold str_eqb. destruct (list_eq_dec Z.eq_dec a b); split; congruence.
Qed.

Lemma is_nil_false {A} (l : list A) : is_nil l = false <-> l <> [].
Proof. destruct l; simpl; split; congruence. Qed.

Lemma forallb_lstrip (s : str) :
  forallb is_space (str_lstrip s) = forallb is_space s.
Proof.
  induction s as [|c s IH]; simpl; [reflexivity|].
  destruct (is_space c) eqn:E; simpl; [assumption | now rewrite E].
Qed.

Lemma lstrip_nil_iff (s : str) :
  str_lstrip s = [] <-> forallb is_space s = true.
Proof.
  induction s as [|c s IH]; simpl; [tauto|].
  destruct (is_space c); simpl; [assumption | split; discriminate].
Qed.

Lemma forallb_rev {A} (f : A -> bool) (l : list A) :
  forallb f (rev l) = forallb f l.
Proof.
  induction l as [|x l IH]; simpl; [reflexivity|].
  rewrite forallb_app, IH. simpl. rewrite andb_true_r. apply andb_comm.
Qed.

Lemma rev_nil_iff {A} (l : list A) : rev l = [] <-> l = [].
Proof.
  split; intros H; [|now subst].
  rewrite <- (rev_involutive l), H. reflexivity.
Qed.

(** A string strips to nothing exactly when it is made of whitespace. *)
Lemma str_strip_nil_iff (s : str) :
  str_strip s = [] <-> forallb is_space s = true.
Proof.
  unfold str_strip, str_rstrip.
  etransitivity; [apply rev_nil_iff|].
  etransitivity; [apply lstrip_nil_iff|].
  now rewrite forallb_rev, forallb_lstrip.
Qed.

Lemma strip_nonempty (s : str) : str_strip s <> [] -> s <> [].
Proof. intros H E. subst. now apply H. Qed.

Lemma strip_prefix_spec (p s r : str) :
  strip_prefix p s = Some r <-> s = p ++ r.
Proof.
  revert s. induction p as [|a p IH]; intros s; simpl.
  - split; congruence.
  - destruct s as [|b s]; [split; discriminate|].
    destruct (Z.eqb_spec a b) as [->|N].
    + rewrite IH. split; congruence.
    + split; [discriminate | congruence].
Qed.

Lemma starts_with_spec (p s : str) :
  starts_with p s = true <-> exists r, s = p ++ r.
Proof.
  unfold starts_with. destruct (strip_prefix p s) as [r|] eqn:E.
  - apply strip_prefix_spec in E. split; eauto.
  - split; [discriminate|]. intros [r Hr].
    apply strip_prefix_spec in Hr. congruence.
Qed.

(** [needle in hay] finds exactly the contiguous occurrences. *)
Lemma str_contains_spec (needle hay : str) :
  str_contains needle hay = true
  <-> exists before after, hay = before ++ needle ++ after.
Proof.
  induction hay as [|c hay IH].
  - simpl. rewrite orb_false_r, starts_with_spec. split.
    + intros [r Hr]. now exists [], r.
    + intros (b & a & H). destruct b; [now exists a|discriminate].
  - cbn [str_contains]. rewrite orb_true_iff, starts_with_spec, IH. split.
    + intros [[r Hr] | (b & a & H)].
      * now exists [], r.
      * exists (c :: b), a. now rewrite H.
    + intros (b & a & H). destruct b as [|x b]; simpl in H.
      * left. now exists a.
      * right. exists b, a. congruence.
Qed.

(** ** The error monad *)

Lemma bind_Ok {A B} (c : result A) (k : A -> result B) (b : B) :
  bind c k = Ok b -> exists a, c = Ok a /\ k a = Ok b.
Proof. destruct c; simpl; [eauto | discriminate]. Qed.

End PyFacts.

(* ===================================================================== *)
(** * Properties of the title matcher and of the rulebook loader *)
(* ===================================================================== *)

Module FrequencyProps.
Import Py PyFacts Frequency FrequencyTerms Samples Cases.
Local Open Scope py_scope.

Section WithRuntime.
Context {RT : Runtime}.

(** ** Groups and admission *)

Lemma matches_group_iff (title : str) (g : word_group) :
  title <> [] ->
  matches_group (TitleStr title) g = true <-> group_matches title g.
Proof.
  intros Hne. unfold matches_group, group_matches, keyword_matches.
  cbn [coerce_title]. unfold str_is_empty.
  apply is_nil_false in Hne. rewrite Hne.
  set (hit := _keyword_in_title title (str_lower title)).
  destruct (or_empty (required g)) as [|r rs] eqn:Er;
    destruct (or_empty (normal g)) as [|n ns] eqn:En; cbn [is_nil negb andb].
  - split; [intros _; split; now left | reflexivity].
  - destruct (existsb hit (n :: ns)) eqn:Ex; cbn [negb].
    + split; [intros _|reflexivity]. split; [now left|right].
      now apply existsb_exists in Ex.
    + split; [discriminate|]. intros [_ [H|H]]; [discriminate|].
      apply existsb_exists in H. congruence.
  - destruct (forallb hit (r :: rs)) eqn:Ea; cbn [negb].
    + split; [intros _|reflexivity]. split; [right|now left].
      now apply forallb_forall.
    + split; [discriminate|]. intros [[H|H] _]; [discriminate|].
      apply forallb_forall in H. congruence.
  - destruct (forallb hit (r :: rs)) eqn:Ea; cbn [negb].
    + destruct (existsb hit (n :: ns)) eqn:Ex; cbn [negb].
      * split; [intros _|reflexivity]. split; right.
        -- now apply forallb_forall.
        -- now apply existsb_exists in Ex.
      * split; [discriminate|]. intros [_ [H|H]]; [discriminate|].
        apply existsb_exists in H. congruence.
    + split; [discriminate|]. intros [[H|H] _]; [discriminate|].
      apply forallb_forall in H. congruence.
Qed.

Lemma existsb_false_iff {A} (f : A -> bool) (l : list A) :
  existsb f l = false <-> ~ exists x, In x l /\ f x = true.
Proof.
  rewrite <- existsb_exists. destruct (existsb f l); split; congruence.
Qed.

(** C1. For every title whose stripped form is non-empty and every
    rulebook, [matches_word_groups] answers true exactly when no global
    filter keyword matches the title and either there are no groups
    (pass-through, the flat filter words are not consulted) or no flat
    filter word matches and some group matches; a group matches when its
    required list is empty or all of it matches, and its normal list is
    empty or one of it matches. *)
Theorem matches_word_groups_accepts
  (title : title_arg) (word_groups : list word_group)
  (filter_words : list str) (global_filters : option (list str)) :
  str_strip (coerce_title title) <> [] ->
  matches_word_groups title word_groups filter_words global_filters = true
  <-> title_passes (coerce_title title) word_groups filter_words
        global_filters.
Proof.
  intros Hstrip. pose proof (strip_nonempty _ Hstrip) as Hne.
  unfold matches_word_groups, title_passes, keyword_matches.
  set (t := coerce_title title) in *.
  set (hit := _keyword_in_title t (str_lower t)).
  unfold str_is_empty. apply is_nil_false in Hstrip. rewrite Hstrip.
  assert (Hglob : negb (is_nil (or_empty global_filters))
                  && existsb hit (or_empty global_filters)
                  = existsb hit (or_empty global_filters)).
  { destruct (or_empty global_filters); reflexivity. }
  rewrite Hglob. clear Hglob.
  destruct (existsb hit (or_empty global_filters)) eqn:Eg.
  - split; [discriminate|]. intros [H _]. exfalso. apply H.
    now apply existsb_exists in Eg.
  - apply existsb_false_iff in Eg.
    destruct word_groups as [|g gs]; cbn [is_nil].
    + split; [intros _; split; [assumption | now left] | reflexivity].
    + destruct (existsb hit filter_words) eqn:Ef.
      * split; [discriminate|]. intros [_ [H|[H _]]]; [discriminate|].
        exfalso. apply H. now apply existsb_exists in Ef.
      * apply existsb_false_iff in Ef. rewrite existsb_exists. split.
        -- intros (x & Hin & Hx). split; [assumption|]. right.
           split; [assumption|]. exists x. split; [assumption|].
           now apply matches_group_iff.
        -- intros [_ [H|[_ (x & Hin & Hx)]]]; [discriminate|].
           exists x. split; [assumption|]. now apply matches_group_iff.
Qed.

(** C7, as the code has it. Whatever the rulebook, a title that is
    empty or made of whitespace only is rejected, in pass-through mode
    too and whatever the filters hold; [None] is taken as the empty
    title, and so rejected; any other non-string title is handled as its
    string form. The matcher is a total function: no input makes it
    raise. *)
Theorem blank_title_is_rejected
  (word_groups : list word_group) (filter_words : list str)
  (global_filters : option (list str)) :
  (forall title,
      forallb is_space (coerce_title title) = true ->
      matches_word_groups title word_groups filter_words global_filters
      = false)
  /\ (matches_word_groups TitleNone word_groups filter_words global_filters
      = matches_word_groups (TitleStr []) word_groups filter_words
          global_filters
      /\ matches_word_groups TitleNone word_groups filter_words
           global_filters = false)
  /\ (forall s,
         matches_word_groups (TitleObj s) word_groups filter_words
           global_filters
         = matches_word_groups (TitleStr s) word_groups filter_words
             global_filters)
  /\ (forall title,
         forallb is_space (coerce_title title) = true ->
         matches_word_groups title [] filter_words global_filters = false).
Proof.
  assert (H : forall wg title,
             forallb is_space (coerce_title title) = true ->
             matches_word_groups title wg filter_words global_filters = false).
  { intros wg title Hb. unfold matches_word_groups, str_is_empty.
    apply str_strip_nil_iff in Hb. now rewrite Hb. }
  split; [apply H|]. split; [split; reflexivity|].
  split; [reflexivity | apply H].
Qed.

(** ** The [@] lines of a block *)

Lemma last_default {A} (l : list A) (a d d' : A) :
  last (a :: l) d = last (a :: l) d'.
Proof.
  revert a. induction l as [|x l IH]; intros a; [reflexivity|].
  change (last (x :: l) d = last (x :: l) d'). apply IH.
Qed.

Lemma last_app {A} (l l' : list A) (d : A) :
  last (l ++ l') d = last l' (last l d).
Proof.
  induction l as [|x l IH]; [reflexivity|].
  destruct l as [|y l].
  - destruct l' as [|a l']; [reflexivity|].
    change (last (a :: l') d = last (a :: l') x). apply last_default.
  - change (last ((y :: l) ++ l') d = last l' (last (y :: l) d)). exact IH.
Qed.

Lemma scan_word_max_count (st : list str * group_scan) (word : str) :
  group_max_count (snd (scan_word st word))
  = last (valid_counts [word]) (group_max_count (snd st)).
Proof.
  destruct st as [fw g]. unfold scan_word, valid_counts. cbn [flat_map].
  rewrite app_nil_r.
  destruct (starts_with (utf8 "@") word).
  - destruct (int_of_str (tl word)) as [n|]; [|reflexivity].
    destruct (0 <? n); reflexivity.
  - destruct (starts_with (utf8 "!") word); [reflexivity|].
    destruct (starts_with (utf8 "+") word); reflexivity.
Qed.

Lemma fold_scan_max_count (words : list str) (st : list str * group_scan) :
  group_max_count (snd (fold_left scan_word words st))
  = last (valid_counts words) (group_max_count (snd st)).
Proof.
  revert st. induction words as [|w ws IH]; intros st; [reflexivity|].
  cbn [fold_left]. rewrite IH, scan_word_max_count.
  replace (valid_counts (w :: ws)) with (valid_counts [w] ++ valid_counts ws).
  - now rewrite last_app.
  - unfold valid_counts. cbn [flat_map]. now rewrite app_nil_r.
Qed.

(** The groups of a block carry the limit of its scan. *)
Lemma emit_group_max_count (g : group_scan) :
  map max_count (emit_group g)
  = if is_nil (group_required_words g) && is_nil (group_normal_words g)
    then [] else [group_max_count g].
Proof.
  unfold emit_group.
  destruct (group_required_words g), (group_normal_words g); reflexivity.
Qed.

Lemma is_nil_snoc {A} (l : list A) (a : A) : is_nil (l ++ [a]) = false.
Proof. destruct l; reflexivity. Qed.

Lemma scan_word_wordless (st : list str * group_scan) (word : str) :
  is_nil (group_required_words (snd (scan_word st word)))
  && is_nil (group_normal_words (snd (scan_word st word)))
  = is_nil (group_required_words (snd st))
    && is_nil (group_normal_words (snd st))
    && negb (gives_word word).
Proof.
  destruct st as [fw g]. unfold scan_word, gives_word. cbn [snd].
  destruct (starts_with (utf8 "@") word).
  - cbn [orb negb]. rewrite andb_true_r.
    destruct (int_of_str (tl word)) as [n|]; [|reflexivity].
    destruct (0 <? n); reflexivity.
  - cbn [orb]. destruct (starts_with (utf8 "!") word).
    + cbn [negb snd group_required_words group_normal_words].
      now rewrite andb_true_r.
    + cbn [negb]. rewrite andb_false_r.
      destruct (starts_with (utf8 "+") word);
        cbn [snd group_required_words group_normal_words];
        rewrite is_nil_snoc; [reflexivity | apply andb_false_r].
Qed.

Lemma fold_scan_wordless (words : list str) (st : list str * group_scan) :
  is_nil (group_required_words (snd (fold_left scan_word words st)))
  && is_nil (group_normal_words (snd (fold_left scan_word words st)))
  = is_nil (group_required_words (snd st))
    && is_nil (group_normal_words (snd st))
    && negb (existsb gives_word words).
Proof.
  revert st. induction words as [|w ws IH]; intros st.
  - cbn. now rewrite andb_true_r.
  - cbn [fold_left existsb]. rewrite IH, scan_word_wordless.
    rewrite negb_orb. now rewrite andb_assoc.
Qed.

Lemma scanned_group_max_count (fw : list str) (words : list str) :
  map max_count (emit_group (snd (scan_words fw words)))
  = block_max_count words.
Proof.
  rewrite emit_group_max_count. unfold scan_words, block_max_count.
  rewrite fold_scan_wordless, fold_scan_max_count. cbn.
  destruct (existsb gives_word words); reflexivity.
Qed.

Lemma process_block_max_count (st : loader) (block : str) :
  map max_count (processed_groups (process_block st block))
  = map max_count (processed_groups st)
    ++ flat_map block_max_count
         (scanned_blocks (current_section st) [stripped_pieces [10] block])
  /\ current_section (process_block st block)
     = fst (section_switch (current_section st)
              (stripped_pieces [10] block)).
Proof.
  unfold process_block. cbn [scanned_blocks].
  destruct (stripped_pieces [10] block) as [|first rest] eqn:El.
  - cbn [section_switch fst snd].
    destruct (current_section st); cbn; now rewrite app_nil_r.
  - destruct (section_switch (current_section st) (first :: rest))
      as [sec lines] eqn:Es.
    cbn [fst snd]. destruct sec.
    + cbn. now rewrite app_nil_r.
    + destruct (scan_words (filter_words st) lines) as [fw g] eqn:Eg.
      cbn [processed_groups current_section flat_map].
      rewrite map_app, app_nil_r.
      change g with (snd (fw, g)). rewrite <- Eg.
      now rewrite scanned_group_max_count.
Qed.

Lemma fold_blocks_max_count (blocks : list str) (st : loader) :
  map max_count (processed_groups (fold_left process_block blocks st))
  = map max_count (processed_groups st)
    ++ flat_map block_max_count
         (scanned_blocks (current_section st)
            (map (stripped_pieces [10]) blocks)).
Proof.
  revert st. induction blocks as [|b blocks IH]; intros st.
  - cbn. now rewrite app_nil_r.
  - cbn [fold_left map]. rewrite IH.
    destruct (process_block_max_count st b) as [-> ->].
    rewrite <- app_assoc. f_equal. cbn [scanned_blocks].
    destruct (fst (section_switch (current_section st)
                     (stripped_pieces [10] b)));
      cbn [flat_map]; now rewrite ?app_nil_r.
Qed.

(** C8. An [@N] line sets the group's [max_count] only when [N] parses as
    a positive integer; every other [@] line leaves the whole scan state
    as it was and raises nothing; over a block the last valid [@] line
    wins, 0 being the default; [@0], [@-3] and [@abc] change nothing.
    The group that the block yields carries this limit, and so do the
    groups that [load_frequency_words] returns, which it does for every
    text: their limits are those of the blocks read as word groups, in
    file order. A rulebook of the line [AI] followed by [@0], [@-3] or
    [@abc] loads as the group of [AI] with the limit 0, and with the
    limit 5 when the line [@5] stands between the two. *)
Theorem at_line_sets_max_count :
  (forall st word n,
      starts_with (utf8 "@") word = true ->
      int_of_str (tl word) = Some n -> 0 < n ->
      scan_word st word
      = (fst st,
         {| group_required_words := group_required_words (snd st);
            group_normal_words := group_normal_words (snd st);
            group_filter_words := group_filter_words (snd st);
            group_max_count := n |}))
  /\ (forall st word,
         starts_with (utf8 "@") word = true ->
         (forall n, int_of_str (tl word) = Some n -> n <= 0) ->
         scan_word st word = st)
  /\ (forall filter_words words,
         group_max_count (snd (scan_words filter_words words))
         = last (valid_counts words) 0)
  /\ (forall st,
         scan_word st (utf8 "@0") = st
         /\ scan_word st (utf8 "@-3") = st
         /\ scan_word st (utf8 "@abc") = st)
  /\ (forall filter_words words,
         map max_count (emit_group (snd (scan_words filter_words words)))
         = block_max_count words)
  /\ (forall content,
         exists groups filter_words global_filters,
           load_frequency_words (Some content)
           = Ok (groups, filter_words, global_filters)
           /\ map max_count groups
              = flat_map block_max_count
                  (scanned_blocks WORD_GROUPS (blocks_of content)))
  /\ (forall bad,
         In bad [utf8 "@0"; utf8 "@-3"; utf8 "@abc"] ->
         load_frequency_words (Some (str_join [10] [utf8 "AI"; bad]))
         = Ok ([ai_group_limited 0], [], [])
         /\ load_frequency_words
              (Some (str_join [10] [utf8 "AI"; utf8 "@5"; bad]))
            = Ok ([ai_group_limited 5], [], [])).
Proof.
  split; [|split; [|split; [|split; [|split; [|split]]]]].
  - intros [fw g] word n Hat Hn Hpos. unfold scan_word.
    rewrite Hat, Hn. apply Z.ltb_lt in Hpos. now rewrite Hpos.
  - intros [fw g] word Hat Hbad. unfold scan_word. rewrite Hat.
    destruct (int_of_str (tl word)) as [n|]; [|reflexivity].
    specialize (Hbad n eq_refl).
    destruct (Z.ltb_spec 0 n); [lia | reflexivity].
  - intros fw words. unfold scan_words. now rewrite fold_scan_max_count.
  - intros [fw g]. repeat split; vm_compute; reflexivity.
  - apply scanned_group_max_count.
  - intros content. unfold load_frequency_words, blocks_of.
    eexists _, _, _. split; [reflexivity|].
    now rewrite fold_blocks_max_count.
  - intros bad [<- | [<- | [<- | []]]]; split; vm_compute; reflexivity.
Qed.

(** ** Keywords *)

Lemma forallb_Forall {A} (f : A -> bool) (l : list A) :
  forallb f l = true <-> Forall (fun x => f x = true) l.
Proof. now rewrite forallb_forall, Forall_forall. Qed.

Lemma existsb_false_Forall {A} (f : A -> bool) (l : list A) :
  existsb f l = false <-> Forall (fun x => f x = false) l.
Proof.
  induction l as [|x l IH]; simpl.
  - split; [constructor | reflexivity].
  - rewrite orb_false_iff, IH. split.
    + intros [H1 H2]. now constructor.
    + intros H. inversion H. now split.
Qed.

Lemma alnum_is_ascii (c : codepoint) :
  is_ascii_alnum c = true -> is_ascii c = true.
Proof.
  unfold is_ascii_alnum, is_ascii_upper, is_ascii_lower, is_ascii_digit,
    is_ascii, in_range. lia.
Qed.

Lemma alnum_str_isascii (s : str) :
  Forall (fun c => is_ascii_alnum c = true) s -> str_isascii s = true.
Proof.
  intros H. apply forallb_Forall. eapply Forall_impl; [|exact H].
  apply alnum_is_ascii.
Qed.

(** The boundary rule is chosen exactly for the short ASCII keywords. *)
Lemma should_use_boundary_iff (keyword : str) :
  _should_use_ascii_word_boundary keyword = true <-> short_ascii keyword.
Proof.
  unfold _should_use_ascii_word_boundary, short_ascii, ascii_isalnum,
    str_is_empty.
  destruct keyword as [|c k].
  - cbn. split; [discriminate | intros [H _]; lia].
  - cbn [is_nil negb andb].
    destruct (Z.ltb_spec (len (c :: k)) 2); cbn [orb].
    + split; [discriminate | intros [H' _]; lia].
    + destruct (Z.gtb_spec (len (c :: k)) 4).
      * split; [discriminate | intros [H' _]; lia].
      * rewrite andb_true_iff, forallb_Forall. split.
        -- intros [_ Ha]. split; [lia | assumption].
        -- intros [_ Ha]. split; [now apply alnum_str_isascii | assumption].
Qed.

Lemma str_lower_alnum (keyword : str) :
  Forall (fun c => is_ascii_alnum c = true) keyword ->
  str_lower keyword = map ascii_lower keyword.
Proof.
  intros H. unfold str_lower. now rewrite alnum_str_isascii.
Qed.

(** *** The regex engine on text free of the four folding letters *)

Ltac no_test t :=
  lazymatch t with
  | context [if _ then _ else _] => fail
  | _ => idtac
  end.

Ltac split_tests :=
  repeat (match goal with
          | |- context [?a <=? ?b] =>
              no_test a; no_test b; destruct (Z.leb_spec a b)
          | |- context [?a =? ?b] =>
              no_test a; no_test b; destruct (Z.eqb_spec a b)
          end; cbn [andb orb negb] in *; try lia);
  cbn; intros; try reflexivity; try discriminate; try lia.

Lemma class_alnum_plain (c : codepoint) :
  folds_to_ascii c = false ->
  class_alnum_ignorecase c = is_ascii_alnum c.
Proof.
  unfold folds_to_ascii, class_alnum_ignorecase, sre_lower, is_ascii_alnum,
    is_ascii_upper, is_ascii_lower, is_ascii_digit, in_range.
  split_tests.
Qed.

Lemma literal_plain (k c : codepoint) :
  is_ascii_alnum k = true -> folds_to_ascii c = false ->
  literal_ignorecase (ascii_lower k) c = (ascii_lower c =? ascii_lower k).
Proof.
  unfold folds_to_ascii, literal_ignorecase, sre_fixes, sre_lower,
    ascii_lower, is_ascii_alnum, is_ascii_upper, is_ascii_lower,
    is_ascii_digit, in_range.
  split_tests.
Qed.

Lemma match_literal_plain (keyword text rest : str) :
  Forall (fun c => is_ascii_alnum c = true) keyword ->
  Forall (fun c => folds_to_ascii c = false) text ->
  match_literal (map ascii_lower keyword) text = Some rest
  <-> exists occ, text = occ ++ rest
                  /\ map ascii_lower occ = map ascii_lower keyword.
Proof.
  intros Hk. revert text. induction Hk as [|k keyword Hk1 Hk IH];
    intros text Ht.
  - cbn. split.
    + intros [= <-]. now exists [].
    + intros (occ & -> & Hocc). destruct occ; [reflexivity|discriminate].
  - cbn [map match_literal]. destruct text as [|c text].
    + split; [discriminate|]. intros (occ & Happ & Hocc).
      destruct occ; discriminate.
    + inversion Ht as [|? ? Hc Ht']; subst.
      rewrite (literal_plain k c Hk1 Hc).
      destruct (Z.eqb_spec (ascii_lower c) (ascii_lower k)) as [E|N].
      * rewrite (IH text Ht'). split.
        -- intros (occ & -> & Hocc). exists (c :: occ). cbn. split; congruence.
        -- intros (occ & Happ & Hocc). destruct occ as [|o occ]; [discriminate|].
           cbn in Happ, Hocc. injection Happ as <- ->. injection Hocc as _ Hocc.
           now exists occ.
      * split; [discriminate|]. intros (occ & Happ & Hocc).
        destruct occ as [|o occ]; [discriminate|].
        cbn in Happ, Hocc. injection Happ as <- ->. injection Hocc as Ho _.
        contradiction.
Qed.

Lemma last_opt_cons {A} (c : A) (l : list A) :
  last_opt (c :: l)
  = match last_opt l with Some x => Some x | None => Some c end.
Proof.
  unfold last_opt. cbn [rev]. destruct (rev l); reflexivity.
Qed.

Lemma last_opt_In {A} (l : list A) (c : A) : last_opt l = Some c -> In c l.
Proof.
  unfold last_opt. intros H. apply in_rev. destruct (rev l); [discriminate|].
  injection H as ->. now left.
Qed.

(** The scan tries every position, remembering the code point before it. *)
Lemma search_from_spec (pat : pattern) (text : str) (prev : option codepoint) :
  search_from pat prev text = true
  <-> exists before rest,
        text = before ++ rest
        /\ match_here pat
             (match last_opt before with Some c => Some c | None => prev end)
             rest = true.
Proof.
  revert prev. induction text as [|c text IH]; intros prev.
  - cbn [search_from]. rewrite orb_false_r. split.
    + intros H. now exists [], [].
    + intros (b & r & Happ & H). symmetry in Happ.
      apply app_eq_nil in Happ as [-> ->]. exact H.
  - cbn [search_from]. rewrite orb_true_iff, IH. split.
    + intros [H | (b & r & -> & H)].
      * now exists [], (c :: text).
      * exists (c :: b), r. split; [reflexivity|].
        rewrite last_opt_cons. now destruct (last_opt b).
    + intros (b & r & Happ & H). destruct b as [|x b].
      * left. cbn in Happ. now subst.
      * right. cbn in Happ. injection Happ as <- ->. exists b, r.
        split; [reflexivity|]. rewrite last_opt_cons in H.
        now destruct (last_opt b).
Qed.

Lemma lookbehind_plain (before : str) :
  Forall (fun c => folds_to_ascii c = false) before ->
  match match last_opt before with Some c => Some c | None => None end with
  | Some c => negb (class_alnum_ignorecase c)
  | None => true
  end = true
  <-> not_alnum_next (last_opt before).
Proof.
  intros Hb. destruct (last_opt before) as [c|] eqn:El; cbn; [|tauto].
  apply last_opt_In in El. rewrite Forall_forall in Hb.
  rewrite (class_alnum_plain c (Hb c El)).
  destruct (is_ascii_alnum c); cbn; split; congruence.
Qed.

Lemma lookahead_plain (after : str) :
  Forall (fun c => folds_to_ascii c = false) after ->
  match after with
  | c :: _ => negb (class_alnum_ignorecase c)
  | [] => true
  end = true
  <-> not_alnum_next (hd_error after).
Proof.
  intros Ha. destruct after as [|c after]; cbn; [tauto|].
  inversion Ha; subst. rewrite class_alnum_plain by assumption.
  destruct (is_ascii_alnum c); cbn; split; congruence.
Qed.

(** On a title free of the four folding letters, the compiled pattern
    finds exactly the occurrences with no ASCII letter or digit next to
    them. *)
Lemma pattern_search_plain (keyword title : str) :
  Forall (fun c => is_ascii_alnum c = true) keyword ->
  Forall (fun c => folds_to_ascii c = false) title ->
  pattern_search (_compile_ascii_boundary_pattern (map ascii_lower keyword))
    title = true
  <-> boundary_occurrence keyword title.
Proof.
  intros Hk Ht. unfold pattern_search, boundary_occurrence.
  rewrite search_from_spec. split.
  - intros (before & rest & -> & H).
    apply Forall_app in Ht as [Hb Hr].
    unfold match_here in H. apply andb_true_iff in H as [Hprev Hlit].
    apply (lookbehind_plain _ Hb) in Hprev.
    cbn [literal _compile_ascii_boundary_pattern] in Hlit.
    destruct (match_literal (map ascii_lower keyword) rest) as [after|] eqn:Em;
      [|discriminate].
    apply (match_literal_plain _ _ _ Hk Hr) in Em as (occ & -> & Hocc).
    apply Forall_app in Hr as [_ Ha].
    apply (lookahead_plain _ Ha) in Hlit.
    now exists before, occ, after.
  - intros (before & occ & after & -> & Hocc & Hp & Hn).
    exists before, (occ ++ after). split; [reflexivity|].
    apply Forall_app in Ht as [Hb Hr].
    unfold match_here. apply andb_true_iff. split.
    + now apply lookbehind_plain.
    + cbn [literal _compile_ascii_boundary_pattern].
      assert (Em : match_literal (map ascii_lower keyword) (occ ++ after)
                   = Some after).
      { apply (match_literal_plain _ _ _ Hk Hr). now exists occ. }
      rewrite Em. apply Forall_app in Hr as [_ Ha].
      now apply lookahead_plain.
Qed.

(** C2, as the code has it. The boundary rule is used exactly for the
    keywords of 2 to 4 ASCII letters and digits. The empty keyword
    matches no title. A short ASCII keyword matches a title (here: one
    that holds none of the four letters U+0130, U+0131, U+017F, U+212A)
    exactly when it occurs in it, up to the case of ASCII letters, with
    no ASCII letter or digit right before or right after. Every other
    non-empty keyword matches exactly when its lower-case form is a
    substring of the lower-cased title. So ["AI"] matches
    ["AI新能源汽车"] and ["全球AI发展"] and neither ["Air quality"]
    nor ["arrAIgned"]. *)
Theorem keyword_matching_rule (title keyword : str) :
  (_should_use_ascii_word_boundary keyword = true <-> short_ascii keyword)
  /\ (keyword = [] -> ~ keyword_matches title keyword)
  /\ (short_ascii keyword ->
      existsb folds_to_ascii title = false ->
      (keyword_matches title keyword <-> boundary_occurrence keyword title))
  /\ (keyword <> [] -> ~ short_ascii keyword ->
      (keyword_matches title keyword
       <-> substring_ignoring_case keyword title))
  /\ (keyword_matches (utf8 "AI新能源汽车") (utf8 "AI")
      /\ keyword_matches (utf8 "全球AI发展") (utf8 "AI")
      /\ ~ keyword_matches (utf8 "Air quality") (utf8 "AI")
      /\ ~ keyword_matches (utf8 "arrAIgned") (utf8 "AI")).
Proof.
  split; [apply should_use_boundary_iff|].
  split; [intros ->; cbv; discriminate|].
  split; [|split].
  - intros Hs Hplain. pose proof Hs as [Hlen Hk].
    unfold keyword_matches, _keyword_in_title.
    assert (Hne : str_is_empty keyword = false).
    { apply is_nil_false. intros ->. unfold len in Hlen. simpl in Hlen. lia. }
    rewrite Hne. apply should_use_boundary_iff in Hs. rewrite Hs.
    rewrite (str_lower_alnum _ Hk).
    apply pattern_search_plain; [assumption|].
    now apply existsb_false_Forall.
  - intros Hne Hns. unfold keyword_matches, _keyword_in_title.
    apply is_nil_false in Hne. unfold str_is_empty. rewrite Hne.
    destruct (_should_use_ascii_word_boundary keyword) eqn:E.
    + apply should_use_boundary_iff in E. contradiction.
    + apply str_contains_spec.
  - unfold keyword_matches. repeat split; vm_compute; congruence.
Qed.

(** The loader on [rulebook_text]: the last valid [@] line of the group
    is kept, the unknown tag is an ordinary word. *)
Example loader_run :
  load_frequency_words (Some rulebook_text)
  = Ok ([ {| required := Some [utf8 "芯片"]; normal := Some [utf8 "AI"];
             group_key := utf8 "AI"; max_count := 7 |};
          {| required := Some [];
             normal := Some [utf8 "[other]"; utf8 "GPU"];
             group_key := utf8 "[other] GPU"; max_count := 0 |} ],
        [utf8 "招聘"], [utf8 "广告"]).
Proof. vm_compute. reflexivity. Qed.

(** The slip the rule above leaves aside: IGNORECASE reaches into the
    look-around classes, so the Kelvin sign after ["AI"] blocks a match
    that the ASCII-boundary wording allows. *)
Example kelvin_sign_blocks_boundary_match :
  boundary_occurrence (utf8 "AI") (utf8 "AI" ++ [8490])
  /\ ~ keyword_matches (utf8 "AI" ++ [8490]) (utf8 "AI").
Proof.
  split.
  - exists [], (utf8 "AI"), [8490]. repeat split; reflexivity.
  - unfold keyword_matches. vm_compute. discriminate.
Qed.

End WithRuntime.

(** ** Concrete runs *)

Lemma matches_word_groups_accepts_witness :
  matches_word_groups (RT := ascii_runtime)
    (TitleStr (utf8 "AI新能源汽车")) [ai_group] [utf8 "广告"]
    (Some [utf8 "spam"]) = true
  <-> title_passes (RT := ascii_runtime)
        (utf8 "AI新能源汽车") [ai_group] [utf8 "广告"] (Some [utf8 "spam"]).
Proof.
  apply (matches_word_groups_accepts (RT := ascii_runtime)
           (TitleStr (utf8 "AI新能源汽车"))).
  vm_compute. discriminate.
Defined.

Lemma blank_title_is_rejected_witness :
  matches_word_groups (RT := ascii_runtime)
    (TitleStr (utf8 "   ")) [] [] None = false.
Proof.
  apply (blank_title_is_rejected (RT := ascii_runtime) [] [] None).
  reflexivity.
Defined.

Lemma at_line_sets_max_count_witness :
  scan_word (RT := ascii_runtime) ([], empty_scan) (utf8 "@5")
  = ([], {| group_required_words := []; group_normal_words := [];
            group_filter_words := []; group_max_count := 5 |}).
Proof.
  apply (proj1 (at_line_sets_max_count (RT := ascii_runtime))
           ([], empty_scan) (utf8 "@5") 5); [reflexivity | reflexivity | lia].
Defined.

Lemma keyword_matching_rule_witness :
  keyword_matches (RT := ascii_runtime) (utf8 "全球AI发展") (utf8 "ai")
  <-> boundary_occurrence (utf8 "ai") (utf8 "全球AI发展").
Proof.
  apply (keyword_matching_rule (RT := ascii_runtime)
           (utf8 "全球AI发展") (utf8 "ai")).
  - split; [vm_compute; split; discriminate | repeat constructor].
  - reflexivity.
Defined.

(** C7 as worded fails on [None]: it is not handled as its string form
    ["None"], which pass-through mode accepts, but as the empty title,
    which is rejected. *)
Lemma none_is_not_its_string_form :
  ~ (forall word_groups filter_words global_filters,
        matches_word_groups (RT := ascii_runtime) TitleNone word_groups
          filter_words global_filters
        = matches_word_groups (RT := ascii_runtime) (TitleStr (utf8 "None"))
            word_groups filter_words global_filters).
Proof.
  intros H. specialize (H [] [] None). vm_compute in H. discriminate.
Qed.

(** C2 as worded fails on the empty keyword (with the title ["abc"]): it
    is not a short ASCII keyword and it is a substring of every title,
    yet it matches none. *)
Lemma empty_keyword_never_matches :
  ~ (forall title keyword : str,
        ~ short_ascii keyword ->
        (keyword_matches (RT := ascii_runtime) title keyword
         <-> substring_ignoring_case (RT := ascii_runtime) keyword title)).
Proof.
  intros H. specialize (H (utf8 "abc") []).
  assert (Hn : ~ short_ascii []).
  { intros [[Hlen _] _]. vm_compute in Hlen. now apply Hlen. }
  apply H in Hn. destruct Hn as [_ Hn].
  assert (Hs : substring_ignoring_case (RT := ascii_runtime) [] (utf8 "abc")).
  { exists [], (utf8 "abc"). reflexivity. }
  apply Hn in Hs. unfold keyword_matches in Hs. vm_compute in Hs.
  discriminate.
Qed.

End FrequencyProps.

(* ===================================================================== *)
(** * Properties of prepare_report_data *)
(* ===================================================================== *)

Module GeneratorProps.
Import Py PyFacts Generator GeneratorTerms Samples Cases.
Local Open Scope py_scope.

(** ** Reading monadic code backwards *)

Ltac inv_ok H :=
  repeat match type of H with
    | bind _ _ = Ok _ =>
        let a := fresh "a" in
        let E := fresh "E" in
        apply bind_Ok in H; destruct H as (a & E & H)
    | (let '(_, _) := ?x in _) = Ok _ => destruct x
    end.

Lemma mapM_Forall2 {A B} (f : A -> result B) (l : list A) (ys : list B) :
  mapM f l = Ok ys <-> Forall2 (fun x y => f x = Ok y) l ys.
Proof.
  revert ys. induction l as [|x l IH]; intros ys; cbn [mapM].
  - split; [intros [= <-]; constructor | intros H; now inversion H].
  - split.
    + intros H. inv_ok H. injection H as <-. constructor; [assumption|].
      now apply IH.
    + intros H. inversion H as [|? y ? ys' Hx Hl]; subst.
      rewrite Hx. cbn. apply IH in Hl. now rewrite Hl.
Qed.

Lemma mapM_pure {A B} (f : A -> result B) (g : A -> B) (l : list A) :
  Forall (fun x => f x = Ok (g x)) l -> mapM f l = Ok (map g l).
Proof.
  induction 1 as [|x l Hx Hl IH]; cbn; [reflexivity|].
  now rewrite Hx, IH.
Qed.

Lemma mapM_concat_Forall {A B} (f : A -> result (list B)) (P : B -> Prop)
  (l : list A) (gs : list (list B)) :
  mapM f l = Ok gs ->
  (forall x g, In x l -> f x = Ok g -> Forall P g) ->
  Forall P (concat gs).
Proof.
  intros H HP. apply mapM_Forall2 in H.
  induction H as [|x g l gs Hx Hl IH]; cbn; [constructor|].
  apply Forall_app. split.
  - apply (HP x); [now left | assumption].
  - apply IH. intros x' g' Hin. apply HP. now right.
Qed.

Lemma foldM_app {A S} (f : S -> A -> result S) (l l' : list A) (s : S) :
  foldM f (l ++ l') s = bind (foldM f l s) (foldM f l').
Proof.
  revert s. induction l as [|x l IH]; intros s; cbn; [reflexivity|].
  destruct (f s x); cbn; [apply IH | reflexivity].
Qed.

Lemma filterM_keeps {A} (f : A -> result bool) (l r : list A) (x : A) :
  filterM f l = Ok r -> In x l -> f x = Ok true -> In x r.
Proof.
  revert r. induction l as [|y l IH]; intros r H Hin Hx; [contradiction|].
  cbn in H. inv_ok H. injection H as <-.
  destruct Hin as [->|Hin].
  - rewrite Hx in E. injection E as <-. now left.
  - destruct a; [right|]; now apply IH.
Qed.

(** ** The final pass *)

Section WithRuntime.
Context {RT : Runtime}.

Lemma num_compare_le_false (n : number) :
  match num_compare n (NInt 0) with
  | Some Lt | Some Eq => true
  | _ => false
  end = false ->
  n <> NFloat S754_nan -> num_compare n (NInt 0) = Some Gt.
Proof.
  intros H Hn. destruct (num_compare n (NInt 0)) as [[| |]|] eqn:E;
    try discriminate; [reflexivity|].
  exfalso. destruct n as [z|f]; cbn in E; [discriminate|].
  destruct f; cbn in E; try discriminate. now apply Hn.
Qed.

Lemma not_le_positive (c : value) :
  py_le_int c 0 = Ok false ->
  (c <> VFloat S754_nan -> positive c) /\ (forall z, c = VInt z -> 0 < z).
Proof.
  unfold py_le_int, positive. intros H.
  destruct (as_number c) as [n|] eqn:En; [|discriminate].
  injection H as H. split.
  - intros Hc. apply num_compare_le_false; [assumption|].
    intros ->. apply Hc. destruct c; cbn in En; try discriminate.
    congruence.
  - intros z ->. cbn in En. injection En as <-. cbn in H.
    destruct (Z.compare_spec z 0); try discriminate. lia.
Qed.

(** What [process_stat] emits for an entry it keeps. *)
Lemma process_stat_emits (stat : value) (out : list value) :
  process_stat stat = Ok out ->
  out = []
  \/ exists c w pct titles ts,
       py_getitem stat k_count = Ok c
       /\ py_le_int c 0 = Ok false
       /\ py_getitem stat k_word = Ok w
       /\ bind (py_getitem stat k_titles) py_iter = Ok titles
       /\ mapM process_title titles = Ok ts
       /\ out = [ VDict [ (k_word, w); (k_count, c); (k_percentage, pct);
                          (k_titles, VList ts) ] ].
Proof.
  unfold process_stat. intros H.
  destruct (py_getitem stat k_count) as [c|] eqn:Ec; [|discriminate].
  cbn [bind] in H.
  destruct (py_le_int c 0) as [b|] eqn:Eb; [|discriminate]. cbn [bind] in H.
  destruct b; [left; congruence|].
  destruct (py_getitem stat k_titles) as [t|] eqn:Et; [|discriminate].
  cbn [bind] in H.
  destruct (py_iter t) as [titles|] eqn:Ei; [|discriminate]. cbn [bind] in H.
  destruct (mapM process_title titles) as [ts|] eqn:Em; [|discriminate].
  cbn [bind] in H.
  destruct (py_getitem stat k_word) as [w|] eqn:Ew; [|discriminate].
  cbn [bind] in H.
  destruct (py_get stat k_percentage (VInt 0)) as [pct|] eqn:Ep;
    [|discriminate].
  cbn [bind] in H. injection H as <-.
  right. exists c, w, pct, titles, ts. cbn [bind]. now repeat split.
Qed.

Lemma prepare_runs_final_pass {rulebook : Type}
  (matches : option (str -> rulebook -> result value))
  (load : option (result rulebook))
  stats failed_ids new_titles id_to_name mode rank_threshold
  rss_stats rss_new_stats (p : payload) :
  prepare_report_data matches load stats failed_ids new_titles id_to_name
    mode rank_threshold rss_stats rss_new_stats = Ok p ->
  exists personal keyword stats',
    filterM is_personal (or_nil rss_stats) = Ok personal
    /\ filterM is_keyword (or_nil rss_stats) = Ok keyword
    /\ (if is_nil keyword then Ok stats
        else bind (merge_stats (or_nil stats) keyword)
               (fun s => Ok (Some s))) = Ok stats'
    /\ (if is_nil personal then Ok []
        else regroup_personal personal) = Ok (p_rss_stats p)
    /\ process_stats stats' = Ok (p_stats p).
Proof.
  unfold prepare_report_data. intros H. inv_ok H. injection H as <-.
  cbn [p_stats p_rss_stats]. do 3 eexists. repeat split; eassumption.
Qed.

(** C6. Every entry in the [stats] of the returned payload carries a
    count that is a number and not [<= 0], hence greater than 0 (for the
    integer counts of the data model; a float NaN alone is neither), and
    an entry whose count is [<= 0] is dropped whatever its titles. *)
Theorem final_stats_have_positive_count {rulebook : Type}
  (matches : option (str -> rulebook -> result value))
  (load : option (result rulebook))
  stats failed_ids new_titles id_to_name mode rank_threshold
  rss_stats rss_new_stats (p : payload) :
  prepare_report_data matches load stats failed_ids new_titles id_to_name
    mode rank_threshold rss_stats rss_new_stats = Ok p ->
  Forall (fun e => exists d c,
              e = VDict d /\ dict_lookup k_count d = Some c
              /\ (c <> VFloat S754_nan -> positive c)
              /\ (forall z, c = VInt z -> 0 < z))
         (p_stats p)
  /\ (forall stat c,
         py_getitem stat k_count = Ok c -> py_le_int c 0 = Ok true ->
         process_stat stat = Ok []).
Proof.
  intros H. split.
  - apply prepare_runs_final_pass in H
      as (personal & keyword & stats' & _ & _ & _ & _ & H).
    unfold process_stats in H. destruct stats' as [l|]; [|discriminate].
    inv_ok H. injection H as <-.
    eapply mapM_concat_Forall; [exact E|].
    intros x g _ Hx. apply process_stat_emits in Hx
      as [-> | (c & w & pct & titles & ts & Hc & Hle & _ & _ & _ & ->)].
    + constructor.
    + constructor; [|constructor].
      eexists _, c. split; [reflexivity|]. split; [reflexivity|].
      now apply not_le_positive.
  - intros stat c Hc Hle. unfold process_stat. rewrite Hc. cbn.
    now rewrite Hle.
Qed.

Lemma canonical_or_legacy (d : dict) :
  (if truthy (dict_get d k_mobile_url VNone)
   then Ok (dict_get d k_mobile_url VNone)
   else Ok (dict_get d k_mobileUrl (VStr [])))
  = Ok (mobile_url_of d).
Proof.
  unfold mobile_url_of, dict_get.
  destruct (dict_lookup k_mobile_url d) as [u|]; [|reflexivity].
  destruct (truthy u); reflexivity.
Qed.

(** What [process_title] emits. *)
Lemma process_title_emits (title_data t : value) :
  process_title title_data = Ok t ->
  exists d td,
    title_data = VDict d /\ t = VDict td
    /\ dict_lookup k_mobile_url td = Some (mobile_url_of d).
Proof.
  unfold process_title. intros H.
  destruct title_data as [| | | | |l|d]; try discriminate.
  cbn [py_getitem py_get bind] in H. rewrite canonical_or_legacy in H.
  repeat match type of H with
         | bind (match dict_lookup ?k d with _ => _ end) _ = _ =>
             destruct (dict_lookup k d); [cbn [bind] in H | discriminate]
         end.
  injection H as <-. exists d. eexists.
  split; [reflexivity|]. split; reflexivity.
Qed.

(** C9, as the code has it. In the final pass every projected title
    takes its [mobile_url] from the canonical field when that is
    present and truthy (a non-empty string), else from the legacy
    [mobileUrl] field, else it is the empty string. *)
Theorem mobile_url_prefers_canonical (stats out : list value) :
  process_stats (Some stats) = Ok out ->
  Forall (fun e =>
            exists stat titles ed ts,
              In stat stats
              /\ bind (py_getitem stat k_titles) py_iter = Ok titles
              /\ e = VDict ed
              /\ dict_lookup k_titles ed = Some (VList ts)
              /\ Forall2 (fun title_data t =>
                            exists d td,
                              title_data = VDict d /\ t = VDict td
                              /\ dict_lookup k_mobile_url td
                                 = Some (mobile_url_of d))
                         titles ts)
         out.
Proof.
  unfold process_stats. intros H. inv_ok H. injection H as <-.
  eapply mapM_concat_Forall; [eassumption|].
  intros stat g Hin Hg. apply process_stat_emits in Hg
    as [-> | (c & w & pct & titles & ts & _ & _ & _ & Ht & Hm & ->)].
  - constructor.
  - constructor; [|constructor].
    exists stat, titles. do 2 eexists. split; [assumption|].
    split; [assumption|]. split; [reflexivity|]. split; [reflexivity|].
    apply mapM_Forall2 in Hm. eapply Forall2_impl; [|exact Hm].
    intros ? ?. apply process_title_emits.
Qed.

(** ** Dicts *)

Lemma dict_lookup_set (k k' : str) (v : value) (d : dict) :
  dict_lookup k (dict_set k' v d)
  = if str_eqb k' k then Some v else dict_lookup k d.
Proof.
  induction d as [|[k'' v''] d IH]; cbn; [reflexivity|].
  destruct (str_eqb k'' k') eqn:E1; cbn.
  - apply str_eqb_eq in E1. subst k''.
    destruct (str_eqb k' k); reflexivity.
  - rewrite IH. destruct (str_eqb k'' k) eqn:E2; [|reflexivity].
    apply str_eqb_eq in E2. subst k''.
    destruct (str_eqb k' k) eqn:E3; [|reflexivity].
    apply str_eqb_eq in E3. subst k'. now rewrite str_eqb_refl in E1.
Qed.

Lemma dict_get_set_other (k k' : str) (v def : value) (d : dict) :
  str_eqb k' k = false ->
  dict_get (dict_set k' v d) k def = dict_get d k def.
Proof. intros H. unfold dict_get. now rewrite dict_lookup_set, H. Qed.

Lemma key_eqb_str (k : value) (w : str) :
  key_eqb k (VStr w) = true <-> k = VStr w.
Proof.
  destruct k as [| [|] | | | s | |]; cbn;
    try (split; [discriminate | congruence]).
  rewrite str_eqb_eq. split; congruence.
Qed.

Lemma key_eqb_str_l (k : value) (w : str) :
  key_eqb (VStr w) k = true <-> k = VStr w.
Proof.
  destruct k as [| [|] | | | s | |]; cbn;
    try (split; [discriminate | congruence]).
  rewrite str_eqb_eq. split; congruence.
Qed.

Lemma kd_lookup_set_str {A} (w : str) (k : value) (a : A) (d : kdict A) :
  kd_lookup (VStr w) (kd_set k a d)
  = if key_eqb k (VStr w) then Some a else kd_lookup (VStr w) d.
Proof.
  induction d as [|[k' a'] d IH]; cbn; [reflexivity|].
  destruct (key_eqb k' k) eqn:E1; cbn.
  - destruct (key_eqb k' (VStr w)) eqn:E2.
    + apply key_eqb_str in E2. subst k'. apply key_eqb_str_l in E1.
      subst k. cbn. now rewrite str_eqb_refl.
    + destruct (key_eqb k (VStr w)) eqn:E3; [|reflexivity].
      apply key_eqb_str in E3. subst k.
      apply key_eqb_str in E1. subst k'.
      cbn in E2. now rewrite str_eqb_refl in E2.
  - rewrite IH. destruct (key_eqb k' (VStr w)) eqn:E2; [|reflexivity].
    apply key_eqb_str in E2. subst k'.
    destruct (key_eqb k (VStr w)) eqn:E3; [|reflexivity].
    apply key_eqb_str in E3. subst k. cbn in E1.
    now rewrite str_eqb_refl in E1.
Qed.

Lemma kd_set_Forall {A} (P : A -> Prop) (k : value) (a : A) (d : kdict A) :
  Forall P (map snd d) -> P a -> Forall P (map snd (kd_set k a d)).
Proof.
  intros Hd Ha. induction d as [|[k' a'] d IH]; cbn.
  - now constructor.
  - cbn in Hd. inversion Hd; subst.
    destruct (key_eqb k' k); cbn; constructor; auto.
Qed.

Lemma kd_lookup_In {A} (k : value) (a : A) (d : kdict A) :
  kd_lookup k d = Some a -> In a (map snd d).
Proof.
  induction d as [|[k' a'] d IH]; cbn; [discriminate|].
  destruct (key_eqb k' k); [intros [= ->]; now left | right; auto].
Qed.

(** ** The merge *)

Lemma except_Ok {A} (c h : result A) (x : A) :
  except_type_value c h = Ok x -> c = Ok x \/ h = Ok x.
Proof.
  destruct c as [a|[]]; cbn; intros H; auto; discriminate.
Qed.

(** What [merge_into] leaves in the copy. *)
Lemma merge_into_shape (md sd md' : dict) :
  merge_into md (VDict sd) = Ok md' ->
  exists c1 c2 t1 t2 pos,
    py_int (py_or (dict_get md k_count (VInt 0)) (VInt 0)) = Ok c1
    /\ py_int (py_or (dict_get sd k_count (VInt 0)) (VInt 0)) = Ok c2
    /\ py_iter (py_or (dict_get md k_titles (VList [])) (VList [])) = Ok t1
    /\ py_iter (py_or (dict_get sd k_titles (VList [])) (VList [])) = Ok t2
    /\ except_type_value
         (bind (py_int (dict_get md k_position (VInt 999))) (fun a =>
          bind (py_int (dict_get sd k_position (VInt 999))) (fun b =>
          Ok (VInt (Z.min a b)))))
         (Ok (dict_get md k_position (VInt 999))) = Ok pos
    /\ let m3 := dict_set k_position pos
                   (dict_set k_titles (VList (t1 ++ t2))
                      (dict_set k_count (VInt (c1 + c2)) md)) in
       md' = m3 \/ exists f, md' = dict_set k_percentage (VFloat f) m3.
Proof.
  unfold merge_into. cbn [py_get bind]. intros H.
  destruct (py_int (py_or (dict_get md k_count (VInt 0)) (VInt 0)))
    as [c1|] eqn:E1; [|discriminate]. cbn [bind] in H.
  destruct (py_int (py_or (dict_get sd k_count (VInt 0)) (VInt 0)))
    as [c2|] eqn:E2; [|discriminate]. cbn [bind] in H.
  rewrite (dict_get_set_other k_titles k_count) in H by reflexivity.
  destruct (py_iter (py_or (dict_get md k_titles (VList [])) (VList [])))
    as [t1|] eqn:E3; [|discriminate]. cbn [bind] in H.
  destruct (py_iter (py_or (dict_get sd k_titles (VList [])) (VList [])))
    as [t2|] eqn:E4; [|discriminate]. cbn [bind] in H.
  rewrite !(dict_get_set_other k_position) in H by reflexivity.
  match type of H with
  | bind ?c _ = _ => destruct c as [pos|] eqn:E5; [|discriminate]
  end.
  cbn [bind] in H. exists c1, c2, t1, t2, pos.
  repeat (split; [assumption || reflexivity|]).
  cbn zeta. apply except_Ok in H as [H|H].
  - right. inv_ok H. injection H as <-. eauto.
  - left. congruence.
Qed.

Lemma merge_into_keeps_word (md sd md' : dict) :
  merge_into md (VDict sd) = Ok md' ->
  dict_get md' k_word VNone = dict_get md k_word VNone.
Proof.
  intros H. apply merge_into_shape in H
    as (c1 & c2 & t1 & t2 & pos & _ & _ & _ & _ & _ & [-> | [f ->]]);
    now rewrite !dict_get_set_other by reflexivity.
Qed.

Lemma foldM_invariant {A S} (I : S -> Prop) (f : S -> A -> result S)
  (l : list A) (s s' : S) :
  I s ->
  (forall s x s', In x l -> I s -> f s x = Ok s' -> I s') ->
  foldM f l s = Ok s' -> I s'.
Proof.
  revert s. induction l as [|x l IH]; intros s Hs Hf H; cbn in H.
  - congruence.
  - inv_ok H. apply (IH a).
    + apply (Hf s x); [now left | assumption | assumption].
    + intros s0 y s1 Hin. apply Hf. now right.
    + assumption.
Qed.

(** The two loop bodies, read backwards. *)
Lemma add_primary_cases (m m' : merged_map) (stat : value) :
  add_primary m stat = Ok m' ->
  exists d, stat = VDict d
    /\ ((truthy (dict_get d k_word VNone) = false /\ m' = m)
        \/ (truthy (dict_get d k_word VNone) = true
            /\ m' = kd_set (dict_get d k_word VNone) d m)).
Proof.
  unfold add_primary. intros H.
  destruct stat as [| | | | | |d]; try discriminate. exists d.
  split; [reflexivity|]. cbn [py_get bind py_dict] in H.
  destruct (truthy (dict_get d k_word VNone)); cbn [negb] in H.
  - right. split; [reflexivity|]. unfold check_hashable in H.
    destruct (hashable (dict_get d k_word VNone)); [|discriminate].
    cbn [bind] in H. now injection H as <-.
  - left. split; [reflexivity|]. now injection H as <-.
Qed.

Lemma merge_rss_cases (m m' : merged_map) (rss_stat : value) :
  merge_rss m rss_stat = Ok m' ->
  exists d, rss_stat = VDict d
    /\ ((truthy (dict_get d k_word VNone) = false /\ m' = m)
        \/ (truthy (dict_get d k_word VNone) = true
            /\ ((kd_lookup (dict_get d k_word VNone) m = None
                 /\ m' = kd_set (dict_get d k_word VNone) d m)
                \/ exists md md',
                     kd_lookup (dict_get d k_word VNone) m = Some md
                     /\ merge_into md (VDict d) = Ok md'
                     /\ m' = kd_set (dict_get d k_word VNone) md' m))).
Proof.
  unfold merge_rss. intros H.
  destruct rss_stat as [| | | | | |d]; try discriminate. exists d.
  split; [reflexivity|]. cbn [py_get bind py_dict] in H.
  destruct (truthy (dict_get d k_word VNone)); cbn [negb] in H.
  - right. split; [reflexivity|]. unfold check_hashable in H.
    destruct (hashable (dict_get d k_word VNone)); [|discriminate].
    cbn [bind] in H.
    destruct (kd_lookup (dict_get d k_word VNone) m) as [md|].
    + right. inv_ok H. exists md. eexists. repeat split; [eassumption|].
      now injection H as <-.
    + left. split; [reflexivity|]. now injection H as <-.
  - left. split; [reflexivity|]. now injection H as <-.
Qed.

(** A property of the copies that both loops keep. *)
Lemma merge_by_word_invariant (P : dict -> Prop)
  (stats rss : list value) (m : merged_map) :
  (forall d, In (VDict d) stats ->
             truthy (dict_get d k_word VNone) = true -> P d) ->
  (forall d, In (VDict d) rss ->
             truthy (dict_get d k_word VNone) = true -> P d) ->
  (forall md sd md',
      P md -> In (VDict sd) rss ->
      merge_into md (VDict sd) = Ok md' -> P md') ->
  merge_by_word stats rss = Ok m ->
  Forall P (map snd m).
Proof.
  intros Hs Hr Hm H. unfold merge_by_word in H. inv_ok H.
  eapply (foldM_invariant (fun m => Forall P (map snd m))); [| |exact H].
  - eapply (foldM_invariant (fun m => Forall P (map snd m))); [| |exact E].
    + constructor.
    + intros m0 x m1 Hin H0 Hx.
      apply add_primary_cases in Hx as (d & -> & [[_ ->] | [Ht ->]]);
        [assumption|].
      apply kd_set_Forall; auto.
  - intros m0 x m1 Hin H0 Hx.
    apply merge_rss_cases in Hx
      as (d & -> & [[_ ->] | [Ht [[_ ->] | (md & md' & Hl & Hi & ->)]]]);
      [assumption| |].
    + apply kd_set_Forall; auto.
    + apply kd_set_Forall; [assumption|].
      apply (Hm md d); [|assumption|assumption].
      apply kd_lookup_In in Hl. rewrite Forall_forall in H0. auto.
Qed.

(** ** Stable sorting *)

Lemma insert_by_split {A} (lt : A -> A -> bool) (x : A) (l : list A) :
  exists l1 l2,
    l = l1 ++ l2 /\ insert_by lt x l = l1 ++ x :: l2
    /\ Forall (fun y => lt y x = true) l1
    /\ match l2 with y :: _ => lt y x = false | [] => True end.
Proof.
  induction l as [|y l IH]; cbn.
  - exists [], []. repeat split; constructor.
  - destruct (lt y x) eqn:E.
    + destruct IH as (l1 & l2 & -> & -> & H1 & H2).
      exists (y :: l1), l2. repeat split; [now constructor | assumption].
    + exists [], (y :: l). repeat split; [constructor | assumption].
Qed.

Lemma insert_by_perm {A} (lt : A -> A -> bool) (x : A) (l : list A) :
  Permutation (insert_by lt x l) (x :: l).
Proof.
  destruct (insert_by_split lt x l) as (l1 & l2 & -> & -> & _).
  symmetry. apply Permutation_middle.
Qed.

Lemma stable_sort_perm {A} (lt : A -> A -> bool) (l : list A) :
  Permutation (stable_sort lt l) l.
Proof.
  induction l as [|x l IH]; cbn; [constructor|].
  rewrite insert_by_perm. now constructor.
Qed.

Section Order.
Context {A : Type} (lt : A -> A -> bool).
(** [lt] is the strict part of a total preorder. *)
Hypothesis lt_asym : forall a b, lt a b = true -> lt b a = false.
Hypothesis le_trans :
  forall a b c, lt b a = false -> lt c b = false -> lt c a = false.

Lemma insert_by_sorted (x : A) (l : list A) :
  StronglySorted (fun a b => lt b a = false) l ->
  StronglySorted (fun a b => lt b a = false) (insert_by lt x l).
Proof.
  induction 1 as [|y l Hl IH Hy]; cbn.
  - repeat constructor.
  - destruct (lt y x) eqn:E.
    + constructor; [assumption|].
      rewrite Forall_forall in *. intros z Hz.
      apply (Permutation_in _ (insert_by_perm lt x l)) in Hz.
      destruct Hz as [<-|Hz]; [now apply lt_asym | now apply Hy].
    + constructor; [now constructor|]. constructor; [assumption|].
      rewrite Forall_forall in *. intros z Hz.
      apply (le_trans x y z); [assumption | now apply Hy].
Qed.

Lemma stable_sort_sorted (l : list A) :
  StronglySorted (fun a b => lt b a = false) (stable_sort lt l).
Proof.
  induction l as [|x l IH]; cbn; [constructor | now apply insert_by_sorted].
Qed.

End Order.

(** Stability: elements that do not precede one another keep their
    order. *)
Lemma stable_sort_stable {A} (lt : A -> A -> bool) (p : A -> bool)
  (l : list A) :
  (forall a b, p a = true -> p b = true -> lt a b = false) ->
  filter p (stable_sort lt l) = filter p l.
Proof.
  intros Hp. induction l as [|x l IH]; cbn [stable_sort]; [reflexivity|].
  destruct (insert_by_split lt x (stable_sort lt l))
    as (l1 & l2 & El & -> & H1 & _).
  cbn [filter]. rewrite <- IH, El, !filter_app. cbn [filter].
  destruct (p x) eqn:Ex; [|reflexivity].
  replace (filter p l1) with (@nil A); [reflexivity|].
  symmetry. clear El. induction H1 as [|y l1 Hy H1 IH1]; [reflexivity|].
  cbn. destruct (p y) eqn:Ey; [|assumption].
  rewrite (Hp y x Ey Ex) in Hy. discriminate.
Qed.

(** Sorting on a key that is a function of the element. *)
Lemma insert_by_decorated {K A} (lt : K -> K -> bool) (f : A -> K)
  (x : A) (l : list A) :
  insert_by (fun a b => lt (fst a) (fst b)) (f x, x)
    (map (fun y => (f y, y)) l)
  = map (fun y => (f y, y)) (insert_by (fun a b => lt (f a) (f b)) x l).
Proof.
  induction l as [|y l IH]; cbn; [reflexivity|].
  destruct (lt (f y) (f x)); cbn; [now rewrite IH | reflexivity].
Qed.

Lemma sort_on_map {K A} (lt : K -> K -> bool) (f : A -> K) (l : list A) :
  sort_on lt (map f l) l = stable_sort (fun a b => lt (f a) (f b)) l.
Proof.
  unfold sort_on.
  assert (E : combine (map f l) l = map (fun y => (f y, y)) l).
  { induction l as [|y l IH]; cbn; [reflexivity | now rewrite IH]. }
  rewrite E. clear E.
  assert (H : stable_sort (fun a b => lt (fst a) (fst b))
                (map (fun y => (f y, y)) l)
              = map (fun y => (f y, y))
                  (stable_sort (fun a b => lt (f a) (f b)) l)).
  { induction l as [|y l IH]; cbn; [reflexivity|].
    now rewrite IH, insert_by_decorated. }
  rewrite H, map_map. cbn. apply map_id.
Qed.

Lemma map_snd_combine {K A} (keys : list K) (l : list A) :
  length keys = length l -> map snd (combine keys l) = l.
Proof.
  revert keys. induction l as [|x l IH]; intros [|k keys] H;
    try discriminate; cbn; [reflexivity|].
  f_equal. apply IH. now injection H.
Qed.

Lemma sort_on_perm {K A} (lt : K -> K -> bool) (keys : list K) (l : list A) :
  length keys = length l -> Permutation (sort_on lt keys l) l.
Proof.
  intros H. unfold sort_on.
  rewrite (Permutation_map snd (stable_sort_perm _ (combine keys l))).
  now rewrite map_snd_combine.
Qed.

Lemma mapM_length {A B} (f : A -> result B) (l : list A) (ys : list B) :
  mapM f l = Ok ys -> length ys = length l.
Proof.
  intros H. apply mapM_Forall2 in H. symmetry.
  now apply Forall2_length in H.
Qed.

(** [merge_stats], read backwards. *)
Lemma merge_stats_cases (stats rss out : list value) :
  merge_stats stats rss = Ok out ->
  exists m keys,
    merge_by_word stats rss = Ok m
    /\ mapM sort_key (map snd m) = Ok keys
    /\ out = map VDict (sort_on pair_ltb keys (map snd m))
    /\ Permutation out (map VDict (map snd m)).
Proof.
  unfold merge_stats. intros H. inv_ok H. injection H as <-.
  do 2 eexists. repeat split; try eassumption.
  apply Permutation_map, sort_on_perm. now apply mapM_length in E0.
Qed.

(** ** Entries without a word *)

Lemma foldM_filter {A S} (f : S -> A -> result S) (keep : A -> bool)
  (l : list A) (s : S) :
  (forall s x, keep x = false -> f s x = Ok s) ->
  foldM f (filter keep l) s = foldM f l s.
Proof.
  intros Hf. revert s. induction l as [|x l IH]; intros s; cbn;
    [reflexivity|].
  destruct (keep x) eqn:E; cbn.
  - destruct (f s x); cbn; [apply IH | reflexivity].
  - rewrite (Hf s x E). cbn. apply IH.
Qed.

Lemma add_primary_skips (m : merged_map) (stat : value) :
  negb (falsy_word stat) = false -> add_primary m stat = Ok m.
Proof.
  unfold falsy_word, add_primary. destruct stat; try discriminate.
  cbn [py_get bind]. intros H. apply negb_false_iff in H. now rewrite H.
Qed.

Lemma merge_stats_filter (stats rss : list value) :
  merge_stats (filter (fun x => negb (falsy_word x)) stats) rss
  = merge_stats stats rss.
Proof.
  unfold merge_stats, merge_by_word.
  now rewrite (foldM_filter _ _ _ _ add_primary_skips).
Qed.

Lemma merged_words_truthy (stats rss : list value) (m : merged_map) :
  merge_by_word stats rss = Ok m ->
  Forall (fun d => truthy (dict_get d k_word VNone) = true) (map snd m).
Proof.
  apply merge_by_word_invariant; auto.
  intros md sd md' Hmd _ H. now rewrite (merge_into_keeps_word _ _ _ H).
Qed.

(** C10. When [rss_stats] holds an entry whose word is not the
    personal-feed key, every primary entry whose word is missing, empty
    or otherwise falsy is dropped: the result is the one obtained
    without these entries, and no entry of the returned [stats] has a
    falsy word, whatever the counts. *)
Theorem falsy_word_entries_are_dropped {rulebook : Type}
  (matches : option (str -> rulebook -> result value))
  (load : option (result rulebook))
  stats failed_ids new_titles id_to_name mode rank_threshold
  rss_stats rss_new_stats :
  (exists s, In s (or_nil rss_stats) /\ is_keyword s = Ok true) ->
  prepare_report_data matches load stats failed_ids new_titles id_to_name
    mode rank_threshold rss_stats rss_new_stats
  = prepare_report_data matches load
      (option_map (filter (fun x => negb (falsy_word x))) stats)
      failed_ids new_titles id_to_name mode rank_threshold
      rss_stats rss_new_stats
  /\ (forall p,
         prepare_report_data matches load stats failed_ids new_titles
           id_to_name mode rank_threshold rss_stats rss_new_stats = Ok p ->
         Forall (fun e => exists d w,
                     e = VDict d /\ dict_lookup k_word d = Some w
                     /\ truthy w = true)
                (p_stats p)).
Proof.
  intros (s & Hin & Hs). split.
  - unfold prepare_report_data.
    destruct (filterM is_personal (or_nil rss_stats)) as [personal|];
      [|reflexivity].
    cbn [bind].
    destruct (filterM is_keyword (or_nil rss_stats)) as [keyword|] eqn:Ek;
      [|reflexivity].
    cbn [bind]. pose proof (filterM_keeps _ _ _ _ Ek Hin Hs) as Hk.
    destruct keyword as [|k keyword]; [contradiction|]. cbn [is_nil].
    replace (or_nil (option_map (filter (fun x => negb (falsy_word x))) stats))
      with (filter (fun x => negb (falsy_word x)) (or_nil stats))
      by (destruct stats; reflexivity).
    now rewrite merge_stats_filter.
  - intros p H. apply prepare_runs_final_pass in H
      as (personal & keyword & stats' & _ & Ek & Hm & _ & H).
    pose proof (filterM_keeps _ _ _ _ Ek Hin Hs) as Hk.
    destruct keyword as [|k keyword]; [contradiction|]. cbn [is_nil] in Hm.
    inv_ok Hm. injection Hm as <-.
    apply merge_stats_cases in E as (m & keys & Hmw & _ & _ & Hperm).
    apply merged_words_truthy in Hmw.
    unfold process_stats in H. inv_ok H. injection H as <-.
    eapply mapM_concat_Forall; [eassumption|].
    intros stat g Hstat Hg. apply process_stat_emits in Hg
      as [-> | (c & w & pct & titles & ts & _ & _ & Hw & _ & _ & ->)].
    + constructor.
    + constructor; [|constructor]. do 2 eexists.
      split; [reflexivity|]. split; [reflexivity|].
      apply (Permutation_in _ Hperm) in Hstat.
      apply in_map_iff in Hstat as (d & <- & Hd).
      rewrite Forall_forall in Hmw. specialize (Hmw d Hd).
      cbn [py_getitem] in Hw. unfold dict_get in Hmw.
      destruct (dict_lookup k_word d); [|discriminate].
      now injection Hw as <-.
Qed.

(** ** The merged entry *)

Lemma count_value_int (d : dict) (c : Z) :
  count_value d = Some c ->
  py_int (py_or (dict_get d k_count (VInt 0)) (VInt 0)) = Ok c.
Proof.
  unfold count_value, dict_get, py_or.
  destruct (dict_lookup k_count d) as [v|]; [|now intros [= <-]].
  destruct v as [| [|] | z | f | s | l | l]; cbn [truthy];
    try discriminate; try (now intros [= <-]).
  - intros [= <-]. destruct (Z.eqb_spec z 0) as [->|]; reflexivity.
  - destruct (float_is_zero f); cbn [negb]; [now intros [= <-]|discriminate].
  - destruct s; cbn; [now intros [= <-]|discriminate].
  - destruct l; cbn; [now intros [= <-]|discriminate].
  - destruct l; cbn; [now intros [= <-]|discriminate].
Qed.

Lemma titles_value_iter (d : dict) (l : list value) :
  titles_value d = Some l ->
  py_iter (py_or (dict_get d k_titles (VList [])) (VList [])) = Ok l.
Proof.
  unfold titles_value, dict_get, py_or.
  destruct (dict_lookup k_titles d) as [v|]; [|now intros [= <-]].
  destruct v as [| [|] | z | f | s | t | t]; cbn [truthy];
    try discriminate; try (now intros [= <-]).
  - destruct (z =? 0); cbn [negb]; [now intros [= <-]|discriminate].
  - destruct (float_is_zero f); cbn [negb]; [now intros [= <-]|discriminate].
  - destruct s; cbn; [now intros [= <-]|discriminate].
  - intros [= <-]. destruct t; reflexivity.
  - destruct t; cbn; [now intros [= <-]|discriminate].
Qed.

Lemma position_value_int (d : dict) (p : Z) :
  position_value d = Some p ->
  dict_get d k_position (VInt 999) = VInt p.
Proof.
  unfold position_value, dict_get.
  destruct (dict_lookup k_position d) as [v|]; [|now intros [= <-]].
  destruct v; try discriminate. now intros [= <-].
Qed.

(** The fields of the copy after [merge_into], for entries with integer
    (or absent, or falsy) counts, list titles and integer positions. *)
Lemma merge_into_fields (md sd md' : dict) (cp cs pp ps : Z)
  (tp ts : list value) :
  count_value md = Some cp -> count_value sd = Some cs ->
  titles_value md = Some tp -> titles_value sd = Some ts ->
  position_value md = Some pp -> position_value sd = Some ps ->
  merge_into md (VDict sd) = Ok md' ->
  dict_lookup k_count md' = Some (VInt (cp + cs))
  /\ dict_lookup k_titles md' = Some (VList (tp ++ ts))
  /\ dict_lookup k_position md' = Some (VInt (Z.min pp ps)).
Proof.
  intros Hcp Hcs Htp Hts Hpp Hps H.
  apply merge_into_shape in H
    as (c1 & c2 & t1 & t2 & pos & E1 & E2 & E3 & E4 & E5 & Hshape).
  rewrite (count_value_int _ _ Hcp) in E1. injection E1 as <-.
  rewrite (count_value_int _ _ Hcs) in E2. injection E2 as <-.
  rewrite (titles_value_iter _ _ Htp) in E3. injection E3 as <-.
  rewrite (titles_value_iter _ _ Hts) in E4. injection E4 as <-.
  rewrite (position_value_int _ _ Hpp), (position_value_int _ _ Hps) in E5.
  cbn in E5. injection E5 as <-.
  destruct Hshape as [-> | [f ->]]; rewrite !dict_lookup_set; cbn;
    now repeat split.
Qed.

Lemma word_of_str_truthy (d : dict) (w : str) :
  w <> [] -> word_of (VDict d) = VStr w ->
  dict_get d k_word VNone = VStr w
  /\ truthy (dict_get d k_word VNone) = true.
Proof.
  cbn. intros Hw ->. split; [reflexivity|]. cbn. now destruct w.
Qed.

Lemma key_eqb_other (k : value) (w : str) :
  k <> VStr w -> key_eqb k (VStr w) = false.
Proof.
  intros H. destruct (key_eqb k (VStr w)) eqn:E; [|reflexivity].
  now apply key_eqb_str in E.
Qed.

(** Steps on other words leave the entry of [w] alone. *)
Lemma add_primary_other (w : str) (m m' : merged_map) (x : value) :
  word_of x <> VStr w -> add_primary m x = Ok m' ->
  kd_lookup (VStr w) m' = kd_lookup (VStr w) m.
Proof.
  intros Hx H. apply add_primary_cases in H
    as (d & -> & [[_ ->] | [_ ->]]); [reflexivity|].
  rewrite kd_lookup_set_str. now rewrite key_eqb_other.
Qed.

Lemma merge_rss_other (w : str) (m m' : merged_map) (x : value) :
  word_of x <> VStr w -> merge_rss m x = Ok m' ->
  kd_lookup (VStr w) m' = kd_lookup (VStr w) m.
Proof.
  intros Hx H. apply merge_rss_cases in H
    as (d & -> & [[_ ->] | [_ [[_ ->] | (md & md' & _ & _ & ->)]]]);
    [reflexivity| |]; rewrite kd_lookup_set_str; now rewrite key_eqb_other.
Qed.

Lemma foldM_other (w : str) (f : merged_map -> value -> result merged_map)
  (l : list value) (m m' : merged_map) :
  (forall m m' x, word_of x <> VStr w -> f m x = Ok m' ->
                  kd_lookup (VStr w) m' = kd_lookup (VStr w) m) ->
  no_word w l -> foldM f l m = Ok m' ->
  kd_lookup (VStr w) m' = kd_lookup (VStr w) m.
Proof.
  intros Hf Hl. revert m. induction Hl as [|x l Hx Hl IH]; intros m H;
    cbn in H.
  - now injection H as <-.
  - inv_ok H. rewrite (IH _ H). now apply (Hf m a x).
Qed.

(** The entry under a word after the first loop: the copy of the last
    primary entry with that word, if any. *)
Lemma primary_entry (w : str) (pre post : list value) (pd : dict)
  (m : merged_map) :
  w <> [] -> word_of (VDict pd) = VStr w -> no_word w post ->
  foldM add_primary (pre ++ VDict pd :: post) [] = Ok m ->
  kd_lookup (VStr w) m = Some pd.
Proof.
  intros Hw Hpd Hpost H. rewrite foldM_app in H. inv_ok H.
  cbn [foldM] in H. inv_ok H.
  rewrite (foldM_other w _ _ _ _ (add_primary_other w) Hpost H).
  apply add_primary_cases in E0 as (d & [= <-] & Hcase).
  destruct (word_of_str_truthy _ _ Hw Hpd) as [Hk Ht].
  destruct Hcase as [[Hf _] | [_ ->]]; [congruence|].
  rewrite Hk, kd_lookup_set_str. cbn. now rewrite str_eqb_refl.
Qed.

Lemma no_primary_entry (w : str) (stats : list value) (m : merged_map) :
  no_word w stats -> foldM add_primary stats [] = Ok m ->
  kd_lookup (VStr w) m = None.
Proof.
  intros Hs H.
  now rewrite (foldM_other w _ _ _ _ (add_primary_other w) Hs H).
Qed.

(** The entry under [w] after the second loop, when one secondary entry
    has that word. *)
Lemma secondary_entry (w : str) (rpre rpost : list value) (sd : dict)
  (m0 m : merged_map) :
  w <> [] -> word_of (VDict sd) = VStr w ->
  no_word w rpre -> no_word w rpost ->
  foldM merge_rss (rpre ++ VDict sd :: rpost) m0 = Ok m ->
  match kd_lookup (VStr w) m0 with
  | Some pd => exists md, merge_into pd (VDict sd) = Ok md
                          /\ kd_lookup (VStr w) m = Some md
  | None => kd_lookup (VStr w) m = Some sd
  end.
Proof.
  intros Hw Hsd Hpre Hpost H. rewrite foldM_app in H. inv_ok H.
  cbn [foldM] in H. inv_ok H.
  rewrite (foldM_other w _ _ _ _ (merge_rss_other w) Hpost H).
  rewrite <- (foldM_other w _ _ _ _ (merge_rss_other w) Hpre E).
  apply merge_rss_cases in E0 as (d & [= <-] & Hcase).
  destruct (word_of_str_truthy _ _ Hw Hsd) as [Hk Ht].
  rewrite Hk in Hcase.
  destruct Hcase as [[Hf _] | [_ [[Hl ->] | (md & md' & Hl & Hm & ->)]]].
  - congruence.
  - rewrite Hl, kd_lookup_set_str. cbn. now rewrite str_eqb_refl.
  - rewrite Hl. exists md'. split; [assumption|].
    rewrite kd_lookup_set_str. cbn. now rewrite str_eqb_refl.
Qed.


(** ** The order of the merged stats *)

Lemma sort_key_rankable (d : dict) :
  rankable d -> sort_key d = Ok (rank_key d).
Proof.
  intros [[c Hc] (p & Hp & Hp0)]. unfold sort_key, rank_key.
  rewrite (count_value_int _ _ Hc), Hc, Hp. cbn [bind].
  unfold position_value in Hp. unfold dict_get, py_or.
  destruct (dict_lookup k_position d) as [v|].
  - destruct v; try discriminate. injection Hp as ->. cbn.
    destruct (Z.eqb_spec p 0); [contradiction | reflexivity].
  - injection Hp as <-. reflexivity.
Qed.

Lemma rankable_merge (md sd md' : dict) :
  rankable md -> rankable sd ->
  merge_into md (VDict sd) = Ok md' -> rankable md'.
Proof.
  intros [_ (pp & Hpp & Hpp0)] [_ (ps & Hps & Hps0)] H.
  apply merge_into_shape in H
    as (c1 & c2 & t1 & t2 & pos & _ & _ & _ & _ & E5 & Hshape).
  rewrite (position_value_int _ _ Hpp), (position_value_int _ _ Hps) in E5.
  cbn in E5. injection E5 as <-.
  assert (Hc : dict_lookup k_count md' = Some (VInt (c1 + c2))
               /\ dict_lookup k_position md' = Some (VInt (Z.min pp ps))).
  { destruct Hshape as [-> | [f ->]]; rewrite !dict_lookup_set; cbn;
      now split. }
  destruct Hc as [Hc Hp]. split.
  - exists (c1 + c2). unfold count_value. now rewrite Hc.
  - exists (Z.min pp ps). unfold position_value. rewrite Hp.
    split; [reflexivity | lia].
Qed.

Lemma merged_rankable (stats rss : list value) (m : merged_map) :
  Forall rankable_input stats -> Forall rankable_input rss ->
  merge_by_word stats rss = Ok m ->
  Forall rankable (map snd m).
Proof.
  intros Hs Hr. rewrite Forall_forall in Hs, Hr.
  apply merge_by_word_invariant.
  - intros d Hin _. now apply (Hs _ Hin).
  - intros d Hin _. now apply (Hr _ Hin).
  - intros md sd md' Hmd Hin. apply rankable_merge; [assumption|].
    now apply (Hr _ Hin).
Qed.

Lemma pair_ltb_asym (a b : Z * Z) :
  pair_ltb a b = true -> pair_ltb b a = false.
Proof.
  unfold pair_ltb.
  rewrite orb_true_iff, orb_false_iff, !andb_true_iff, andb_false_iff,
    !Z.ltb_lt, !Z.ltb_ge, !Z.eqb_eq, Z.eqb_neq. lia.
Qed.

Lemma pair_leb_trans (a b c : Z * Z) :
  pair_ltb b a = false -> pair_ltb c b = false -> pair_ltb c a = false.
Proof.
  unfold pair_ltb.
  rewrite !orb_false_iff, !andb_false_iff, !Z.ltb_ge, !Z.eqb_neq. lia.
Qed.

Lemma ranked_before_key (a b : dict) :
  rankable a -> rankable b ->
  pair_ltb (rank_key b) (rank_key a) = false -> ranked_before a b.
Proof.
  intros [[ca Hca] (pa & Hpa & _)] [[cb Hcb] (pb & Hpb & _)].
  unfold rank_key, ranked_before, pair_ltb.
  rewrite Hca, Hcb, Hpa, Hpb. cbn [fst snd].
  rewrite orb_false_iff, andb_false_iff, !Z.ltb_ge, Z.eqb_neq. intros H.
  exists ca, pa, cb, pb. repeat split; lia.
Qed.

Lemma has_rank_key (c p : Z) (a b : dict) :
  has_rank c p a = true -> has_rank c p b = true ->
  pair_ltb (rank_key a) (rank_key b) = false.
Proof.
  unfold has_rank, rank_key, pair_ltb.
  destruct (count_value a), (position_value a); try discriminate.
  destruct (count_value b), (position_value b); try discriminate.
  rewrite !andb_true_iff, !Z.eqb_eq. intros [-> ->] [-> ->]. cbn [fst snd].
  rewrite !Z.ltb_irrefl, Z.eqb_refl. reflexivity.
Qed.

Lemma StronglySorted_weaken {A} (R R' : A -> A -> Prop) (P : A -> Prop)
  (l : list A) :
  (forall a b, P a -> P b -> R a b -> R' a b) ->
  Forall P l -> StronglySorted R l -> StronglySorted R' l.
Proof.
  intros HR HP Hs. induction Hs as [|x l Hs IH Hx]; [constructor|].
  inversion HP as [|? ? Px Pl]; subst. constructor; [now apply IH|].
  rewrite Forall_forall in *. intros y Hy. apply HR; auto.
Qed.

(** C4, as the code has it. For entries with integer counts (absent or
    falsy reading as 0) and integer positions other than 0 (absent
    reading as 999), the merged stats are the copies of
    [merged_by_word], sorted by descending count with ties broken by
    ascending position, entries of equal count and position staying in
    insertion order. Entries A (count 5, no position), B (count 5,
    position 1) and C (count 7) come out in the order C, B, A. *)
Theorem merged_stats_are_sorted :
  (forall (stats rss out : list value),
      Forall rankable_input stats -> Forall rankable_input rss ->
      merge_stats stats rss = Ok out ->
      exists m ds,
        merge_by_word stats rss = Ok m
        /\ out = map VDict ds
        /\ Permutation ds (map snd m)
        /\ StronglySorted ranked_before ds
        /\ (forall c p,
               filter (has_rank c p) ds = filter (has_rank c p) (map snd m)))
  /\ merge_stats [entry_A; entry_B] [entry_C]
     = Ok [entry_C; entry_B; entry_A].
Proof.
  split; [|vm_compute; reflexivity].
  intros stats rss out Hs Hr H. unfold merge_stats in H. inv_ok H.
  injection H as <-. rename a into m.
  pose proof (merged_rankable _ _ _ Hs Hr E) as Hrank.
  assert (Hkeys : a0 = map rank_key (map snd m)).
  { assert (Hk : mapM sort_key (map snd m) = Ok (map rank_key (map snd m))).
    { apply mapM_pure. eapply Forall_impl; [|exact Hrank].
      apply sort_key_rankable. }
    congruence. }
  subst a0. rewrite sort_on_map.
  set (lt := fun a b : dict => pair_ltb (rank_key a) (rank_key b)).
  exists m, (stable_sort lt (map snd m)).
  split; [assumption|]. split; [reflexivity|].
  split; [apply stable_sort_perm|]. split.
  - apply (StronglySorted_weaken (fun a b => lt b a = false) _ rankable).
    + intros a b. apply ranked_before_key.
    + rewrite Forall_forall in *. intros d Hd. apply Hrank.
      now apply (Permutation_in _ (stable_sort_perm lt (map snd m))).
    + apply stable_sort_sorted.
      * intros a b. apply pair_ltb_asym.
      * intros a b c. apply pair_leb_trans.
  - intros c p. apply stable_sort_stable. intros a b. apply has_rank_key.
Qed.

(** ** Personal feeds *)

(** *** The order on feed names *)

Lemma str_ltb_irrefl (a : str) : str_ltb a a = false.
Proof.
  induction a as [|x a IH]; cbn; [reflexivity|].
  now rewrite Z.ltb_irrefl, Z.eqb_refl, IH.
Qed.

Lemma str_ltb_asym (a b : str) : str_ltb a b = true -> str_ltb b a = false.
Proof.
  revert b. induction a as [|x a IH]; intros [|y b]; cbn; try congruence.
  rewrite orb_true_iff, orb_false_iff, andb_true_iff, andb_false_iff,
    Z.ltb_lt, Z.ltb_ge, Z.eqb_eq, Z.eqb_neq.
  intros [H | [-> H]]; [lia|]. split; [lia|]. right. now apply IH.
Qed.

Lemma str_ltb_trans (a b c : str) :
  str_ltb a b = true -> str_ltb b c = true -> str_ltb a c = true.
Proof.
  revert b c. induction a as [|x a IH]; intros [|y b] [|z c]; cbn;
    try congruence.
  rewrite !orb_true_iff, !andb_true_iff, !Z.ltb_lt, !Z.eqb_eq.
  intros [H1 | [-> H1]] [H2 | [-> H2]]; try (left; lia).
  right. split; [reflexivity|]. now apply (IH b).
Qed.

Lemma str_ltb_total (a b : str) :
  str_ltb a b = false -> str_ltb b a = false -> a = b.
Proof.
  revert b. induction a as [|x a IH]; intros [|y b]; cbn; try congruence.
  rewrite !orb_false_iff, !andb_false_iff, !Z.ltb_ge, !Z.eqb_neq.
  intros [H1 H1'] [H2 H2']. assert (x = y) by lia. subst y.
  f_equal. apply IH; [destruct H1' | destruct H2']; congruence.
Qed.

Lemma str_leb_trans (a b c : str) :
  str_ltb b a = false -> str_ltb c b = false -> str_ltb c a = false.
Proof.
  intros H1 H2. destruct (str_ltb c a) eqn:E; [|reflexivity].
  destruct (str_ltb a b) eqn:E'.
  - rewrite (str_ltb_trans _ _ _ E E') in H2. discriminate.
  - rewrite (str_ltb_total _ _ E' H1) in E. congruence.
Qed.

(** *** The order on buckets *)

Lemma bucket_ltb_asym (a b : bucket) :
  bucket_ltb a b = true -> bucket_ltb b a = false.
Proof.
  unfold bucket_ltb.
  destruct (Z.eqb_spec (latest_rank a) (latest_rank b)) as [Er|Nr];
    destruct (Z.eqb_spec (latest_rank b) (latest_rank a)); try lia; cbn [negb].
  - destruct (Z.eqb_spec (- len (snd a)) (- len (snd b)));
      destruct (Z.eqb_spec (- len (snd b)) (- len (snd a))); try lia;
      cbn [negb].
    + destruct (str_eqb (fst a) (fst b)) eqn:En; [discriminate|].
      intros H. rewrite (str_ltb_asym _ _ H).
      now destruct (str_eqb (fst b) (fst a)).
    + rewrite Z.ltb_lt, Z.ltb_ge. lia.
  - rewrite Z.ltb_lt, Z.ltb_ge. lia.
Qed.

Lemma bucket_before_test (a b : bucket) :
  bucket_ltb b a = false <-> bucket_before a b.
Proof.
  unfold bucket_ltb, bucket_before.
  destruct (Z.eqb_spec (latest_rank b) (latest_rank a)) as [Er|Nr];
    cbn [negb].
  - destruct (Z.eqb_spec (- len (snd b)) (- len (snd a))) as [El|Nl];
      cbn [negb].
    + destruct (str_eqb (fst b) (fst a)) eqn:En.
      * apply str_eqb_eq in En. rewrite En, str_ltb_irrefl.
        split; [intros _; right|reflexivity].
        split; [lia|]. right. split; [lia | reflexivity].
      * split.
        -- intros H. right. split; [lia|]. right. split; [lia | assumption].
        -- intros [H | [_ [H | [_ H]]]]; [lia | lia | assumption].
    + rewrite Z.ltb_ge. split.
      * intros H. right. split; [lia|]. left. lia.
      * intros [H | [_ [H | [H _]]]]; lia.
  - rewrite Z.ltb_ge. split; [intros H; left; lia|].
    intros [H | [H _]]; lia.
Qed.

Lemma bucket_leb_trans (a b c : bucket) :
  bucket_ltb b a = false -> bucket_ltb c b = false ->
  bucket_ltb c a = false.
Proof.
  rewrite !bucket_before_test. unfold bucket_before.
  intros [H1 | [E1 [H1 | [L1 S1]]]] [H2 | [E2 [H2 | [L2 S2]]]];
    try (left; lia); right; (split; [lia|]); try (left; lia).
  right. split; [lia|]. now apply (str_leb_trans _ (fst b)).
Qed.

(** *** Sorting through an embedding *)

Lemma insert_by_map {A B} (lt : A -> A -> bool) (lt' : B -> B -> bool)
  (h : A -> B) (x : A) (l : list A) :
  (forall a b, lt' (h a) (h b) = lt a b) ->
  insert_by lt' (h x) (map h l) = map h (insert_by lt x l).
Proof.
  intros H. induction l as [|y l IH]; cbn; [reflexivity|].
  rewrite H. destruct (lt y x); cbn; [now rewrite IH | reflexivity].
Qed.

Lemma stable_sort_map {A B} (lt : A -> A -> bool) (lt' : B -> B -> bool)
  (h : A -> B) (l : list A) :
  (forall a b, lt' (h a) (h b) = lt a b) ->
  stable_sort lt' (map h l) = map h (stable_sort lt l).
Proof.
  intros H. induction l as [|x l IH]; cbn; [reflexivity|].
  now rewrite IH, (insert_by_map lt).
Qed.

Lemma insert_byM_map {A B} (lt : A -> A -> bool)
  (ltM : B -> B -> result bool) (h : A -> B) (x : A) (l : list A) :
  (forall a b, ltM (h a) (h b) = Ok (lt a b)) ->
  insert_byM ltM (h x) (map h l) = Ok (map h (insert_by lt x l)).
Proof.
  intros H. induction l as [|y l IH]; cbn; [reflexivity|].
  rewrite H. cbn [bind]. destruct (lt y x); [|reflexivity].
  now rewrite IH.
Qed.

Lemma stable_sortM_map {A B} (lt : A -> A -> bool)
  (ltM : B -> B -> result bool) (h : A -> B) (l : list A) :
  (forall a b, ltM (h a) (h b) = Ok (lt a b)) ->
  stable_sortM ltM (map h l) = Ok (map h (stable_sort lt l)).
Proof.
  intros H. induction l as [|x l IH]; cbn; [reflexivity|].
  rewrite IH. cbn [bind]. now apply insert_byM_map.
Qed.

Lemma enumerate_from_map {A B} (h : A -> B) (i : Z) (l : list A) :
  enumerate_from i (map h l)
  = map (fun ib => (fst ib, h (snd ib))) (enumerate_from i l).
Proof.
  revert i. induction l as [|x l IH]; intros i; cbn; [reflexivity|].
  now rewrite IH.
Qed.

Lemma enumerate_from_nth {A} (l : list A) (i : Z) (n : nat) (x : A) :
  nth_error l n = Some x ->
  nth_error (enumerate_from i l) n = Some (i + Z.of_nat n, x).
Proof.
  revert i n. induction l as [|y l IH]; intros i [|n]; cbn;
    try discriminate.
  - intros [= ->]. do 2 f_equal. lia.
  - intros H. rewrite (IH (i + 1) n H). do 2 f_equal. lia.
Qed.

Lemma sort_on_map2 {K A B} (lt : K -> K -> bool) (f : A -> K) (h : A -> B)
  (l : list A) :
  sort_on lt (map f l) (map h l)
  = map h (stable_sort (fun a b => lt (f a) (f b)) l).
Proof.
  unfold sort_on.
  assert (E : combine (map f l) (map h l) = map (fun y => (f y, h y)) l).
  { induction l as [|y l IH]; cbn; [reflexivity | now rewrite IH]. }
  rewrite E.
  rewrite (stable_sort_map (fun a b => lt (f a) (f b))) by reflexivity.
  now rewrite map_map.
Qed.

Lemma mapM_map_pure {A B C} (f : B -> result C) (h : A -> B) (g : A -> C)
  (l : list A) :
  Forall (fun x => f (h x) = Ok (g x)) l -> mapM f (map h l) = Ok (map g l).
Proof.
  induction 1 as [|x l Hx Hl IH]; cbn; [reflexivity|].
  now rewrite Hx, IH.
Qed.

(** *** Reading the titles *)

Lemma dict_titles_typed (l : list value) :
  forallb (fun t => match t with VDict td => title_ok td | _ => false end) l
  = true ->
  let tds := flat_map (fun t => match t with VDict td => [td] | _ => [] end) l in
  l = map VDict tds /\ Forall (fun d => title_ok d = true) tds.
Proof.
  induction l as [|t l IH]; cbn; [intros _; split; [reflexivity|constructor]|].
  destruct t; try discriminate. rewrite andb_true_iff. intros [Ht Hl].
  destruct (IH Hl) as [E F]. cbn. split; [now f_equal | now constructor].
Qed.

Lemma titles_in_of (x : value) (tds : list dict) :
  titles_in x = Some tds ->
  titles_of x = Ok (map VDict tds)
  /\ Forall (fun d => title_ok d = true) tds.
Proof.
  unfold titles_in, titles_of. destruct x as [| | | | | |d]; try discriminate.
  cbn [py_get bind]. unfold dict_get.
  destruct (dict_lookup k_titles d) as [v|].
  - destruct v as [| | | | |l|]; try discriminate.
    + intros [= <-]. split; [reflexivity | constructor].
    + destruct (forallb _ l) eqn:E; [|discriminate]. intros [= <-].
      destruct (dict_titles_typed l E) as [El F]. split; [|assumption].
      rewrite <- El. unfold py_or. destruct l; reflexivity.
  - intros [= <-]. split; [reflexivity | constructor].
Qed.

Lemma all_titles_typed (stats : list value) (per_stat : list (list dict)) :
  Forall2 (fun x ts => titles_in x = Some ts) stats per_stat ->
  mapM titles_of stats = Ok (map (map VDict) per_stat)
  /\ Forall (fun d => title_ok d = true) (concat per_stat).
Proof.
  induction 1 as [|x ts stats per_stat Hx Hl [IH1 IH2]]; cbn.
  - split; [reflexivity | constructor].
  - destruct (titles_in_of _ _ Hx) as [E F]. rewrite E, IH1. cbn.
    split; [reflexivity | now apply Forall_app].
Qed.

(** *** Feed names and rank keys of well-formed titles *)

Lemma feed_of_ok (d : dict) :
  title_ok d = true ->
  py_or (dict_get d k_source_name (VStr [])) (VStr (utf8 "RSS"))
  = VStr (feed_name d).
Proof.
  unfold title_ok, feed_name, dict_get, py_or.
  destruct (dict_lookup k_source_name d) as [v|]; [|reflexivity].
  destruct v as [| | | |s| |]; try discriminate; try reflexivity.
  destruct s; reflexivity.
Qed.

Lemma min_from_ints (rs : list value) (m : Z) :
  forallb is_int rs = true ->
  min_from (VInt m) rs = Ok (VInt (fold_left Z.min (map int_of rs) m)).
Proof.
  revert m. induction rs as [|r rs IH]; intros m; cbn; [reflexivity|].
  destruct r; try discriminate. intros H. cbn.
  replace (if match z ?= m with Lt => true | _ => false end
           then VInt z else VInt m) with (VInt (Z.min m z)).
  - now apply IH.
  - destruct (Z.compare_spec z m); f_equal; lia.
Qed.

Lemma rank_key_ok (d : dict) :
  title_ok d = true -> _rank_key (VDict d) = Ok (min_rank d).
Proof.
  unfold title_ok, _rank_key, min_rank. cbn [py_get bind]. unfold dict_get.
  rewrite andb_true_iff. intros [_ H].
  destruct (dict_lookup k_ranks d) as [v|]; [|reflexivity].
  destruct v as [| | | | |rs|]; try discriminate; try reflexivity.
  destruct rs as [|r rs]; [reflexivity|]. cbn [truthy negb py_iter bind py_min].
  cbn in H. destruct r; try discriminate. cbn [int_of].
  now rewrite (min_from_ints rs z H).
Qed.

(** *** Building the buckets *)

Lemma setdefault_append_typed (name : str) (d : dict) (bs : list bucket) :
  setdefault_append (VStr name) (VDict d) (map bucket_feed bs)
  = map bucket_feed (bucket_add name d bs).
Proof.
  induction bs as [|[n items] bs IH]; cbn; [reflexivity|].
  destruct (str_eqb n name); cbn; [|now rewrite IH].
  unfold bucket_feed. cbn. now rewrite map_app.
Qed.

Lemma add_to_feed_typed (d : dict) (bs : list bucket) :
  title_ok d = true ->
  add_to_feed (map bucket_feed bs) (VDict d)
  = Ok (map bucket_feed (bucket_add (feed_name d) d bs)).
Proof.
  intros H. unfold add_to_feed. cbn [py_get bind].
  rewrite (feed_of_ok d H). cbn [check_hashable hashable bind].
  now rewrite setdefault_append_typed.
Qed.

Lemma foldM_add_typed (ts : list dict) (bs : list bucket) :
  Forall (fun d => title_ok d = true) ts ->
  foldM add_to_feed (map VDict ts) (map bucket_feed bs)
  = Ok (map bucket_feed
          (fold_left (fun bs d => bucket_add (feed_name d) d bs) ts bs)).
Proof.
  intros H. revert bs. induction H as [|d ts Hd Hts IH]; intros bs;
    cbn [map foldM fold_left]; [reflexivity|].
  rewrite (add_to_feed_typed d bs Hd). cbn [bind]. apply IH.
Qed.

Lemma bucket_add_names (name : str) (d : dict) (bs : list bucket) :
  (In name (map fst bs) ->
   map fst (bucket_add name d bs) = map fst bs)
  /\ (~ In name (map fst bs) ->
      map fst (bucket_add name d bs) = map fst bs ++ [name]).
Proof.
  induction bs as [|[n items] bs [IH1 IH2]]; cbn.
  - split; [contradiction | reflexivity].
  - destruct (str_eqb n name) eqn:E; cbn.
    + apply str_eqb_eq in E. split; [reflexivity|]. intros H. exfalso. auto.
    + apply str_eqb_neq in E. split; intros H; f_equal.
      * apply IH1. destruct H; [contradiction | assumption].
      * apply IH2. auto.
Qed.

Lemma bucket_add_In (name : str) (d : dict) (bs : list bucket)
  (n : str) (items : list dict) :
  NoDup (map fst bs) ->
  In (n, items) (bucket_add name d bs) ->
  (n <> name /\ In (n, items) bs)
  \/ (n = name
      /\ ((exists items0, In (name, items0) bs /\ items = items0 ++ [d])
          \/ (~ In name (map fst bs) /\ items = [d]))).
Proof.
  induction bs as [|[n' items'] bs IH]; cbn; intros Hnd Hin.
  - destruct Hin as [[= <- <-]|[]]. right. split; [reflexivity|].
    right. split; [tauto | reflexivity].
  - inversion Hnd as [|? ? Hn' Hnd']; subst.
    destruct (str_eqb n' name) eqn:E.
    + apply str_eqb_eq in E. subst n'. destruct Hin as [[= <- <-] | Hin].
      * right. split; [reflexivity|]. left. exists items'. split; auto.
      * left. split; [|now right]. intros ->. apply Hn'.
        now apply (in_map fst) in Hin.
    + apply str_eqb_neq in E. destruct Hin as [[= <- <-] | Hin].
      * left. split; [assumption | now left].
      * destruct (IH Hnd' Hin) as [[Hn Hi] | [-> [(i0 & Hi & ->) | [Hno ->]]]].
        -- left. split; [assumption | now right].
        -- right. split; [reflexivity|]. left. exists i0. split; auto.
        -- right. split; [reflexivity|]. right. split; [|reflexivity].
           intros [H|H]; [now apply E | now apply Hno].
Qed.

Lemma in_feed_iff (n : str) (d : dict) : in_feed n d = true <-> feed_name d = n.
Proof. unfold in_feed. apply str_eqb_eq. Qed.

Lemma filter_nil_iff {A} (p : A -> bool) (l : list A) :
  (forall x, In x l -> p x = false) -> filter p l = [].
Proof.
  induction l as [|x l IH]; cbn; intros H; [reflexivity|].
  rewrite (H x) by now left. apply IH. intros y Hy. apply H. now right.
Qed.

Lemma bucket_add_grouped (ts : list dict) (d : dict) (bs : list bucket) :
  grouped ts bs -> grouped (ts ++ [d]) (bucket_add (feed_name d) d bs).
Proof.
  intros (Hnd & Hitems & Hcover).
  destruct (bucket_add_names (feed_name d) d bs) as [Hn1 Hn2].
  destruct (in_dec (list_eq_dec Z.eq_dec) (feed_name d) (map fst bs))
    as [Hin|Hout].
  - split; [now rewrite (Hn1 Hin)|]. split.
    + intros n items H.
      apply (bucket_add_In _ _ _ _ _ Hnd) in H
        as [[Hne Hi] | [-> [(i0 & Hi & ->) | [Hno ->]]]].
      * destruct (Hitems _ _ Hi) as [H1 H2]. split; [assumption|].
        rewrite filter_app. cbn [filter].
        destruct (in_feed n d) eqn:E;
          [apply in_feed_iff in E; congruence|].
        now rewrite app_nil_r.
      * destruct (Hitems _ _ Hi) as [H1 H2]. split.
        -- intros H. now apply app_eq_nil in H as [_ H].
        -- rewrite filter_app. cbn [filter].
           rewrite (proj2 (in_feed_iff _ d) eq_refl). now rewrite <- H2.
      * contradiction.
    + intros x Hx. rewrite (Hn1 Hin). apply in_app_or in Hx as [Hx|[<-|[]]];
        auto.
  - split.
    { rewrite (Hn2 Hout). apply NoDup_app; [assumption | repeat constructor;
        intros [] | ]. intros x Hx [<-|[]]. contradiction. }
    split.
    + intros n items H.
      apply (bucket_add_In _ _ _ _ _ Hnd) in H
        as [[Hne Hi] | [-> [(i0 & Hi & ->) | [Hno ->]]]].
      * destruct (Hitems _ _ Hi) as [H1 H2]. split; [assumption|].
        rewrite filter_app. cbn [filter].
        destruct (in_feed n d) eqn:E;
          [apply in_feed_iff in E; congruence|].
        now rewrite app_nil_r.
      * exfalso. apply Hout. now apply (in_map fst) in Hi.
      * split; [discriminate|]. rewrite filter_app. cbn [filter].
        rewrite (proj2 (in_feed_iff _ d) eq_refl).
        rewrite filter_nil_iff; [reflexivity|].
        intros x Hx. destruct (in_feed (feed_name d) x) eqn:E;
          [|reflexivity].
        apply in_feed_iff in E. exfalso. apply Hout. rewrite <- E. auto.
    + intros x Hx. rewrite (Hn2 Hout). apply in_or_app.
      apply in_app_or in Hx as [Hx|[<-|[]]]; [left; auto | right; now left].
Qed.

Lemma fold_grouped (ts done : list dict) (bs : list bucket) :
  grouped done bs ->
  grouped (done ++ ts)
    (fold_left (fun bs d => bucket_add (feed_name d) d bs) ts bs).
Proof.
  revert done bs. induction ts as [|d ts IH]; intros done bs H; cbn.
  - now rewrite app_nil_r.
  - replace (done ++ d :: ts) with ((done ++ [d]) ++ ts)
      by now rewrite <- app_assoc.
    apply IH. now apply bucket_add_grouped.
Qed.

(** *** Summaries and their order *)

Lemma bind_eq {A B} (c : result A) (k : A -> result B) (a : A)
  (r : result B) :
  c = Ok a -> k a = r -> bind c k = r.
Proof. now intros -> <-. Qed.

Lemma summarize_sorted (n : str) (sorted : list dict) :
  Forall (fun d => title_ok d = true) sorted ->
  bind (mapM clean_item (map VDict sorted)) (fun cleaned_items =>
  bind (match map VDict sorted with
        | first :: _ => _rank_key first
        | [] => Ok 999
        end) (fun latest_rank =>
  Ok (VStr n, cleaned_items, latest_rank)))
  = Ok (bucket_summary (n, sorted)).
Proof.
  intros Hs.
  rewrite (mapM_map_pure clean_item VDict (fun d => VDict (cleaned d))).
  2:{ apply Forall_forall. reflexivity. }
  cbn [bind]. unfold bucket_summary, latest_rank. cbn [fst snd].
  destruct sorted as [|first sorted]; cbn [map bind]; [reflexivity|].
  inversion Hs; subst. now rewrite rank_key_ok.
Qed.

Lemma summarize_feed_typed (b : bucket) :
  Forall (fun d => title_ok d = true) (snd b) ->
  summarize_feed (bucket_feed b)
  = Ok (bucket_summary
          (fst b, stable_sort (fun x y => min_rank x <? min_rank y) (snd b))).
Proof.
  destruct b as [n items]. cbn [fst snd]. intros Hok.
  unfold summarize_feed, bucket_feed. cbn [fst snd].
  rewrite (mapM_map_pure _rank_key VDict min_rank).
  2:{ eapply Forall_impl; [|exact Hok]. apply rank_key_ok. }
  cbn [bind]. rewrite sort_on_map2. apply summarize_sorted.
  rewrite Forall_forall in *. intros d Hd. apply Hok.
  exact (Permutation_in _
           (stable_sort_perm (fun x y => min_rank x <? min_rank y) items)
           Hd).
Qed.

Lemma len_map {A B} (f : A -> B) (l : list A) : len (map f l) = len l.
Proof. unfold len. now rewrite length_map. Qed.

Lemma summary_lt_typed (a b : bucket) :
  summary_lt (bucket_summary a) (bucket_summary b) = Ok (bucket_ltb a b).
Proof.
  unfold summary_lt, bucket_summary, bucket_ltb. rewrite !len_map.
  destruct (negb (latest_rank a =? latest_rank b)); [reflexivity|].
  destruct (negb (- len (snd a) =? - len (snd b))); [reflexivity|].
  cbn [key_eqb as_number]. destruct (str_eqb (fst a) (fst b)); reflexivity.
Qed.

Lemma feed_entry_typed (i : Z) (b : bucket) :
  feed_entry (i, bucket_summary b) = bucket_entry i b.
Proof.
  unfold feed_entry, bucket_summary, bucket_entry. now rewrite len_map.
Qed.

Lemma cleaned_fields (d : dict) :
  dict_lookup k_ranks (cleaned d) = Some (VList [])
  /\ dict_lookup k_source_name (cleaned d) = Some (VStr []).
Proof.
  unfold cleaned. rewrite !dict_lookup_set. split; reflexivity.
Qed.

Lemma Zltb_sorted_le (items : list dict) :
  StronglySorted (fun a b => (min_rank b <? min_rank a) = false) items ->
  StronglySorted (fun a b => min_rank a <= min_rank b) items.
Proof.
  apply (StronglySorted_weaken _ _ (fun _ => True)).
  - intros a b _ _ H. now apply Z.ltb_ge in H.
  - apply Forall_forall. auto.
Qed.

(** C5. For a personal-feed group whose titles are well-formed entries,
    regrouping succeeds and emits one entry per feed name (a source name
    that is empty, absent or [None] counting as ["RSS"]). The entry at
    ordinal [i] has the feed name as [word], the number of items as
    [count], [i] as [position], 0 as [percentage], and for titles the
    display copies of the feed's items, which are the titles of that
    feed sorted stably by ascending minimum rank (no ranks counting as
    999). The entries are ordered by latest rank ascending, then item
    count descending, then feed name ascending, the latest rank being
    the minimum rank of the first sorted item. Every display copy has
    empty [ranks] and empty [source_name]. With Feed1 holding items
    ranked 5 and 2 and Feed2 one item ranked 1, Feed2 comes first and
    Feed1's item of rank 2 comes before its item of rank 5. *)
Theorem personal_feeds_are_regrouped :
  (forall (stats : list value) (per_stat : list (list dict)),
      Forall2 (fun x ts => titles_in x = Some ts) stats per_stat ->
      exists (buckets : list bucket) (out : list value),
        regroup_personal stats = Ok out
        /\ length out = length buckets
        /\ (forall i b,
               nth_error buckets i = Some b ->
               nth_error out i = Some (bucket_entry (Z.of_nat i) b))
        /\ NoDup (map fst buckets)
        /\ (forall d, In d (concat per_stat) ->
                      In (feed_name d) (map fst buckets))
        /\ (forall n items,
               In (n, items) buckets ->
               items <> []
               /\ Permutation items (filter (in_feed n) (concat per_stat))
               /\ StronglySorted (fun a b => min_rank a <= min_rank b) items
               /\ (forall r,
                      filter (fun d => min_rank d =? r) items
                      = filter (fun d => min_rank d =? r)
                          (filter (in_feed n) (concat per_stat))))
        /\ StronglySorted bucket_before buckets)
  /\ (forall d,
         dict_lookup k_ranks (cleaned d) = Some (VList [])
         /\ dict_lookup k_source_name (cleaned d) = Some (VStr []))
  /\ regroup_personal [personal_stat]
     = Ok [ bucket_entry 0 (utf8 "Feed2", [feed2_rank1]);
            bucket_entry 1 (utf8 "Feed1", [feed1_rank2; feed1_rank5]) ].
Proof.
  split; [|split; [apply cleaned_fields | vm_compute; reflexivity]].
  intros stats per_stat Hstats.
  destruct (all_titles_typed _ _ Hstats) as [Hread Hok].
  set (titles := concat per_stat) in *.
  set (rank_lt := fun x y : dict => min_rank x <? min_rank y).
  set (bs0 := fold_left (fun bs d => bucket_add (feed_name d) d bs) titles []).
  assert (Hg : grouped titles bs0).
  { apply (fold_grouped titles [] []). unfold grouped.
    split; [constructor|]. split; [intros ? ? [] | intros ? []]. }
  destruct Hg as (Hnd & Hitems & Hcover).
  set (sorted := map (fun b : bucket =>
                        (fst b, stable_sort rank_lt (snd b))) bs0).
  set (buckets := stable_sort bucket_ltb sorted).
  assert (Hnames : map fst sorted = map fst bs0).
  { unfold sorted. rewrite map_map. reflexivity. }
  assert (Hperm : Permutation buckets sorted) by apply stable_sort_perm.
  exists buckets, (map (fun ib => bucket_entry (fst ib) (snd ib))
                     (enumerate buckets)).
  split.
  { unfold regroup_personal.
    eapply bind_eq; [exact Hread|]. cbv beta.
    eapply bind_eq.
    { rewrite <- concat_map. exact (foldM_add_typed titles [] Hok). }
    cbv beta. eapply bind_eq.
    { apply (mapM_map_pure summarize_feed bucket_feed
               (fun b => bucket_summary
                           (fst b, stable_sort rank_lt (snd b)))).
      apply Forall_forall. intros [n items] Hb.
      apply summarize_feed_typed. cbn [snd].
      destruct (Hitems _ _ Hb) as [_ ->].
      apply Forall_forall. intros d Hd. apply filter_In in Hd as [Hd _].
      rewrite Forall_forall in Hok. now apply Hok. }
    cbv beta. eapply bind_eq.
    { replace (map (fun b : bucket =>
                      bucket_summary (fst b, stable_sort rank_lt (snd b)))
                 (fold_left (fun bs d => bucket_add (feed_name d) d bs)
                    titles []))
        with (map bucket_summary sorted)
        by (unfold sorted; now rewrite map_map).
      apply (stable_sortM_map bucket_ltb summary_lt bucket_summary).
      apply summary_lt_typed. }
    cbv beta. f_equal. unfold enumerate.
    rewrite enumerate_from_map, map_map. apply map_ext.
    intros [i b]. apply feed_entry_typed. }
  split; [unfold enumerate; rewrite length_map; clear;
          generalize 0; induction buckets; intros; cbn; congruence|].
  split.
  { intros i b Hb. rewrite nth_error_map. unfold enumerate.
    now rewrite (enumerate_from_nth _ 0 _ _ Hb). }
  split.
  { apply (Permutation_NoDup (l := map fst sorted)).
    - apply Permutation_map. now symmetry.
    - now rewrite Hnames. }
  split.
  { intros d Hd.
    apply (Permutation_in _ (Permutation_map fst (Permutation_sym Hperm))).
    rewrite Hnames. now apply Hcover. }
  split.
  { intros n items Hin. apply (Permutation_in _ Hperm) in Hin.
    apply in_map_iff in Hin as ([n' items'] & [= <- <-] & Hb).
    cbn [fst snd]. destruct (Hitems _ _ Hb) as [Hne ->].
    set (fs := filter (in_feed n') titles) in *.
    pose proof (stable_sort_perm rank_lt fs) as Hp. repeat split.
    - intros E. rewrite E in Hp. apply Permutation_nil in Hp. congruence.
    - assumption.
    - apply Zltb_sorted_le. apply stable_sort_sorted.
      + intros a b. unfold rank_lt. rewrite Z.ltb_lt, Z.ltb_ge. lia.
      + intros a b c. unfold rank_lt. rewrite !Z.ltb_ge. lia.
    - intros r. apply stable_sort_stable. intros a b Ha Hb'.
      apply Z.eqb_eq in Ha, Hb'. unfold rank_lt. apply Z.ltb_ge. lia. }
  apply (StronglySorted_weaken (fun a b => bucket_ltb b a = false) _
           (fun _ => True)).
  - intros a b _ _. apply bucket_before_test.
  - apply Forall_forall. auto.
  - apply stable_sort_sorted.
    + apply bucket_ltb_asym.
    + apply bucket_leb_trans.
Qed.

(** The slip the ordering rule above leaves aside: the sort key reads
    the position with [or 999], so position 0 counts as 999 and A at
    position 0 comes after B at position 1. *)
Example position_zero_sorts_last :
  merge_stats [entry_A0; entry_B] [entry_C]
  = Ok [entry_C; entry_B; entry_A0].
Proof. vm_compute. reflexivity. Qed.

(** With a keyword RSS entry, the primary entry without a word is gone
    from the report although its count is 9. *)
Example wordless_entry_is_dropped :
  prepare_report_data (rulebook := unit) None None
    (Some [wordless_entry; entry_B]) None VNone VNone (utf8 "daily") (VInt 3)
    (Some [entry_C]) None = Ok merged_report
  /\ map word_of (p_stats merged_report)
     = [VStr (utf8 "C"); VStr (utf8 "B")].
Proof. split; vm_compute; reflexivity. Qed.

(** An entry with a falsy word passes when no keyword RSS entry is
    there. *)
Example wordless_entry_passes_without_rss :
  exists p,
    prepare_report_data (rulebook := unit) None None (Some [wordless_entry])
      None VNone VNone (utf8 "daily") (VInt 3) None None = Ok p
    /\ map word_of (p_stats p) = [VStr []].
Proof. eexists. split; vm_compute; reflexivity. Qed.

End WithRuntime.

(** ** Concrete runs *)



Ltac rankable_sample :=
  let d := fresh "d" in
  let H := fresh "H" in
  intros d H; vm_compute in H; injection H as <-;
  split; [eexists; reflexivity | eexists; split; [reflexivity|discriminate]].

Lemma merged_stats_are_sorted_witness :
  exists m ds,
    merge_by_word (RT := ascii_runtime) [entry_A; entry_B] [entry_C] = Ok m
    /\ abc_merged = map VDict ds
    /\ Permutation ds (map snd m)
    /\ StronglySorted ranked_before ds
    /\ (forall c p,
           filter (has_rank c p) ds = filter (has_rank c p) (map snd m)).
Proof.
  apply (proj1 (merged_stats_are_sorted (RT := ascii_runtime))
           [entry_A; entry_B] [entry_C] abc_merged).
  - apply Forall_cons; [rankable_sample|].
    apply Forall_cons; [rankable_sample | apply Forall_nil].
  - apply Forall_cons; [rankable_sample | apply Forall_nil].
  - reflexivity.
Defined.

(** C4 as worded fails on its own example: A has no position, which
    reads as 999, so B at position 1 comes before A. *)
Lemma example_order_is_C_B_A :
  ~ (exists out,
        merge_stats (RT := ascii_runtime) [entry_A; entry_B] [entry_C]
        = Ok out
        /\ map word_of out
           = [VStr (utf8 "C"); VStr (utf8 "A"); VStr (utf8 "B")]).
Proof.
  intros (out & H & Hw). vm_compute in H. injection H as <-.
  vm_compute in Hw. discriminate.
Qed.

(** C5 as worded fails on a source name of blanks only: it is not
    taken as blank, and the title is filed under the name itself. *)
Lemma whitespace_source_name_is_a_feed :
  ~ (forall (d : dict) (out : list value),
        title_ok d = true ->
        regroup_personal (RT := ascii_runtime) [personal_stat_of d] = Ok out ->
        map word_of out = [VStr (blank_as_RSS d)]).
Proof.
  intros H.
  assert (E : map word_of
                [bucket_entry 0 (utf8 "  ", [spaces_title])]
              = [VStr (blank_as_RSS spaces_title)]).
  { apply (H spaces_title); [reflexivity | vm_compute; reflexivity]. }
  vm_compute in E. discriminate.
Qed.

(** The entry that this title is given: its word is the two blanks. *)
Example spaces_feed_entry :
  regroup_personal (RT := ascii_runtime) [personal_stat_of spaces_title]
  = Ok [bucket_entry 0 (utf8 "  ", [spaces_title])]
  /\ blank_as_RSS spaces_title = utf8 "RSS".
Proof. split; vm_compute; reflexivity. Qed.

Lemma personal_feeds_are_regrouped_witness :
  exists (buckets : list bucket) (out : list value),
    regroup_personal (RT := ascii_runtime) [personal_stat] = Ok out
    /\ length out = length buckets
    /\ (forall i b,
           nth_error buckets i = Some b ->
           nth_error out i = Some (bucket_entry (Z.of_nat i) b))
    /\ NoDup (map fst buckets)
    /\ (forall d, In d (concat [[feed1_rank5; feed2_rank1; feed1_rank2]]) ->
                  In (feed_name d) (map fst buckets))
    /\ (forall n items,
           In (n, items) buckets ->
           items <> []
           /\ Permutation items
                (filter (in_feed n)
                   (concat [[feed1_rank5; feed2_rank1; feed1_rank2]]))
           /\ StronglySorted (fun a b => min_rank a <= min_rank b) items
           /\ (forall r,
                  filter (fun d => min_rank d =? r) items
                  = filter (fun d => min_rank d =? r)
                      (filter (in_feed n)
                         (concat [[feed1_rank5; feed2_rank1; feed1_rank2]]))))
    /\ StronglySorted bucket_before buckets.
Proof.
  apply (proj1 (personal_feeds_are_regrouped (RT := ascii_runtime))
           [personal_stat] [[feed1_rank5; feed2_rank1; feed1_rank2]]).
  repeat constructor.
Defined.

Lemma final_stats_have_positive_count_witness :
  Forall (fun e => exists d c,
              e = VDict d /\ dict_lookup k_count d = Some c
              /\ (c <> VFloat S754_nan -> positive c)
              /\ (forall z, c = VInt z -> 0 < z))
         (p_stats plain_report).
Proof.
  apply (final_stats_have_positive_count (RT := ascii_runtime)
           (rulebook := unit) None None
           (Some [entry_A; zero_count_entry; two_url_entry])
           None VNone VNone (utf8 "daily") (VInt 3) None None plain_report).
  vm_compute. reflexivity.
Defined.

Lemma mobile_url_prefers_canonical_witness :
  Forall (fun e =>
            exists stat titles ed ts,
              In stat [zero_count_entry; two_url_entry]
              /\ bind (py_getitem stat k_titles) py_iter = Ok titles
              /\ e = VDict ed
              /\ dict_lookup k_titles ed = Some (VList ts)
              /\ Forall2 (fun title_data t =>
                            exists d td,
                              title_data = VDict d /\ t = VDict td
                              /\ dict_lookup k_mobile_url td
                                 = Some (mobile_url_of d))
                         titles ts)
         final_pass_out.
Proof.
  apply (mobile_url_prefers_canonical [zero_count_entry; two_url_entry]).
  vm_compute. reflexivity.
Defined.

(** C9 as worded fails on a title that has both fields with an empty
    canonical one ([title_two_urls]): the projected title takes the
    legacy URL. *)
Lemma empty_canonical_gives_legacy :
  ~ (forall d td u v,
        dict_lookup k_mobile_url d = Some u ->
        dict_lookup k_mobileUrl d = Some v ->
        process_title (VDict d) = Ok (VDict td) ->
        dict_lookup k_mobile_url td = Some u).
Proof.
  intros H.
  pose proof (H title_two_urls _ _ _ eq_refl eq_refl eq_refl) as C.
  vm_compute in C. discriminate.
Qed.

Lemma falsy_word_entries_are_dropped_witness :
  prepare_report_data (RT := ascii_runtime) (rulebook := unit) None None
    (Some [wordless_entry; entry_B]) None VNone VNone (utf8 "daily") (VInt 3)
    (Some [entry_C]) None
  = prepare_report_data (RT := ascii_runtime) (rulebook := unit) None None
      (option_map (filter (fun x => negb (falsy_word x)))
         (Some [wordless_entry; entry_B]))
      None VNone VNone (utf8 "daily") (VInt 3) (Some [entry_C]) None
  /\ (forall p,
         prepare_report_data (RT := ascii_runtime) (rulebook := unit)
           None None (Some [wordless_entry; entry_B]) None VNone VNone
           (utf8 "daily") (VInt 3) (Some [entry_C]) None = Ok p ->
         Forall (fun e => exists d w,
                     e = VDict d /\ dict_lookup k_word d = Some w
                     /\ truthy w = true)
                (p_stats p)).
Proof.
  apply (falsy_word_entries_are_dropped (RT := ascii_runtime)
           (rulebook := unit)).
  exists entry_C. split; [now left | reflexivity].
Defined.

End GeneratorProps.

(* ===================================================================== *)
(** * The rulebook loader *)
(* ===================================================================== *)

Module LoaderProps.
Import Py PyFacts Frequency FrequencyTerms Samples Cases.
Local Open Scope py_scope.

(** ** Splitting and stripping *)

Lemma split_aux_chars (sep : str) (skip : nat) (cur s : str) :
  Forall (fun piece => forall c, In c piece -> In c cur \/ In c s)
         (split_aux sep skip cur s).
Proof.
  revert skip cur. induction s as [|x s IH]; intros skip cur; simpl.
  - constructor; [|constructor]. intros c Hc. left. now apply in_rev.
  - destruct skip as [|k].
    + destruct (starts_with sep (x :: s)).
      * constructor.
        -- intros c Hc. left. now apply in_rev.
        -- eapply Forall_impl; [|apply IH]. cbv beta. intros p Hp c Hc.
           destruct (Hp c Hc) as [[]|]. right. now right.
      * eapply Forall_impl; [|apply IH]. cbv beta. intros p Hp c Hc.
        destruct (Hp c Hc) as [[<-|]|]; [right; now left|now left|right; now right].
    + eapply Forall_impl; [|apply IH]. cbv beta. intros p Hp c Hc.
      destruct (Hp c Hc); [now left|right; now right].
Qed.

Lemma split_chars (sep s piece : str) (c : codepoint) :
  In piece (str_split sep s) -> In c piece -> In c s.
Proof.
  intros Hp Hc. pose proof (split_aux_chars sep O [] s) as H.
  rewrite Forall_forall in H. destruct (H _ Hp _ Hc) as [[]|]. assumption.
Qed.

Lemma lstrip_In (c : codepoint) (s : str) : In c (str_lstrip s) -> In c s.
Proof.
  induction s as [|x s IH]; simpl; [easy|].
  destruct (is_space x); [intros H; right; now apply IH | easy].
Qed.

Lemma strip_In (c : codepoint) (s : str) : In c (str_strip s) -> In c s.
Proof.
  unfold str_strip, str_rstrip. intros H.
  apply in_rev, lstrip_In, in_rev in H. now apply lstrip_In.
Qed.

Lemma filter_none {A} (f : A -> bool) (l : list A) :
  (forall x, In x l -> f x = false) -> filter f l = [].
Proof.
  induction l as [|x l IH]; intros H; simpl; [reflexivity|].
  rewrite (H x (or_introl eq_refl)). apply IH. intros y Hy. apply H. now right.
Qed.

(** A text made of whitespace has no pieces left after stripping. *)
Lemma stripped_pieces_blank (sep text : str) :
  forallb is_space text = true -> stripped_pieces sep text = [].
Proof.
  intros Hb. unfold stripped_pieces. apply filter_none.
  intros l Hl. apply in_map_iff in Hl as (p & <- & Hp).
  apply negb_false_iff. unfold str_is_empty.
  assert (E : str_strip p = []).
  { apply str_strip_nil_iff. apply forallb_forall. intros c Hc.
    rewrite forallb_forall in Hb. apply Hb. eapply split_chars; eassumption. }
  now rewrite E.
Qed.

Lemma lstrip_app_nonspace (l : str) (c : codepoint) :
  is_space c = false -> str_lstrip (l ++ [c]) = str_lstrip l ++ [c].
Proof.
  intros Hc. induction l as [|x l IH]; simpl.
  - now rewrite Hc.
  - destruct (is_space x); [assumption | reflexivity].
Qed.

Lemma rstrip_cons_nonspace (c : codepoint) (s : str) :
  is_space c = false -> str_rstrip (c :: s) = c :: str_rstrip s.
Proof.
  intros Hc. unfold str_rstrip. simpl rev at 2.
  rewrite (lstrip_app_nonspace _ _ Hc), rev_app_distr. reflexivity.
Qed.

Lemma lstrip_idem (s : str) : str_lstrip (str_lstrip s) = str_lstrip s.
Proof.
  induction s as [|x s IH]; simpl; [reflexivity|].
  destruct (is_space x) eqn:E; [assumption|]. simpl. now rewrite E.
Qed.

Lemma lstrip_head (s : str) :
  str_lstrip s = [] \/ exists c r, str_lstrip s = c :: r /\ is_space c = false.
Proof.
  induction s as [|x s IH]; simpl; [now left|].
  destruct (is_space x) eqn:E; [assumption|]. right. now exists x, s.
Qed.

(** Stripping twice is stripping once. *)
Lemma strip_idem (s : str) : str_strip (str_strip s) = str_strip s.
Proof.
  unfold str_strip.
  destruct (lstrip_head s) as [E | (c & r & E & Hc)].
  - rewrite E. reflexivity.
  - rewrite E. rewrite (rstrip_cons_nonspace _ _ Hc). simpl. rewrite Hc.
    rewrite (rstrip_cons_nonspace _ _ Hc). f_equal.
    unfold str_rstrip. rewrite rev_involutive, lstrip_idem. reflexivity.
Qed.

Lemma starts_with_one (a x : codepoint) (s : str) :
  starts_with [a] (x :: s) = (a =? x).
Proof.
  unfold starts_with. cbn [strip_prefix]. now destruct (a =? x).
Qed.

Lemma split_newline_free (cur s : str) :
  ~ In 10 cur -> Forall (fun p => ~ In 10 p) (split_aux [10] O cur s).
Proof.
  revert cur. induction s as [|x s IH]; intros cur Hcur; cbn [split_aux].
  - constructor; [|constructor]. intros H. apply Hcur. now apply in_rev.
  - rewrite starts_with_one. cbn [length Nat.sub].
    destruct (Z.eqb_spec 10 x) as [<-|N].
    + constructor.
      * intros H. apply Hcur. now apply in_rev.
      * apply IH. easy.
    + apply IH. intros [H|H]; [now apply N | now apply Hcur].
Qed.

(** The lines of a block are clean. *)
Lemma lines_clean (block : str) :
  Forall clean_line (stripped_pieces [10] block).
Proof.
  unfold stripped_pieces. apply Forall_forall. intros l Hl.
  apply filter_In in Hl as [Hl Hne]. apply in_map_iff in Hl as (p & <- & Hp).
  split; [|split].
  - intros E. rewrite E in Hne. discriminate.
  - intros H. apply strip_In in H.
    pose proof (split_newline_free [] block (fun f => f)) as F.
    rewrite Forall_forall in F. exact (F _ Hp H).
  - apply strip_idem.
Qed.

Section WithRuntime.
Context {RT : Runtime}.

(** ** The scan of one block *)

Lemma clean_tail (w : str) : clean_line w -> ~ In 10 (tl w).
Proof.
  intros (_ & H & _) Hin. apply H. destruct w; [easy | now right].
Qed.

Lemma scan_word_ok (fw : list str) (g : group_scan) (word : str) :
  clean_line word -> scan_ok g -> scan_ok (snd (scan_word (fw, g) word)).
Proof.
  intros Hw (Hn & Hr & Hm). unfold scan_word.
  destruct (starts_with (utf8 "@") word) eqn:Eat.
  - destruct (int_of_str (tl word)) as [count|]; [|now split].
    destruct (Z.ltb_spec 0 count); [|now split].
    split; [|split]; cbn; [assumption | assumption | lia].
  - destruct (starts_with (utf8 "!") word) eqn:Ebang; [now split|].
    destruct (starts_with (utf8 "+") word) eqn:Eplus.
    + split; [|split]; cbn; [assumption | | assumption].
      apply Forall_app. split; [assumption|].
      constructor; [now apply clean_tail | constructor].
    + split; [|split]; cbn; [| assumption | assumption].
      apply Forall_app. split; [assumption|].
      constructor; [|constructor]. now split.
Qed.

Lemma scan_words_ok (lines : list str) (fw : list str) (g : group_scan) :
  Forall clean_line lines -> scan_ok g ->
  scan_ok (snd (fold_left scan_word lines (fw, g))).
Proof.
  revert fw g. induction lines as [|w lines IH]; intros fw g Hl Hg.
  - exact Hg.
  - inversion Hl as [|? ? Hw Hl']; subst. cbn [fold_left].
    pose proof (scan_word_ok fw g w Hw Hg) as H1.
    destruct (scan_word (fw, g) w) as [fw1 g1]. now apply IH.
Qed.

Lemma emit_group_ok (g : group_scan) :
  scan_ok g -> Forall well_formed_group (emit_group g).
Proof.
  intros (Hn & Hr & Hm). unfold emit_group.
  destruct (group_required_words g) as [|r req] eqn:Er;
    destruct (group_normal_words g) as [|n nor] eqn:En;
    [constructor | | |];
    (constructor; [|constructor]);
    eexists _, _; cbn [required normal group_key max_count];
    (split; [reflexivity|]); (split; [reflexivity|]);
    (split; [first [now left | now right]|]);
    (split; [assumption|]); (split; [assumption|]);
    (split; [reflexivity | assumption]).
Qed.

Lemma section_switch_sub (cur : section_name) (lines : list str) :
  Forall clean_line lines -> Forall clean_line (snd (section_switch cur lines)).
Proof.
  intros H. unfold section_switch. destruct lines as [|first rest]; [exact H|].
  inversion H; subst.
  destruct (starts_with (utf8 "[") first && ends_with (utf8 "]") first);
    [|exact H].
  destruct (str_eqb _ _); [assumption|].
  destruct (str_eqb _ _); assumption.
Qed.

(** ** The loop over blocks *)

Lemma kept_line_plain (line : str) :
  clean_line line -> kept_as_global_filter line = true -> plain_line line.
Proof.
  intros Hc H. unfold kept_as_global_filter in H.
  apply andb_true_iff in H as [H _]. apply negb_true_iff in H.
  apply orb_false_iff in H as [H H3]. apply orb_false_iff in H as [H1 H2].
  split; [exact Hc|]. split; [exact H1|]. split; [exact H2 | exact H3].
Qed.

Lemma process_block_ok (st : loader) (block : str) :
  loader_ok st -> loader_ok (process_block st block).
Proof.
  intros [Hg Hf]. unfold process_block.
  pose proof (lines_clean block) as Hl.
  destruct (stripped_pieces [10] block) as [|l0 ls] eqn:El; [now split|].
  pose proof (section_switch_sub (current_section st) _ Hl) as Hs.
  destruct (section_switch (current_section st) (l0 :: ls)) as [sec lines].
  cbn [snd] in Hs. destruct sec.
  - split; cbn; [assumption|]. apply Forall_app. split; [assumption|].
    apply Forall_forall. intros l Hin. apply filter_In in Hin as [Hin Hk].
    rewrite Forall_forall in Hs. apply kept_line_plain; [now apply Hs|].
    exact Hk.
  - unfold scan_words.
    pose proof (scan_words_ok lines (filter_words st) empty_scan Hs) as Hscan.
    destruct (fold_left scan_word lines (filter_words st, empty_scan))
      as [fw g].
    split; cbn; [|assumption]. apply Forall_app. split; [assumption|].
    apply emit_group_ok. apply Hscan.
    split; [constructor | split; [constructor | cbn; lia]].
Qed.

Lemma fold_blocks_ok (blocks : list str) (st : loader) :
  loader_ok st -> loader_ok (fold_left process_block blocks st).
Proof.
  revert st. induction blocks as [|b blocks IH]; intros st H; [exact H|].
  cbn [fold_left]. apply IH. now apply process_block_ok.
Qed.

(** X1. A rulebook file that is empty or holds whitespace only loads as
    no group, no filter word and no global filter, and under this
    rulebook the matcher accepts every title that is not blank. *)
Theorem blank_rulebook_is_pass_through (content : str) :
  forallb is_space content = true ->
  load_frequency_words (Some content) = Ok ([], [], [])
  /\ (forall title,
         str_strip (coerce_title title) <> [] ->
         matches_word_groups title [] [] (Some []) = true).
Proof.
  intros Hb. split.
  - unfold load_frequency_words.
    now rewrite (stripped_pieces_blank _ _ Hb).
  - intros title Hne. unfold matches_word_groups.
    apply is_nil_false in Hne. unfold str_is_empty. now rewrite Hne.
Qed.

(** X2. Every group that the loader returns holds a required or a normal
    word; its normal words are not empty, have no line break and no
    whitespace at either end, and start with none of [!], [+], [@]; its
    key is the normal words joined by single blanks, or the required
    words when it has no normal word; its limit is 0 or more. *)
Theorem loaded_groups_are_well_formed (content : str) groups fw gf :
  load_frequency_words (Some content) = Ok (groups, fw, gf) ->
  Forall well_formed_group groups.
Proof.
  unfold load_frequency_words. intros H. injection H as <- _ _.
  apply fold_blocks_ok. split; constructor.
Qed.

(** X3. Every global filter that the loader returns is a line of the
    file as it stands after stripping: not empty, without line break or
    surrounding whitespace, and starting with none of [!], [+], [@]
    (such lines of a global filter section are dropped). *)
Theorem loaded_global_filters_are_plain (content : str) groups fw gf :
  load_frequency_words (Some content) = Ok (groups, fw, gf) ->
  Forall plain_line gf.
Proof.
  unfold load_frequency_words. intros H. injection H as _ _ <-.
  apply fold_blocks_ok. split; constructor.
Qed.

(** ** Blocks without tags *)

Lemma at_is_not_bang (w : str) :
  starts_with (utf8 "@") w = true -> starts_with (utf8 "!") w = false.
Proof.
  destruct w as [|c w]; [discriminate|].
  change (utf8 "@") with [64]. change (utf8 "!") with [33].
  rewrite !starts_with_one. intros H. apply Z.eqb_eq in H. now subst.
Qed.

(** A step of the scan adds the filter word of its line, if any, to the
    flat list, and treats the group as it would from an empty list. *)
Lemma scan_word_split (fw : list str) (g : group_scan) (w : str) :
  scan_word (fw, g) w
  = (fw ++ block_filter_words [w], snd (scan_word ([], g) w)).
Proof.
  unfold scan_word, block_filter_words. cbn [filter map].
  destruct (starts_with (utf8 "@") w) eqn:Eat.
  - rewrite (at_is_not_bang _ Eat). cbn [map]. rewrite app_nil_r.
    destruct (int_of_str (tl w)) as [count|]; [|reflexivity].
    destruct (0 <? count); reflexivity.
  - destruct (starts_with (utf8 "!") w); [reflexivity|].
    cbn [map]. rewrite app_nil_r.
    destruct (starts_with (utf8 "+") w); reflexivity.
Qed.

Lemma block_filter_words_cons (w : str) (lines : list str) :
  block_filter_words (w :: lines)
  = block_filter_words [w] ++ block_filter_words lines.
Proof.
  unfold block_filter_words. cbn [filter].
  destruct (starts_with (utf8 "!") w); reflexivity.
Qed.

Lemma fold_scan_split (lines : list str) (fw : list str) (g : group_scan) :
  fold_left scan_word lines (fw, g)
  = (fw ++ block_filter_words lines,
     snd (fold_left scan_word lines ([], g))).
Proof.
  revert fw g. induction lines as [|w lines IH]; intros fw g.
  - cbn. now rewrite app_nil_r.
  - cbn [fold_left]. rewrite (scan_word_split fw g w).
    rewrite (scan_word_split [] g w). cbn [app].
    rewrite IH. rewrite (IH (block_filter_words [w])). cbn [snd].
    now rewrite (block_filter_words_cons w lines), app_assoc.
Qed.

Lemma scan_words_split (fw : list str) (lines : list str) :
  scan_words fw lines
  = (fw ++ block_filter_words lines, snd (scan_words [] lines)).
Proof. apply fold_scan_split. Qed.

Lemma untagged_switch (cur : section_name) (lines : list str) :
  untagged lines -> section_switch cur lines = (cur, lines).
Proof.
  intros H. unfold section_switch. destruct lines as [|first rest];
    [reflexivity|].
  now rewrite (H first rest eq_refl).
Qed.

Lemma fold_untagged (blocks : list str) (st : loader) :
  current_section st = WORD_GROUPS ->
  Forall untagged (map (stripped_pieces [10]) blocks) ->
  fold_left process_block blocks st
  = {| processed_groups :=
         processed_groups st
         ++ flat_map block_group (map (stripped_pieces [10]) blocks);
       filter_words :=
         filter_words st
         ++ flat_map block_filter_words (map (stripped_pieces [10]) blocks);
       global_filters := global_filters st;
       current_section := WORD_GROUPS |}.
Proof.
  revert st. induction blocks as [|b blocks IH]; intros st Hsec Hun.
  - cbn. rewrite !app_nil_r. destruct st; cbn in *. now subst.
  - cbn [map] in Hun. inversion Hun as [|? ? Hb Hrest]; subst.
    cbn [fold_left map flat_map].
    assert (E : process_block st b
                = {| processed_groups :=
                       processed_groups st
                       ++ block_group (stripped_pieces [10] b);
                     filter_words :=
                       filter_words st
                       ++ block_filter_words (stripped_pieces [10] b);
                     global_filters := global_filters st;
                     current_section := WORD_GROUPS |}).
    { unfold process_block.
      destruct (stripped_pieces [10] b) as [|l0 ls] eqn:El.
      - cbn. rewrite !app_nil_r. destruct st; cbn in *. now subst.
      - rewrite (untagged_switch _ _ Hb), Hsec.
        rewrite scan_words_split. reflexivity. }
    rewrite E, IH; [|reflexivity|assumption].
    cbn [processed_groups filter_words global_filters].
    now rewrite !app_assoc.
Qed.

(** X4. In a rulebook file where no block opens with a bracket, every
    block is a word group read on its own: the groups are those of the
    blocks in file order, the flat filter list holds the [!] lines of
    all the blocks in file order (without the mark), and there is no
    global filter. *)
Theorem untagged_rulebook_loads_blockwise (content : str) :
  Forall untagged (blocks_of content) ->
  load_frequency_words (Some content)
  = Ok (flat_map block_group (blocks_of content),
        flat_map block_filter_words (blocks_of content),
        []).
Proof.
  intros H. unfold load_frequency_words, blocks_of in *.
  set (st0 := {| processed_groups := []; filter_words := [];
                 global_filters := []; current_section := WORD_GROUPS |}).
  now rewrite (fold_untagged _ st0 eq_refl H).
Qed.

(** ** The global filter section *)

Lemma fold_global (blocks : list str) (st : loader) :
  current_section st = GLOBAL_FILTER ->
  Forall (fun lines => fst (section_switch GLOBAL_FILTER lines)
                       = GLOBAL_FILTER)
         (map (stripped_pieces [10]) blocks) ->
  fold_left process_block blocks st
  = {| processed_groups := processed_groups st;
       filter_words := filter_words st;
       global_filters :=
         global_filters st
         ++ flat_map (fun lines =>
                        filter kept_as_global_filter
                          (snd (section_switch GLOBAL_FILTER lines)))
                     (map (stripped_pieces [10]) blocks);
       current_section := GLOBAL_FILTER |}.
Proof.
  revert st. induction blocks as [|b blocks IH]; intros st Hsec Hst.
  - cbn. rewrite app_nil_r. destruct st; cbn in *. now subst.
  - cbn [map] in Hst. inversion Hst as [|? ? Hb Hrest]; subst.
    cbn [fold_left map flat_map].
    assert (E : process_block st b
                = {| processed_groups := processed_groups st;
                     filter_words := filter_words st;
                     global_filters :=
                       global_filters st
                       ++ filter kept_as_global_filter
                            (snd (section_switch GLOBAL_FILTER
                                    (stripped_pieces [10] b)));
                     current_section := GLOBAL_FILTER |}).
    { unfold process_block. rewrite Hsec.
      destruct (stripped_pieces [10] b) as [|l0 ls] eqn:El.
      - cbn. rewrite app_nil_r. destruct st; cbn in *. now subst.
      - destruct (section_switch GLOBAL_FILTER (l0 :: ls)) as [sec lines].
        cbn [fst snd] in *. subst sec. reflexivity. }
    rewrite E, IH; [|reflexivity|assumption].
    cbn [processed_groups filter_words global_filters].
    now rewrite app_assoc.
Qed.

(** X5. The global filter section lasts until a [WORD_GROUPS] tag: when
    the first block opens it and no later block opens with that tag,
    the file yields no group and no filter word, and the global filters
    are the lines of all the blocks (the tag lines apart) that start
    with none of [!], [+], [@], in file order. *)
Theorem global_filter_section_is_sticky
  (content : str) (first : list str) (rest : list (list str)) :
  blocks_of content = first :: rest ->
  fst (section_switch WORD_GROUPS first) = GLOBAL_FILTER ->
  Forall (fun lines => fst (section_switch GLOBAL_FILTER lines)
                       = GLOBAL_FILTER) rest ->
  load_frequency_words (Some content)
  = Ok ([], [],
        flat_map (fun lines =>
                    filter kept_as_global_filter
                      (snd (section_switch GLOBAL_FILTER lines)))
                 (first :: rest)).
Proof.
  unfold blocks_of, load_frequency_words. intros Hb Hfirst Hrest.
  destruct (stripped_pieces [10; 10] content) as [|b blocks];
    [discriminate|].
  cbn [map] in Hb. injection Hb as Hb1 Hb2. cbn [fold_left].
  set (st0 := {| processed_groups := []; filter_words := [];
                 global_filters := []; current_section := WORD_GROUPS |}).
  assert (E : process_block st0 b
              = {| processed_groups := []; filter_words := [];
                   global_filters :=
                     filter kept_as_global_filter
                       (snd (section_switch GLOBAL_FILTER first));
                   current_section := GLOBAL_FILTER |}).
  { unfold process_block. rewrite Hb1. cbn [current_section st0].
    destruct first as [|l0 ls]; [discriminate Hfirst|].
    unfold section_switch in *.
    destruct (starts_with (utf8 "[") l0 && ends_with (utf8 "]") l0);
      [|discriminate Hfirst].
    destruct (str_eqb (str_upper (inner l0)) (utf8 "GLOBAL_FILTER"));
      [reflexivity|].
    destruct (str_eqb (str_upper (inner l0)) (utf8 "WORD_GROUPS"));
      discriminate Hfirst. }
  rewrite E, fold_global; [|reflexivity | now rewrite Hb2].
  cbn [processed_groups filter_words global_filters flat_map].
  now rewrite Hb2.
Qed.

(** ** A bare [+] line *)

Lemma scan_word_keeps_required (st : list str * group_scan) (w r : str) :
  In r (group_required_words (snd st)) ->
  In r (group_required_words (snd (scan_word st w))).
Proof.
  destruct st as [fw g]. cbn [snd]. intros H. unfold scan_word.
  destruct (starts_with (utf8 "@") w).
  - destruct (int_of_str (tl w)) as [count|]; [|exact H].
    destruct (0 <? count); exact H.
  - destruct (starts_with (utf8 "!") w); [exact H|].
    destruct (starts_with (utf8 "+") w); cbn; [|exact H].
    apply in_or_app. now left.
Qed.

Lemma fold_scan_keeps_required (lines : list str)
  (st : list str * group_scan) (r : str) :
  In r (group_required_words (snd st)) ->
  In r (group_required_words (snd (fold_left scan_word lines st))).
Proof.
  revert st. induction lines as [|w lines IH]; intros st H; [exact H|].
  cbn [fold_left]. apply IH. now apply scan_word_keeps_required.
Qed.

Lemma fold_scan_bare_plus (lines : list str) (st : list str * group_scan) :
  In (utf8 "+") lines ->
  In [] (group_required_words (snd (fold_left scan_word lines st))).
Proof.
  revert st. induction lines as [|w lines IH]; intros st H; [destruct H|].
  cbn [fold_left]. destruct H as [->|H]; [|now apply IH].
  apply fold_scan_keeps_required. destruct st as [fw g].
  unfold scan_word. cbn. apply in_or_app. right. now left.
Qed.

(** X6. A block with a line that is only [+] yields a group that no
    title matches: the line puts the empty keyword among the required
    words, and the empty keyword matches nothing. *)
Theorem bare_plus_line_disables_group
  (lines fw : list str) (g : word_group) (title : title_arg) :
  In (utf8 "+") lines ->
  In g (emit_group (snd (scan_words fw lines))) ->
  matches_group title g = false.
Proof.
  intros Hplus Hg. unfold scan_words in Hg.
  pose proof (fold_scan_bare_plus lines (fw, empty_scan) Hplus) as Hreq.
  destruct (fold_left scan_word lines (fw, empty_scan)) as [fw' gs].
  cbn [snd] in *. unfold emit_group in Hg.
  destruct (group_required_words gs) as [|r req] eqn:Er; [destruct Hreq|].
  assert (Eg : g = {| required := Some (r :: req);
                      normal := Some (group_normal_words gs);
                      group_key :=
                        match group_normal_words gs with
                        | _ :: _ => str_join (utf8 " ") (group_normal_words gs)
                        | [] => str_join (utf8 " ") (r :: req)
                        end;
                      max_count := group_max_count gs |}).
  { destruct (group_normal_words gs); destruct Hg as [<-|[]]; reflexivity. }
  subst g. unfold matches_group. cbn [required normal or_empty].
  destruct (str_is_empty (coerce_title title)); [reflexivity|].
  assert (Ef : forallb (_keyword_in_title (coerce_title title)
                          (str_lower (coerce_title title))) (r :: req)
               = false).
  { apply not_true_is_false. intros Hall. rewrite forallb_forall in Hall.
    specialize (Hall [] Hreq). discriminate Hall. }
  rewrite Ef. reflexivity.
Qed.

End WithRuntime.

(** ** Concrete runs *)

Lemma blank_rulebook_is_pass_through_witness :
  load_frequency_words (RT := ascii_runtime) (Some [32; 10; 10; 9; 10])
  = Ok ([], [], [])
  /\ (forall title,
         str_strip (coerce_title title) <> [] ->
         matches_word_groups (RT := ascii_runtime) title [] [] (Some [])
         = true).
Proof.
  apply (blank_rulebook_is_pass_through (RT := ascii_runtime)
           [32; 10; 10; 9; 10]).
  reflexivity.
Defined.

Lemma loaded_groups_are_well_formed_witness :
  Forall well_formed_group (fst (fst loaded_rulebook)).
Proof.
  apply (loaded_groups_are_well_formed (RT := ascii_runtime) rulebook_text
           (fst (fst loaded_rulebook)) (snd (fst loaded_rulebook))
           (snd loaded_rulebook)).
  vm_compute. reflexivity.
Defined.

Lemma loaded_global_filters_are_plain_witness :
  Forall plain_line (snd loaded_rulebook).
Proof.
  apply (loaded_global_filters_are_plain (RT := ascii_runtime) rulebook_text
           (fst (fst loaded_rulebook)) (snd (fst loaded_rulebook))
           (snd loaded_rulebook)).
  vm_compute. reflexivity.
Defined.

Lemma untagged_rulebook_loads_blockwise_witness :
  load_frequency_words (RT := ascii_runtime) (Some untagged_text)
  = Ok (flat_map (block_group (RT := ascii_runtime)) (blocks_of untagged_text),
        flat_map block_filter_words (blocks_of untagged_text),
        []).
Proof.
  apply (untagged_rulebook_loads_blockwise (RT := ascii_runtime)
           untagged_text).
  repeat constructor; intros first rest E; injection E as <- _; reflexivity.
Defined.

Lemma global_filter_section_is_sticky_witness :
  load_frequency_words (RT := ascii_runtime) (Some global_only_text)
  = Ok ([], [],
        flat_map (fun lines =>
                    filter kept_as_global_filter
                      (snd (section_switch (RT := ascii_runtime)
                              GLOBAL_FILTER lines)))
                 [ [utf8 "[GLOBAL_FILTER]"; utf8 "ad"; utf8 "!x"];
                   [utf8 "spam"; utf8 "+y"] ]).
Proof.
  apply (global_filter_section_is_sticky (RT := ascii_runtime)
           global_only_text
           [utf8 "[GLOBAL_FILTER]"; utf8 "ad"; utf8 "!x"]
           [[utf8 "spam"; utf8 "+y"]]).
  - reflexivity.
  - reflexivity.
  - repeat constructor.
Defined.

Lemma bare_plus_line_disables_group_witness :
  matches_group (RT := ascii_runtime) (TitleStr (utf8 "AI")) bare_plus_group
  = false.
Proof.
  apply (bare_plus_line_disables_group (RT := ascii_runtime)
           [utf8 "+"; utf8 "AI"] [] bare_plus_group (TitleStr (utf8 "AI"))).
  - now left.
  - left. reflexivity.
Defined.

End LoaderProps.

(* ===================================================================== *)
(** * The matcher *)
(* ===================================================================== *)

Module MatcherProps.
Import Py PyFacts Frequency FrequencyTerms Samples Cases.
Local Open Scope py_scope.

(** ** Case variants of ASCII letters *)

(** Case analysis on the comparisons of the goal, dropping the cases
    that arithmetic rules out. *)
Ltac by_cases :=
  repeat (match goal with
          | |- context [?a <=? ?b] =>
              is_var a; destruct (Z.leb_spec a b)
          | |- context [?a <=? ?b] =>
              is_var b; destruct (Z.leb_spec a b)
          | |- context [?a =? ?b] =>
              is_var a; destruct (Z.eqb_spec a b)
          | |- context [?a =? ?b] =>
              is_var b; destruct (Z.eqb_spec a b)
          end; cbn [andb orb negb] in *; try lia);
  cbn; intros; try reflexivity; try discriminate; try lia.

Lemma ascii_case_variants (c c' : codepoint) :
  ascii_lower c = ascii_lower c' ->
  c = c'
  \/ ((is_ascii_upper c || is_ascii_lower c) = true
      /\ (is_ascii_upper c' || is_ascii_lower c') = true).
Proof.
  intros H. destruct (Z.eq_dec c c') as [->|N]; [now left|right].
  revert H N. unfold ascii_lower, is_ascii_upper, is_ascii_lower, in_range.
  by_cases; split; reflexivity.
Qed.

Lemma variants_sre_lower (c c' : codepoint) :
  ascii_lower c = ascii_lower c' -> sre_lower c = sre_lower c'.
Proof.
  intros H. destruct (ascii_case_variants _ _ H) as [->|[H1 H2]];
    [reflexivity|].
  revert H H1 H2.
  unfold sre_lower, ascii_lower, is_ascii_upper, is_ascii_lower, in_range.
  by_cases.
Qed.

Lemma variants_is_space (c c' : codepoint) :
  ascii_lower c = ascii_lower c' -> is_space c = is_space c'.
Proof.
  intros H. destruct (ascii_case_variants _ _ H) as [->|[H1 H2]];
    [reflexivity|].
  assert (E : forall x, (is_ascii_upper x || is_ascii_lower x) = true ->
                        is_space x = false).
  { intros x. unfold is_space, is_ascii_upper, is_ascii_lower, in_range. lia. }
  now rewrite (E _ H1), (E _ H2).
Qed.

Lemma variants_is_ascii (c c' : codepoint) :
  ascii_lower c = ascii_lower c' -> is_ascii c = is_ascii c'.
Proof.
  intros H. destruct (ascii_case_variants _ _ H) as [->|[H1 H2]];
    [reflexivity|].
  assert (E : forall x, (is_ascii_upper x || is_ascii_lower x) = true ->
                        is_ascii x = true).
  { intros x. unfold is_ascii, is_ascii_upper, is_ascii_lower, in_range. lia. }
  now rewrite (E _ H1), (E _ H2).
Qed.

Lemma variants_is_alnum (c c' : codepoint) :
  ascii_lower c = ascii_lower c' -> is_ascii_alnum c = is_ascii_alnum c'.
Proof.
  intros H. destruct (ascii_case_variants _ _ H) as [->|[H1 H2]];
    [reflexivity|].
  unfold is_ascii_alnum. now rewrite H1, H2.
Qed.

Lemma forallb_variants (f : codepoint -> bool) (a b : str) :
  (forall c c', ascii_lower c = ascii_lower c' -> f c = f c') ->
  same_up_to_ascii_case a b -> forallb f a = forallb f b.
Proof.
  intros Hf. unfold same_up_to_ascii_case. revert b.
  induction a as [|x a IH]; intros [|y b] H; try discriminate;
    [reflexivity|].
  cbn in *. injection H as Hxy H. now rewrite (Hf _ _ Hxy), (IH _ H).
Qed.

Lemma variants_map_sre_lower (a b : str) :
  same_up_to_ascii_case a b -> map sre_lower a = map sre_lower b.
Proof.
  unfold same_up_to_ascii_case. revert b.
  induction a as [|x a IH]; intros [|y b] H; try discriminate;
    [reflexivity|].
  cbn in *. injection H as Hxy H.
  now rewrite (variants_sre_lower _ _ Hxy), (IH _ H).
Qed.

Lemma variants_is_nil (a b : str) :
  same_up_to_ascii_case a b -> is_nil a = is_nil b.
Proof.
  unfold same_up_to_ascii_case. destruct a, b; try discriminate; reflexivity.
Qed.

Lemma variants_len (a b : str) :
  same_up_to_ascii_case a b -> len a = len b.
Proof.
  unfold same_up_to_ascii_case, len. intros H.
  apply (f_equal (@length _)) in H. rewrite !length_map in H. now rewrite H.
Qed.

(** ** The pattern reads the text through the engine's lower-casing *)

Lemma literal_ignorecase_lowered (p c c' : codepoint) :
  sre_lower c = sre_lower c' ->
  literal_ignorecase p c = literal_ignorecase p c'.
Proof. unfold literal_ignorecase. now intros ->. Qed.

Lemma class_alnum_lowered (c c' : codepoint) :
  sre_lower c = sre_lower c' ->
  class_alnum_ignorecase c = class_alnum_ignorecase c'.
Proof. unfold class_alnum_ignorecase. now intros ->. Qed.

Lemma match_literal_lowered (lit t t' : str) :
  map sre_lower t = map sre_lower t' ->
  match match_literal lit t, match_literal lit t' with
  | Some r, Some r' => map sre_lower r = map sre_lower r'
  | None, None => True
  | _, _ => False
  end.
Proof.
  revert t t'. induction lit as [|p lit IH]; intros t t' H.
  - destruct t, t'; cbn; try exact H; discriminate.
  - destruct t as [|c t], t' as [|c' t']; try discriminate; cbn; [exact I|].
    cbn in H. injection H as Hc H.
    rewrite (literal_ignorecase_lowered p _ _ Hc).
    destruct (literal_ignorecase p c'); [now apply IH | exact I].
Qed.

Lemma match_here_lowered (pat : pattern) (prev prev' : option codepoint)
  (t t' : str) :
  option_map sre_lower prev = option_map sre_lower prev' ->
  map sre_lower t = map sre_lower t' ->
  match_here pat prev t = match_here pat prev' t'.
Proof.
  intros Hp Ht. unfold match_here. f_equal.
  - destruct prev, prev'; try discriminate; [|reflexivity].
    cbn in Hp. injection Hp as Hp. now rewrite (class_alnum_lowered _ _ Hp).
  - pose proof (match_literal_lowered (literal pat) t t' Ht) as H.
    destruct (match_literal (literal pat) t) as [r|],
             (match_literal (literal pat) t') as [r'|]; try easy.
    destruct r as [|c r], r' as [|c' r']; try discriminate; [reflexivity|].
    cbn in H. injection H as Hc _. now rewrite (class_alnum_lowered _ _ Hc).
Qed.

Lemma search_from_lowered (pat : pattern) (t : str) :
  forall (prev prev' : option codepoint) (t' : str),
    option_map sre_lower prev = option_map sre_lower prev' ->
    map sre_lower t = map sre_lower t' ->
    search_from pat prev t = search_from pat prev' t'.
Proof.
  induction t as [|c t IH]; intros prev prev' [|c' t'] Hp Ht;
    try discriminate.
  - cbn [search_from]. now rewrite (match_here_lowered pat _ _ [] [] Hp).
  - cbn [search_from].
    rewrite (match_here_lowered pat _ _ (c :: t) (c' :: t') Hp Ht).
    cbn in Ht. injection Ht as Hc Ht'. f_equal.
    apply IH; [cbn; now rewrite Hc | assumption].
Qed.

Lemma existsb_same {A} (f g : A -> bool) (l : list A) :
  (forall x, f x = g x) -> existsb f l = existsb g l.
Proof.
  intros H. induction l as [|x l IH]; cbn; [reflexivity|].
  now rewrite H, IH.
Qed.

Lemma forallb_same {A} (f g : A -> bool) (l : list A) :
  (forall x, f x = g x) -> forallb f l = forallb g l.
Proof.
  intros H. induction l as [|x l IH]; cbn; [reflexivity|].
  now rewrite H, IH.
Qed.

Section WithRuntime.
Context {RT : Runtime}.

Lemma variants_str_lower (a b : str) :
  str_isascii a = true -> same_up_to_ascii_case a b ->
  str_lower a = str_lower b.
Proof.
  intros Ha Hab. unfold str_lower.
  assert (Hb : str_isascii b = true).
  { unfold str_isascii in *.
    now rewrite <- (forallb_variants is_ascii a b variants_is_ascii Hab). }
  now rewrite Ha, Hb.
Qed.

Lemma title_variants_keyword (t t' keyword : str) :
  str_isascii t = true -> same_up_to_ascii_case t t' ->
  _keyword_in_title t (str_lower t) keyword
  = _keyword_in_title t' (str_lower t') keyword.
Proof.
  intros Ha Hab. unfold _keyword_in_title, pattern_search.
  rewrite (variants_str_lower _ _ Ha Hab).
  rewrite (search_from_lowered _ t None None t' eq_refl
             (variants_map_sre_lower _ _ Hab)).
  reflexivity.
Qed.

Lemma title_variants_strip (t t' : str) :
  same_up_to_ascii_case t t' ->
  str_is_empty (str_strip t) = str_is_empty (str_strip t').
Proof.
  intros Hab.
  pose proof (forallb_variants is_space t t' variants_is_space Hab) as E.
  pose proof (str_strip_nil_iff t) as [A1 A2].
  pose proof (str_strip_nil_iff t') as [B1 B2].
  unfold str_is_empty.
  destruct (forallb is_space t) eqn:Et.
  - rewrite (A2 eq_refl), (B2 (eq_sym E)). reflexivity.
  - destruct (str_strip t) as [|x r]; [specialize (A1 eq_refl); discriminate|].
    destruct (str_strip t') as [|y r'];
      [specialize (B1 eq_refl); congruence | reflexivity].
Qed.

(** X7. Matching does not see the case of ASCII letters in a title: two
    ASCII titles that differ in letter case only get the same answer
    from [matches_word_groups], whatever the rulebook. *)
Theorem ascii_title_case_is_ignored
  (t t' : str) (word_groups : list word_group)
  (filter_words : list str) (global_filters : option (list str)) :
  str_isascii t = true -> same_up_to_ascii_case t t' ->
  matches_word_groups (TitleStr t) word_groups filter_words global_filters
  = matches_word_groups (TitleStr t') word_groups filter_words
      global_filters.
Proof.
  intros Ha Hab. unfold matches_word_groups. cbn [coerce_title].
  rewrite (title_variants_strip _ _ Hab).
  destruct (str_is_empty (str_strip t')); [reflexivity|].
  rewrite (existsb_same _ _ (or_empty global_filters)
             (fun k => title_variants_keyword t t' k Ha Hab)).
  rewrite (existsb_same _ _ filter_words
             (fun k => title_variants_keyword t t' k Ha Hab)).
  assert (Hg : forall g, matches_group (TitleStr t) g
                         = matches_group (TitleStr t') g).
  { intros g. unfold matches_group. cbn [coerce_title]. unfold str_is_empty.
    rewrite (variants_is_nil _ _ Hab).
    rewrite (forallb_same _ _ (or_empty (required g))
               (fun k => title_variants_keyword t t' k Ha Hab)).
    rewrite (existsb_same _ _ (or_empty (normal g))
               (fun k => title_variants_keyword t t' k Ha Hab)).
    reflexivity. }
  rewrite (existsb_same _ _ word_groups Hg). reflexivity.
Qed.

(** X8. Matching does not see the case of ASCII letters in a keyword:
    two ASCII keywords that differ in letter case only match the same
    titles. *)
Theorem ascii_keyword_case_is_ignored (title title_lower k k' : str) :
  str_isascii k = true -> same_up_to_ascii_case k k' ->
  _keyword_in_title title title_lower k
  = _keyword_in_title title title_lower k'.
Proof.
  intros Ha Hab. unfold _keyword_in_title, _should_use_ascii_word_boundary,
    ascii_isalnum, str_is_empty.
  rewrite (variants_str_lower _ _ Ha Hab).
  rewrite (variants_is_nil _ _ Hab), (variants_len _ _ Hab).
  unfold str_isascii.
  rewrite (forallb_variants is_ascii k k' variants_is_ascii Hab).
  rewrite (forallb_variants is_ascii_alnum k k' variants_is_alnum Hab).
  reflexivity.
Qed.

(** ** Groups and filters *)

Lemma matches_group_coerced (title : title_arg) (g : word_group) :
  matches_group (TitleStr (coerce_title title)) g = matches_group title g.
Proof. reflexivity. Qed.

(** X9. [matches_group] agrees with [matches_word_groups]: a title that
    the matcher accepts under a rulebook with groups is matched by one
    of the groups, so a caller that looks for the group of an accepted
    title finds one; and a title that is not blank, that no filter hits
    and that one of the groups matches is accepted. *)
Theorem accepted_title_has_a_group
  (title : title_arg) (word_groups : list word_group)
  (filter_words : list str) (global_filters : option (list str)) :
  word_groups <> [] ->
  (matches_word_groups title word_groups filter_words global_filters = true ->
   exists g, In g word_groups /\ matches_group title g = true)
  /\ (str_strip (coerce_title title) <> [] ->
      existsb (_keyword_in_title (coerce_title title)
                 (str_lower (coerce_title title)))
              (or_empty global_filters ++ filter_words) = false ->
      (exists g, In g word_groups /\ matches_group title g = true) ->
      matches_word_groups title word_groups filter_words global_filters
      = true).
Proof.
  intros Hne. apply is_nil_false in Hne.
  unfold matches_word_groups. rewrite Hne. split.
  - destruct (str_is_empty (str_strip (coerce_title title)));
      [discriminate|].
    destruct (negb (is_nil (or_empty global_filters)) && _);
      [discriminate|].
    destruct (existsb _ filter_words); [discriminate|].
    intros H. apply existsb_exists in H as (g & Hin & Hg).
    exists g. split; [assumption|]. now rewrite <- matches_group_coerced.
  - intros Hs Hf (g & Hin & Hg). apply is_nil_false in Hs.
    unfold str_is_empty. rewrite Hs.
    rewrite existsb_app in Hf. apply orb_false_iff in Hf as [Hf1 Hf2].
    rewrite Hf1, Hf2, andb_false_r.
    apply existsb_exists. exists g. split; [assumption|].
    now rewrite matches_group_coerced.
Qed.

(** X10. A rulebook with fewer filters and more groups accepts at least
    as much: dropping filter words or global filters, or adding groups
    to a rulebook that has some, never turns an accepted title into a
    rejected one. (Adding a first group to a rulebook without groups is
    another matter: it ends pass-through.) *)
Theorem matching_is_monotone
  (title : title_arg) (groups more : list word_group)
  (fw fw' gf gf' : list str) :
  (groups = [] -> more = []) ->
  matches_word_groups title groups (fw ++ fw') (Some (gf ++ gf')) = true ->
  matches_word_groups title (groups ++ more) fw (Some gf) = true.
Proof.
  intros Hmore. unfold matches_word_groups. cbn [or_empty].
  destruct (str_is_empty (str_strip (coerce_title title))); [discriminate|].
  set (hit := _keyword_in_title (coerce_title title)
                (str_lower (coerce_title title))).
  rewrite !existsb_app.
  destruct (existsb hit gf) eqn:Eg.
  - destruct (gf ++ gf') eqn:E; [|discriminate].
    apply app_eq_nil in E as [-> _]. discriminate Eg.
  - cbn [orb]. rewrite andb_false_r.
    destruct (existsb hit gf') eqn:Eg'.
    + destruct (gf ++ gf') eqn:E; [|discriminate].
      apply app_eq_nil in E as [_ ->]. discriminate Eg'.
    + rewrite andb_false_r.
      destruct groups as [|g groups].
      * rewrite (Hmore eq_refl). reflexivity.
      * cbn [app is_nil].
        destruct (existsb hit fw); [discriminate|]. cbn [orb].
        destruct (existsb hit fw'); [discriminate|].
        intros H. rewrite H. reflexivity.
Qed.

End WithRuntime.

(** ** Concrete runs *)

Lemma ascii_title_case_is_ignored_witness :
  matches_word_groups (RT := ascii_runtime)
    (TitleStr (utf8 "ai chips")) [ai_group] [utf8 "Chip"] None
  = matches_word_groups (RT := ascii_runtime)
      (TitleStr (utf8 "AI Chips")) [ai_group] [utf8 "Chip"] None.
Proof.
  apply (ascii_title_case_is_ignored (RT := ascii_runtime)
           (utf8 "ai chips") (utf8 "AI Chips")); reflexivity.
Defined.

Lemma ascii_keyword_case_is_ignored_witness :
  _keyword_in_title (RT := ascii_runtime)
    (utf8 "Big GPU news") (utf8 "big gpu news") (utf8 "gpu")
  = _keyword_in_title (RT := ascii_runtime)
      (utf8 "Big GPU news") (utf8 "big gpu news") (utf8 "Gpu").
Proof.
  apply (ascii_keyword_case_is_ignored (RT := ascii_runtime)); reflexivity.
Defined.

Lemma accepted_title_has_a_group_witness :
  (matches_word_groups (RT := ascii_runtime)
     (TitleStr (utf8 "AI chips")) [bare_plus_group; ai_group] [] None = true ->
   exists g, In g [bare_plus_group; ai_group]
             /\ matches_group (RT := ascii_runtime)
                  (TitleStr (utf8 "AI chips")) g = true)
  /\ (str_strip (coerce_title (TitleStr (utf8 "AI chips"))) <> [] ->
      existsb (_keyword_in_title (RT := ascii_runtime)
                 (coerce_title (TitleStr (utf8 "AI chips")))
                 (str_lower (RT := ascii_runtime)
                    (coerce_title (TitleStr (utf8 "AI chips")))))
              (or_empty None ++ []) = false ->
      (exists g, In g [bare_plus_group; ai_group]
                 /\ matches_group (RT := ascii_runtime)
                      (TitleStr (utf8 "AI chips")) g = true) ->
      matches_word_groups (RT := ascii_runtime)
        (TitleStr (utf8 "AI chips")) [bare_plus_group; ai_group] [] None
      = true).
Proof.
  apply (accepted_title_has_a_group (RT := ascii_runtime)
           (TitleStr (utf8 "AI chips")) [bare_plus_group; ai_group] [] None).
  discriminate.
Defined.

Lemma matching_is_monotone_witness :
  matches_word_groups (RT := ascii_runtime)
    (TitleStr (utf8 "AI chips")) ([ai_group] ++ [bare_plus_group])
    [utf8 "GPU"] (Some [utf8 "spam"]) = true.
Proof.
  apply (matching_is_monotone (RT := ascii_runtime)
           (TitleStr (utf8 "AI chips")) [ai_group] [bare_plus_group]
           [utf8 "GPU"] [utf8 "ad"] [utf8 "spam"] [utf8 "promo"]).
  - discriminate.
  - reflexivity.
Defined.

End MatcherProps.

(* ===================================================================== *)
(** * The payload of prepare_report_data *)
(* ===================================================================== *)

Module PayloadProps.
Import Py PyFacts Generator GeneratorTerms Samples Cases GeneratorProps.
Local Open Scope py_scope.

Section WithRuntime.
Context {RT : Runtime}.

(** ** The new-titles section switched off *)

Lemma process_new_titles_off {rulebook : Type}
  (matches : option (str -> rulebook -> result value))
  (load : option (result rulebook))
  (new_titles id_to_name : value) (mode : str) (rank_threshold : value) :
  mode = utf8 "incremental" \/ truthy new_titles = false
  \/ truthy id_to_name = false ->
  process_new_titles matches load new_titles id_to_name mode rank_threshold
  = Ok [].
Proof.
  intros H. unfold process_new_titles.
  destruct (str_eqb mode (utf8 "incremental")) eqn:Em; [reflexivity|].
  destruct H as [->|H]; [now rewrite str_eqb_refl in Em|].
  unfold filter_new_titles.
  assert (E : truthy new_titles && truthy id_to_name = false).
  { destruct H as [-> | ->]; [reflexivity | apply andb_false_r]. }
  rewrite E. reflexivity.
Qed.

(** X11. In incremental mode, and whenever [new_titles] or [id_to_name]
    is empty or [None], the payload has no new-titles section: the list
    is empty, the total is 0, and the injected matcher and loader are
    not consulted (the outcome is the one without them, even when the
    loader would raise). *)
Theorem new_titles_section_switched_off {rulebook : Type}
  (matches : option (str -> rulebook -> result value))
  (load : option (result rulebook))
  stats failed_ids new_titles id_to_name mode rank_threshold
  rss_stats rss_new_stats :
  mode = utf8 "incremental" \/ truthy new_titles = false
  \/ truthy id_to_name = false ->
  prepare_report_data matches load stats failed_ids new_titles id_to_name
    mode rank_threshold rss_stats rss_new_stats
  = prepare_report_data (rulebook := rulebook) None None stats failed_ids
      new_titles id_to_name mode rank_threshold rss_stats rss_new_stats
  /\ (forall p,
         prepare_report_data matches load stats failed_ids new_titles
           id_to_name mode rank_threshold rss_stats rss_new_stats = Ok p ->
         p_new_titles p = [] /\ p_total_new_count p = 0).
Proof.
  intros Hoff. unfold prepare_report_data.
  rewrite (process_new_titles_off matches load _ _ _ rank_threshold Hoff).
  rewrite (process_new_titles_off (rulebook := rulebook) None None
             _ _ _ rank_threshold Hoff).
  split; [reflexivity|].
  intros p H. inv_ok H. injection H as <-. cbn.
  match goal with E : Ok [] = Ok _ |- _ => injection E as <- end.
  match goal with
  | E : total_new_count [] = Ok _ |- _ => cbn in E; injection E as <-
  end.
  now split.
Qed.

(** ** Arguments that leave no trace *)

(** X12. The [rss_new_stats] argument leaves no trace in the payload:
    the [rss_new_stats] field is always the empty list, and a call that
    returns a payload returns the same one without the argument. *)
Theorem rss_new_stats_are_ignored {rulebook : Type}
  (matches : option (str -> rulebook -> result value))
  (load : option (result rulebook))
  stats failed_ids new_titles id_to_name mode rank_threshold
  rss_stats rss_new_stats (p : payload) :
  prepare_report_data matches load stats failed_ids new_titles id_to_name
    mode rank_threshold rss_stats rss_new_stats = Ok p ->
  p_rss_new_stats p = []
  /\ prepare_report_data matches load stats failed_ids new_titles id_to_name
       mode rank_threshold rss_stats None = Ok p.
Proof.
  unfold prepare_report_data. intros H.
  destruct (filterM is_personal (or_nil rss_stats)) as [pers|];
    [|discriminate]. cbn [bind] in *.
  destruct (filterM is_keyword (or_nil rss_stats)) as [kw|];
    [|discriminate]. cbn [bind] in *.
  destruct (filterM is_personal (or_nil rss_new_stats)); [|discriminate].
  cbn [bind] in H.
  destruct (filterM is_keyword (or_nil rss_new_stats)); [|discriminate].
  cbn [bind or_nil filterM] in *.
  split; [|exact H].
  inv_ok H. now injection H as <-.
Qed.

(** ** [stats] left out *)

Lemma filterM_none {A} (f : A -> result bool) (l : list A) :
  Forall (fun x => f x = Ok false) l -> filterM f l = Ok [].
Proof.
  induction 1 as [|x l Hx Hl IH]; cbn; [reflexivity|].
  now rewrite Hx, IH.
Qed.

(** X13. A call without [stats] ([None]) returns no payload when
    [rss_stats] holds no keyword entry: the final pass cannot iterate
    over [None]. With a keyword entry in [rss_stats] the same call goes
    through, [None] standing for the empty list. *)
Theorem missing_stats_need_keyword_rss {rulebook : Type}
  (matches : option (str -> rulebook -> result value))
  (load : option (result rulebook))
  failed_ids new_titles id_to_name mode rank_threshold
  rss_stats rss_new_stats :
  (Forall (fun s => is_keyword s = Ok false) (or_nil rss_stats) ->
   forall p,
     prepare_report_data matches load None failed_ids new_titles id_to_name
       mode rank_threshold rss_stats rss_new_stats <> Ok p)
  /\ ((exists s, In s (or_nil rss_stats) /\ is_keyword s = Ok true) ->
      prepare_report_data matches load None failed_ids new_titles id_to_name
        mode rank_threshold rss_stats rss_new_stats
      = prepare_report_data matches load (Some []) failed_ids new_titles
          id_to_name mode rank_threshold rss_stats rss_new_stats).
Proof.
  split.
  - intros Hno p H. unfold prepare_report_data in H.
    rewrite (filterM_none _ _ Hno) in H. inv_ok H.
    match goal with E : Ok [] = Ok _ |- _ => injection E as <- end.
    match goal with
    | E : (if is_nil [] then Ok None else _) = Ok _ |- _ =>
        cbn in E; injection E as <-
    end.
    match goal with E : process_stats None = Ok _ |- _ => discriminate E end.
  - intros (s & Hin & Hs). unfold prepare_report_data.
    destruct (filterM is_personal (or_nil rss_stats)) as [pers|];
      [|reflexivity]. cbn [bind].
    destruct (filterM is_keyword (or_nil rss_stats)) as [kw|] eqn:Ekw;
      [|reflexivity]. cbn [bind].
    pose proof (filterM_keeps _ _ _ _ Ekw Hin Hs) as Hkw.
    destruct kw as [|k kw]; [destruct Hkw|]. reflexivity.
Qed.

(** ** Personal and keyword entries of [rss_stats] *)

Lemma is_personal_word (s : value) (b : bool) :
  is_personal s = Ok b ->
  is_personal s = Ok (personal_word s)
  /\ is_keyword s = Ok (negb (personal_word s)).
Proof.
  unfold is_personal, is_keyword, personal_word.
  destruct s; try discriminate. intros _. split; reflexivity.
Qed.

Lemma filterM_Ok_Forall {A} (f : A -> result bool) (l r : list A) :
  filterM f l = Ok r -> Forall (fun x => exists b, f x = Ok b) l.
Proof.
  revert r. induction l as [|x l IH]; intros r H; [constructor|].
  cbn in H. inv_ok H. constructor; [eauto | eapply IH; eassumption].
Qed.

Lemma filterM_filter_eq {A} (f : A -> result bool) (g : A -> bool)
  (l : list A) :
  Forall (fun x => f x = Ok (g x)) l -> filterM f l = Ok (filter g l).
Proof.
  induction 1 as [|x l Hx Hl IH]; cbn; [reflexivity|].
  rewrite Hx, IH. cbn. now destruct (g x).
Qed.

Lemma filter_filter_same {A} (g : A -> bool) (l : list A) :
  filter g (filter g l) = filter g l.
Proof.
  induction l as [|x l IH]; cbn; [reflexivity|].
  destruct (g x) eqn:E; cbn; [rewrite E; now f_equal | assumption].
Qed.

Lemma filter_filter_opposite {A} (g h : A -> bool) (l : list A) :
  (forall x, g x = true -> h x = false) -> filter h (filter g l) = [].
Proof.
  intros Hgh. induction l as [|x l IH]; cbn; [reflexivity|].
  destruct (g x) eqn:E; cbn; [rewrite (Hgh _ E)|]; assumption.
Qed.

(** How a list of entries that [is_personal] accepts splits. *)
Lemma rss_split (l pers : list value) :
  filterM is_personal l = Ok pers ->
  let kw := filter (fun x => negb (personal_word x)) l in
  pers = filter personal_word l
  /\ filterM is_keyword l = Ok kw
  /\ filterM is_personal pers = Ok pers
  /\ filterM is_keyword pers = Ok []
  /\ filterM is_personal kw = Ok []
  /\ filterM is_keyword kw = Ok kw.
Proof.
  intros H kw. pose proof (filterM_Ok_Forall _ _ _ H) as Hall.
  assert (Hp : Forall (fun x => is_personal x = Ok (personal_word x)) l).
  { eapply Forall_impl; [|exact Hall]. intros x [b Hb].
    now apply is_personal_word in Hb. }
  assert (Hk : Forall (fun x => is_keyword x
                                = Ok (negb (personal_word x))) l).
  { eapply Forall_impl; [|exact Hall]. intros x [b Hb].
    now apply is_personal_word in Hb. }
  assert (Sub : forall (P : value -> Prop) g,
             Forall P l -> Forall P (filter g l)).
  { intros P g HP. apply Forall_forall. intros x Hx.
    apply filter_In in Hx as [Hx _]. rewrite Forall_forall in HP.
    now apply HP. }
  rewrite (filterM_filter_eq _ _ _ Hp) in H. injection H as <-.
  subst kw.
  split; [reflexivity|]. split; [now apply filterM_filter_eq|].
  split; [|split; [|split]].
  - rewrite (filterM_filter_eq _ _ _ (Sub _ _ Hp)).
    now rewrite filter_filter_same.
  - rewrite (filterM_filter_eq _ _ _ (Sub _ _ Hk)).
    rewrite filter_filter_opposite; [reflexivity|].
    intros x ->. reflexivity.
  - rewrite (filterM_filter_eq _ _ _ (Sub _ _ Hp)).
    rewrite filter_filter_opposite; [reflexivity|].
    intros x Hx. now apply negb_true_iff.
  - rewrite (filterM_filter_eq _ _ _ (Sub _ _ Hk)).
    now rewrite filter_filter_same.
Qed.

(** X14. The two kinds of [rss_stats] entries do not mix. The [stats] of
    the payload are those of the call that is given the keyword entries
    only (which yields no [rss_stats]), and the [rss_stats] of the
    payload are those of the call that is given the personal-feed
    entries only, with no hot-list entry (which yields no [stats]). *)
Theorem personal_and_keyword_rss_do_not_mix {rulebook : Type}
  (matches : option (str -> rulebook -> result value))
  (load : option (result rulebook))
  stats failed_ids new_titles id_to_name mode rank_threshold
  (rss : list value) rss_new_stats (p : payload) :
  prepare_report_data matches load stats failed_ids new_titles id_to_name
    mode rank_threshold (Some rss) rss_new_stats = Ok p ->
  (exists p1,
      prepare_report_data matches load stats failed_ids new_titles
        id_to_name mode rank_threshold
        (Some (filter (fun x => negb (personal_word x)) rss))
        rss_new_stats = Ok p1
      /\ p_stats p1 = p_stats p /\ p_rss_stats p1 = [])
  /\ (exists p2,
         prepare_report_data matches load (Some []) failed_ids new_titles
           id_to_name mode rank_threshold
           (Some (filter personal_word rss)) rss_new_stats = Ok p2
         /\ p_stats p2 = [] /\ p_rss_stats p2 = p_rss_stats p).
Proof.
  unfold prepare_report_data. cbn [or_nil]. intros H.
  destruct (filterM is_personal rss) as [pers|] eqn:Ep; [|discriminate].
  destruct (rss_split _ _ Ep) as (Epers & Ek & Epp & Epk & Ekp & Ekk).
  rewrite Ek in H. cbn [bind] in H. rewrite <- Epers.
  set (kw := filter (fun x => negb (personal_word x)) rss) in *.
  destruct (filterM is_personal (or_nil rss_new_stats)) eqn:En1;
    [|discriminate].
  destruct (filterM is_keyword (or_nil rss_new_stats)) eqn:En2;
    [|discriminate].
  cbn [bind] in H.
  destruct (if is_nil kw then Ok stats
            else s <- merge_stats (or_nil stats) kw ;; Ok (Some s))
    as [stats'|] eqn:Es; [|discriminate].
  destruct (if is_nil pers then Ok [] else regroup_personal pers)
    as [feeds|] eqn:Ef; [|discriminate].
  cbn [bind] in H.
  destruct (process_new_titles matches load new_titles id_to_name mode
              rank_threshold) as [nt|] eqn:Ent; [|discriminate].
  cbn [bind] in H.
  destruct (process_stats stats') as [ps|] eqn:Eps; [|discriminate].
  cbn [bind] in H.
  destruct (total_new_count nt) as [total|] eqn:Et; [|discriminate].
  cbn [bind] in H. injection H as <-. cbn [p_stats p_rss_stats].
  split.
  - rewrite Ekp, Ekk. cbn [bind is_nil]. rewrite Es. cbn [bind].
    rewrite Eps. cbn [bind]. rewrite Et. cbn [bind].
    eexists. split; [reflexivity|]. now split.
  - rewrite Epp, Epk. cbn [bind is_nil]. rewrite Ef. cbn [bind].
    cbn [process_stats mapM bind concat]. rewrite Et. cbn [bind].
    eexists. split; [reflexivity|]. now split.
Qed.

(** ** The final pass *)

Lemma getitem_field (x : value) (k : str) (v : value) :
  py_getitem x k = Ok v -> entry_field k x = Some v.
Proof.
  unfold py_getitem, entry_field. destruct x; try discriminate.
  destruct (dict_lookup k d); [congruence | discriminate].
Qed.

(** What [process_stat] emits, told by the count test. *)
Lemma process_stat_kept (stat : value) (out : list value) :
  process_stat stat = Ok out ->
  (kept_by_final_pass stat = false /\ out = [])
  \/ (kept_by_final_pass stat = true
      /\ exists e, out = [e]
           /\ entry_field k_word e = entry_field k_word stat
           /\ entry_field k_count e = entry_field k_count stat).
Proof.
  intros H. unfold kept_by_final_pass.
  destruct (process_stat_emits _ _ H)
    as [-> | (c & w & pct & titles & ts & Ec & Ele & Ew & _ & _ & ->)].
  - left. split; [|reflexivity]. unfold process_stat in H.
    destruct (py_getitem stat k_count) as [c|]; [|discriminate].
    cbn [bind] in H. destruct (py_le_int c 0) as [[|]|];
      [reflexivity | | discriminate].
    exfalso. cbn [bind] in H. inv_ok H. discriminate H.
  - right. rewrite Ec, Ele. split; [reflexivity|].
    eexists. split; [reflexivity|].
    rewrite (getitem_field _ _ _ Ew), (getitem_field _ _ _ Ec).
    split; reflexivity.
Qed.

Lemma process_stats_order (k : str) (stats : list value)
  (groups : list (list value)) :
  k = k_word \/ k = k_count ->
  mapM process_stat stats = Ok groups ->
  map (entry_field k) (concat groups)
  = map (entry_field k) (filter kept_by_final_pass stats).
Proof.
  intros Hk H. apply mapM_Forall2 in H.
  induction H as [|stat g stats groups Hs Hrest IH]; [reflexivity|].
  cbn [concat filter]. rewrite map_app, IH.
  destruct (process_stat_kept _ _ Hs)
    as [[-> ->] | (-> & e & -> & Ew & Ec)]; [reflexivity|].
  cbn [map app]. destruct Hk as [-> | ->]; now rewrite ?Ew, ?Ec.
Qed.

(** X15. Without a keyword entry in [rss_stats] nothing is sorted: the
    [stats] of the payload are the entries of the input that pass the
    count test, in input order, each with its word and its count. *)
Theorem stats_keep_input_order_without_keyword_rss {rulebook : Type}
  (matches : option (str -> rulebook -> result value))
  (load : option (result rulebook))
  (stats : list value) failed_ids new_titles id_to_name mode rank_threshold
  rss_stats rss_new_stats (p : payload) :
  Forall (fun s => is_keyword s = Ok false) (or_nil rss_stats) ->
  prepare_report_data matches load (Some stats) failed_ids new_titles
    id_to_name mode rank_threshold rss_stats rss_new_stats = Ok p ->
  map (entry_field k_word) (p_stats p)
  = map (entry_field k_word) (filter kept_by_final_pass stats)
  /\ map (entry_field k_count) (p_stats p)
     = map (entry_field k_count) (filter kept_by_final_pass stats).
Proof.
  intros Hno H.
  destruct (prepare_runs_final_pass _ _ _ _ _ _ _ _ _ _ _ H)
    as (pers & kw & stats' & _ & Ek & Es & _ & Ep).
  rewrite (filterM_none _ _ Hno) in Ek. injection Ek as <-.
  cbn in Es. injection Es as <-.
  unfold process_stats in Ep. inv_ok Ep. injection Ep as <-.
  split; eapply process_stats_order; eauto.
Qed.

Lemma process_title_complete (t out : value) :
  process_title t = Ok out -> complete_title t.
Proof.
  unfold process_title. intros H. inv_ok H.
  repeat split; eexists; eapply getitem_field; eassumption.
Qed.

(** X16. The final pass reads some fields by subscript, so a payload is
    returned only when they are there: every entry of [stats] is a dict
    with a numeric [count], and every entry that passes the count test
    has a [word] and a sequence of [titles], each title a dict with
    [title], [source_name], [time_display], [count], [ranks] and
    [rank_threshold]. An entry that fails the count test may lack all
    of these. *)
Theorem final_pass_requires_fields (stats out : list value) :
  process_stats (Some stats) = Ok out ->
  Forall (fun s =>
            (exists c, entry_field k_count s = Some c
                       /\ as_number c <> None)
            /\ (kept_by_final_pass s = true ->
                has_field k_word s
                /\ exists titles,
                     bind (py_getitem s k_titles) py_iter = Ok titles
                     /\ Forall complete_title titles))
         stats.
Proof.
  unfold process_stats. intros H. inv_ok H. clear H.
  match goal with E : mapM _ _ = Ok _ |- _ => apply mapM_Forall2 in E;
    induction E as [|s g stats groups Hs Hrest IH] end; [constructor|].
  constructor; [|exact IH]. split.
  - unfold process_stat in Hs.
    destruct (py_getitem s k_count) as [c|] eqn:Ec; [|discriminate].
    cbn [bind] in Hs. exists c. split; [now apply getitem_field|].
    unfold py_le_int in Hs. destruct (as_number c); [discriminate|].
    discriminate Hs.
  - intros Hk.
    destruct (process_stat_emits _ _ Hs)
      as [-> | (c & w & pct & titles & ts & Ec & Ele & Ew & Et & Em & ->)].
    + destruct (process_stat_kept _ _ Hs) as [[Hf _] | (_ & e & He & _)];
        [congruence | discriminate He].
    + split; [eexists; eapply getitem_field; eassumption|].
      exists titles. split; [assumption|].
      apply mapM_Forall2 in Em. clear - Em.
      induction Em as [|t o titles ts Ht Hrest IH]; constructor;
        [eapply process_title_complete; eassumption | assumption].
Qed.

(** ** Entries that the merge leaves alone *)

(** X17. The merge leaves alone a hot-list entry whose word no keyword
    entry of [rss_stats] has: the entry (the last of its word) is among
    the merged stats as it was given. *)
Theorem unmatched_primary_entry_is_kept
  (pre post rss out : list value) (pd : dict) (w : str) :
  w <> [] -> word_of (VDict pd) = VStr w ->
  no_word w post -> no_word w rss ->
  merge_stats (pre ++ VDict pd :: post) rss = Ok out ->
  In (VDict pd) out.
Proof.
  intros Hw Hpd Hpost Hrss H.
  destruct (merge_stats_cases _ _ _ H) as (m & keys & Hm & _ & _ & Hperm).
  unfold merge_by_word in Hm. inv_ok Hm.
  match goal with
  | E : foldM add_primary _ _ = Ok _ |- _ =>
      pose proof (primary_entry w pre post pd _ Hw Hpd Hpost E) as Hl
  end.
  rewrite <- (foldM_other w merge_rss rss _ _ (merge_rss_other w) Hrss Hm)
    in Hl.
  apply kd_lookup_In in Hl.
  eapply Permutation_in; [apply Permutation_sym; exact Hperm|].
  now apply in_map.
Qed.

(** ** One entry per word *)

Lemma dict_get_lookup (d : dict) (k : str) (v : value) :
  dict_get d k VNone = v -> v <> VNone -> dict_lookup k d = Some v.
Proof.
  unfold dict_get. destruct (dict_lookup k d); congruence.
Qed.

Lemma kd_set_filed (w : str) (d : dict) (m : merged_map) :
  dict_lookup k_word d = Some (VStr w) ->
  filed_by_word m -> filed_by_word (kd_set (VStr w) d m).
Proof.
  intros Hd [Hnd Hall].
  assert (Hkeys : map fst (kd_set (VStr w) d m) = map fst m
                  \/ (map fst (kd_set (VStr w) d m) = map fst m ++ [VStr w]
                      /\ ~ In (VStr w) (map fst m))).
  { clear Hnd. induction m as [|[k a] m IH]; cbn.
    - right. split; [reflexivity | easy].
    - inversion Hall as [|? ? (w' & Hk & _) Hrest]; subst. cbn in Hk. subst k.
      destruct (key_eqb (VStr w') (VStr w)) eqn:E; [now left|].
      cbn [map fst].
      destruct (IH Hrest) as [-> | [-> Hn]]; [now left|].
      right. split; [reflexivity|]. intros [H|H]; [|now apply Hn].
      injection H as ->. cbn in E. now rewrite str_eqb_refl in E. }
  split.
  - destruct Hkeys as [-> | [-> Hn]]; [assumption|].
    apply NoDup_app; [assumption | repeat constructor; easy |].
    intros x Hx [<-|[]]. now apply Hn.
  - clear Hnd Hkeys. induction m as [|[k a] m IH]; cbn.
    + constructor; [|constructor]. exists w. now split.
    + inversion Hall as [|? ? Hka Hrest]; subst.
      destruct (key_eqb k (VStr w)) eqn:E.
      * apply key_eqb_str in E. subst k. constructor; [|assumption].
        exists w. now split.
      * constructor; [assumption | now apply IH].
Qed.

Lemma kd_lookup_filed (w : str) (md : dict) (m : merged_map) :
  filed_by_word m -> kd_lookup (VStr w) m = Some md ->
  dict_lookup k_word md = Some (VStr w).
Proof.
  intros [_ Hall]. induction m as [|[k a] m IH]; cbn; [discriminate|].
  inversion Hall as [|? ? (w' & Hk & Ha) Hrest]; subst. cbn in Hk, Ha.
  destruct (key_eqb k (VStr w)) eqn:E; [|now apply IH].
  apply key_eqb_str in E. intros [= <-]. congruence.
Qed.

Lemma truthy_string_word (x : value) (d : dict) :
  string_word x -> x = VDict d ->
  truthy (dict_get d k_word VNone) = true ->
  exists w, dict_get d k_word VNone = VStr w
            /\ dict_lookup k_word d = Some (VStr w).
Proof.
  intros Hx -> Ht. destruct (Hx d eq_refl Ht) as [w Hw].
  exists w. split; [assumption|]. now apply dict_get_lookup.
Qed.

Lemma merge_into_keeps_lookup (md sd md' : dict) (w : str) :
  merge_into md (VDict sd) = Ok md' ->
  dict_lookup k_word md = Some (VStr w) ->
  dict_lookup k_word md' = Some (VStr w).
Proof.
  intros H Hw. apply merge_into_keeps_word in H.
  apply dict_get_lookup; [|discriminate].
  rewrite H. unfold dict_get. now rewrite Hw.
Qed.

Lemma merge_by_word_filed (stats rss : list value) (m : merged_map) :
  Forall string_word stats -> Forall string_word rss ->
  merge_by_word stats rss = Ok m -> filed_by_word m.
Proof.
  intros Hs Hr H. unfold merge_by_word in H. inv_ok H.
  match goal with
  | E : foldM add_primary _ _ = Ok ?m0 |- _ =>
      assert (H0 : filed_by_word m0);
      [eapply (foldM_invariant filed_by_word); [| |exact E]|]
  end.
  - split; constructor.
  - intros s x s' Hin Hi Hx. rewrite Forall_forall in Hs.
    destruct (add_primary_cases _ _ _ Hx) as (d & -> & [[_ ->]|[Ht ->]]);
      [assumption|].
    destruct (truthy_string_word _ d (Hs _ Hin) eq_refl Ht) as (w & -> & Hw).
    now apply kd_set_filed.
  - eapply (foldM_invariant filed_by_word); [exact H0| |exact H].
    intros s x s' Hin Hi Hx. rewrite Forall_forall in Hr.
    destruct (merge_rss_cases _ _ _ Hx)
      as (d & -> & [[_ ->]|[Ht Hcase]]); [assumption|].
    destruct (truthy_string_word _ d (Hr _ Hin) eq_refl Ht) as (w & Ew & Hw).
    rewrite Ew in Hcase.
    destruct Hcase as [[_ ->] | (md & md' & Hl & Hm & ->)].
    + now apply kd_set_filed.
    + apply kd_set_filed; [|assumption].
      eapply merge_into_keeps_lookup; [exact Hm|].
      eapply kd_lookup_filed; eassumption.
Qed.

Lemma filed_words_distinct (m : merged_map) :
  filed_by_word m ->
  NoDup (map (entry_field k_word) (map VDict (map snd m))).
Proof.
  intros [Hnd Hall].
  assert (E : map (entry_field k_word) (map VDict (map snd m))
              = map Some (map fst m)).
  { clear Hnd. induction Hall as [|[k a] m (w & Hk & Ha) Hrest IH];
      [reflexivity|].
    cbn in *. subst k. now rewrite Ha, IH. }
  rewrite E. clear E Hall. induction Hnd as [|k ks Hk Hks IH]; cbn;
    constructor; [|assumption].
  intros Hin. apply in_map_iff in Hin as (k' & [= ->] & Hin). now apply Hk.
Qed.

Lemma NoDup_map_filter {A B} (f : A -> B) (g : A -> bool) (l : list A) :
  NoDup (map f l) -> NoDup (map f (filter g l)).
Proof.
  induction l as [|x l IH]; cbn; intros H; [constructor|].
  inversion H as [|? ? Hx Hl]; subst.
  destruct (g x); [|now apply IH]. cbn. constructor; [|now apply IH].
  intros Hin. apply Hx. apply in_map_iff in Hin as (y & Hy & Hin).
  apply filter_In in Hin as [Hin _]. apply in_map_iff. eauto.
Qed.

(** X18. Once a keyword entry of [rss_stats] has set off the merge, the
    [stats] of the payload hold every word at most once (for entries
    whose words are strings): entries of the same word have been merged
    into one, or the last has replaced the others. *)
Theorem merged_stats_have_distinct_words {rulebook : Type}
  (matches : option (str -> rulebook -> result value))
  (load : option (result rulebook))
  stats failed_ids new_titles id_to_name mode rank_threshold
  rss_stats rss_new_stats (p : payload) :
  (exists s, In s (or_nil rss_stats) /\ is_keyword s = Ok true) ->
  Forall string_word (or_nil stats) ->
  Forall string_word (or_nil rss_stats) ->
  prepare_report_data matches load stats failed_ids new_titles id_to_name
    mode rank_threshold rss_stats rss_new_stats = Ok p ->
  NoDup (map (entry_field k_word) (p_stats p)).
Proof.
  intros (s & Hin & Hs) Hstats Hrss H.
  destruct (prepare_runs_final_pass _ _ _ _ _ _ _ _ _ _ _ H)
    as (pers & kw & stats' & Epers & Ek & Es & _ & Ep).
  pose proof (filterM_keeps _ _ _ _ Ek Hin Hs) as Hkw.
  destruct kw as [|k0 kw0] eqn:Ekw; [destruct Hkw|]. rewrite <- Ekw in *.
  assert (Hnil : is_nil kw = false) by now rewrite Ekw.
  rewrite Hnil in Es. inv_ok Es. injection Es as <-.
  destruct (rss_split _ _ Epers) as (_ & Ek' & _).
  rewrite Ek in Ek'. injection Ek' as Ek'.
  assert (Hkws : Forall string_word kw).
  { rewrite Ek'. apply Forall_forall. intros x Hx.
    apply filter_In in Hx as [Hx _]. rewrite Forall_forall in Hrss.
    now apply Hrss. }
  match goal with
  | E : merge_stats _ _ = Ok ?out |- _ =>
      destruct (merge_stats_cases _ _ _ E) as (m & keys & Hm & _ & _ & Hperm)
  end.
  pose proof (filed_words_distinct _
                (merge_by_word_filed _ _ _ Hstats Hkws Hm)) as Hnd.
  unfold process_stats in Ep. inv_ok Ep. injection Ep as <-.
  match goal with
  | E : mapM process_stat _ = Ok _ |- _ =>
      rewrite (process_stats_order k_word _ _ (or_introl eq_refl) E)
  end.
  apply NoDup_map_filter.
  eapply Permutation_NoDup; [|exact Hnd].
  apply Permutation_map. now apply Permutation_sym.
Qed.

(** ** The shape of the payload *)

Lemma process_title_keys (t out : value) :
  process_title t = Ok out -> has_keys title_keys out.
Proof.
  unfold process_title. intros H. inv_ok H. injection H as <-.
  eexists. split; reflexivity.
Qed.

Lemma mapM_Forall_out {A B} (f : A -> result B) (P : B -> Prop)
  (l : list A) (ys : list B) :
  (forall x y, f x = Ok y -> P y) -> mapM f l = Ok ys -> Forall P ys.
Proof.
  intros HP H. apply mapM_Forall2 in H.
  induction H as [|x y l ys Hx Hl IH]; constructor; eauto.
Qed.

Lemma process_stat_keys (stat : value) (out : list value) :
  process_stat stat = Ok out -> Forall (entry_of_titles stat_keys) out.
Proof.
  intros H.
  destruct (process_stat_emits _ _ H)
    as [-> | (c & w & pct & titles & ts & _ & _ & _ & _ & Em & ->)];
    [constructor|].
  constructor; [|constructor]. split.
  - eexists. split; reflexivity.
  - exists ts. split; [reflexivity|].
    eapply mapM_Forall_out; [|exact Em]. apply process_title_keys.
Qed.

Lemma new_title_entry_keys (source_name rank_threshold : value)
  (tv : str * value) (out : value) :
  new_title_entry source_name rank_threshold tv = Ok out ->
  has_keys title_keys out.
Proof.
  unfold new_title_entry. destruct tv as [title title_data].
  intros H. inv_ok H. injection H as <-. eexists. split; reflexivity.
Qed.

Lemma new_source_entry_keys (id_to_name rank_threshold : value)
  (kv : str * value) (out : list value) :
  new_source_entry id_to_name rank_threshold kv = Ok out ->
  Forall (entry_of_titles source_keys) out.
Proof.
  unfold new_source_entry. destruct kv as [source_id titles_data].
  intros H. inv_ok H. injection H as <-.
  match goal with
  | E : mapM (new_title_entry _ _) _ = Ok ?ts |- _ =>
      destruct (is_nil ts); [constructor|];
      pose proof (mapM_Forall_out _ _ _ _
                    (new_title_entry_keys _ _) E) as Hts
  end.
  constructor; [|constructor]. split.
  - eexists. split; reflexivity.
  - eexists. split; [reflexivity | exact Hts].
Qed.

(** X19. The dicts of the payload have fixed keys, whatever fields the
    input carries besides: an entry of [stats] has [word], [count],
    [percentage], [titles]; an entry of [new_titles] has [source_id],
    [source_name], [titles]; and every title under either has [title],
    [source_name], [time_display], [count], [ranks], [rank_threshold],
    [url], [mobile_url], [is_new]. *)
Theorem payload_entries_have_fixed_keys {rulebook : Type}
  (matches : option (str -> rulebook -> result value))
  (load : option (result rulebook))
  stats failed_ids new_titles id_to_name mode rank_threshold
  rss_stats rss_new_stats (p : payload) :
  prepare_report_data matches load stats failed_ids new_titles id_to_name
    mode rank_threshold rss_stats rss_new_stats = Ok p ->
  Forall (entry_of_titles stat_keys) (p_stats p)
  /\ Forall (entry_of_titles source_keys) (p_new_titles p).
Proof.
  unfold prepare_report_data. intros H. inv_ok H. injection H as <-.
  cbn [p_stats p_new_titles]. split.
  - match goal with
    | E : process_stats _ = Ok _ |- _ =>
        unfold process_stats in E;
        match type of E with
        | match ?s with _ => _ end = _ => destruct s; [|discriminate]
        end;
        inv_ok E; injection E as <-
    end.
    eapply mapM_concat_Forall; [eassumption|].
    intros x g _ Hx. exact (process_stat_keys _ _ Hx).
  - match goal with
    | E : process_new_titles _ _ _ _ _ _ = Ok _ |- _ =>
        unfold process_new_titles in E;
        destruct (str_eqb mode (utf8 "incremental"));
        [injection E as <-; constructor|];
        inv_ok E;
        match type of E with
        | (if ?c then _ else _) = _ =>
            destruct c; [|injection E as <-; constructor]
        end;
        inv_ok E; injection E as <-
    end.
    eapply mapM_concat_Forall; [eassumption|].
    intros x g _ Hx. exact (new_source_entry_keys _ _ _ _ Hx).
Qed.

(** ** Positions and percentages that cannot be read *)

Lemma except_raise {A} (e : exn) (h : result A) (x : A) :
  except_type_value (Raise e) h = Ok x -> h = Ok x.
Proof. destruct e; cbn; congruence. Qed.

(** X20. The merge of two entries of one word goes by what can be read.
    The merged position is the smaller of the two when both read as
    integers, and else the position of the hot-list entry as it was
    (999 when it had none). The merged percentage is the sum of the two
    as floats when both read as numbers (absent or falsy reading as 0),
    and else the percentage field is left as it was. *)
Theorem merge_goes_by_what_can_be_read (md sd md' : dict) :
  merge_into md (VDict sd) = Ok md' ->
  let mp := dict_get md k_position (VInt 999) in
  let sp := dict_get sd k_position (VInt 999) in
  match py_int mp, py_int sp with
  | Ok a, Ok b => dict_lookup k_position md' = Some (VInt (Z.min a b))
  | _, _ => dict_lookup k_position md' = Some mp
  end
  /\ match py_float (py_or (dict_get md k_percentage (VInt 0)) (VInt 0)),
           py_float (py_or (dict_get sd k_percentage (VInt 0)) (VInt 0))
     with
     | Ok p1, Ok p2 =>
         dict_lookup k_percentage md' = Some (VFloat (float_add p1 p2))
     | _, _ => dict_lookup k_percentage md' = dict_lookup k_percentage md
     end.
Proof.
  intros H mp sp. unfold merge_into in H. cbn [py_get bind] in H.
  destruct (py_int (py_or (dict_get md k_count (VInt 0)) (VInt 0)))
    as [c1|]; [|discriminate]. cbn [bind] in H.
  destruct (py_int (py_or (dict_get sd k_count (VInt 0)) (VInt 0)))
    as [c2|]; [|discriminate]. cbn [bind] in H.
  rewrite (dict_get_set_other k_titles k_count) in H by reflexivity.
  destruct (py_iter (py_or (dict_get md k_titles (VList [])) (VList [])))
    as [t1|]; [|discriminate]. cbn [bind] in H.
  destruct (py_iter (py_or (dict_get sd k_titles (VList [])) (VList [])))
    as [t2|]; [|discriminate]. cbn [bind] in H.
  rewrite !(dict_get_set_other k_position) in H by reflexivity.
  fold mp sp in H.
  set (m2 := dict_set k_titles (VList (t1 ++ t2))
               (dict_set k_count (VInt (c1 + c2)) md)) in *.
  assert (Hpos : forall pos,
             dict_lookup k_position (dict_set k_position pos m2) = Some pos).
  { intros pos. rewrite dict_lookup_set. now rewrite str_eqb_refl. }
  assert (Hpct : forall pos,
             dict_lookup k_percentage (dict_set k_position pos m2)
             = dict_lookup k_percentage md).
  { intros pos. unfold m2. now rewrite !dict_lookup_set. }
  assert (Hset : forall pos f,
             dict_lookup k_position
               (dict_set k_percentage f (dict_set k_position pos m2))
             = Some pos
             /\ dict_lookup k_percentage
                  (dict_set k_percentage f (dict_set k_position pos m2))
                = Some f).
  { intros pos f. rewrite !dict_lookup_set. split; reflexivity. }
  assert (Hend : forall pos,
             except_type_value
               (p1 <- py_float
                        (py_or (dict_get (dict_set k_position pos m2)
                                  k_percentage (VInt 0)) (VInt 0));;
                p2 <- py_float
                        (py_or (dict_get sd k_percentage (VInt 0)) (VInt 0));;
                Ok (dict_set k_percentage (VFloat (float_add p1 p2))
                      (dict_set k_position pos m2)))
               (Ok (dict_set k_position pos m2)) = Ok md' ->
             dict_lookup k_position md' = Some pos
             /\ match py_float
                        (py_or (dict_get md k_percentage (VInt 0)) (VInt 0)),
                      py_float
                        (py_or (dict_get sd k_percentage (VInt 0)) (VInt 0))
                with
                | Ok p1, Ok p2 =>
                    dict_lookup k_percentage md'
                    = Some (VFloat (float_add p1 p2))
                | _, _ =>
                    dict_lookup k_percentage md'
                    = dict_lookup k_percentage md
                end).
  { intros pos Hp. unfold m2 in Hp at 1.
    rewrite !(dict_get_set_other k_percentage) in Hp by reflexivity.
    destruct (py_float (py_or (dict_get md k_percentage (VInt 0)) (VInt 0)))
      as [p1|e1]; cbn [bind] in Hp.
    - destruct (py_float
                  (py_or (dict_get sd k_percentage (VInt 0)) (VInt 0)))
        as [p2|e2]; cbn [bind] in Hp.
      + cbn in Hp. injection Hp as <-. apply Hset.
      + apply except_raise in Hp. injection Hp as <-. now split.
    - apply except_raise in Hp. injection Hp as <-. now split. }
  destruct (py_int mp) as [a|e1]; cbn [bind] in H.
  - destruct (py_int sp) as [b|e2]; cbn [bind] in H.
    + cbn [except_type_value] in H. cbn [bind] in H. now apply Hend.
    + match type of H with
      | bind ?c _ = _ => destruct c as [pos|] eqn:E; [|discriminate]
      end.
      apply except_raise in E. injection E as <-. cbn [bind] in H.
      now apply Hend.
  - match type of H with
    | bind ?c _ = _ => destruct c as [pos|] eqn:E; [|discriminate]
    end.
    apply except_raise in E. injection E as <-. cbn [bind] in H.
    now apply Hend.
Qed.

(** ** Every personal title is filed once *)

Lemma len_app {A} (l l' : list A) : len (l ++ l') = len l + len l'.
Proof. unfold len. rewrite length_app. lia. Qed.

Lemma sum_app (l l' : list Z) : sum (l ++ l') = sum l + sum l'.
Proof.
  unfold sum. induction l as [|x l IH]; cbn [app fold_right];
    [reflexivity | rewrite IH; lia].
Qed.

Lemma sum_perm (l l' : list Z) : Permutation l l' -> sum l = sum l'.
Proof.
  unfold sum. induction 1; cbn [fold_right]; lia.
Qed.

Lemma setdefault_append_total (k x : value) (d : kdict (list value)) :
  items_total (setdefault_append k x d) = items_total d + 1.
Proof.
  unfold items_total, sum. induction d as [|[k' items] d IH]; cbn.
  - unfold len. cbn. lia.
  - destruct (key_eqb k' k); cbn.
    + rewrite len_app. unfold len at 2. cbn. lia.
    + rewrite IH. lia.
Qed.

Lemma foldM_add_total (titles : list value) (d d' : kdict (list value)) :
  foldM add_to_feed titles d = Ok d' ->
  items_total d' = items_total d + len titles.
Proof.
  revert d. induction titles as [|t titles IH]; intros d H; cbn in H.
  - injection H as <-. unfold len. cbn. lia.
  - inv_ok H. apply IH in H. rewrite H.
    match goal with
    | E : add_to_feed _ _ = Ok _ |- _ =>
        unfold add_to_feed in E; inv_ok E; injection E as <-
    end.
    rewrite setdefault_append_total. unfold len. cbn [length].
    lia.
Qed.

Lemma summarize_feed_len (kv : value * list value) (s : summary) :
  summarize_feed kv = Ok s -> len (snd (fst s)) = len (snd kv).
Proof.
  unfold summarize_feed. destruct kv as [name items]. intros H.
  inv_ok H. injection H as <-. cbn [fst snd].
  match goal with
  | E1 : mapM _rank_key items = Ok ?keys,
    E2 : mapM clean_item _ = Ok ?cleaned |- _ =>
      apply mapM_length in E1; apply mapM_length in E2;
      pose proof (Permutation_length (sort_on_perm Z.ltb keys items E1))
        as Hp
  end.
  unfold len. congruence.
Qed.

Lemma summaries_total_of (d : kdict (list value)) (sums : list summary) :
  mapM summarize_feed d = Ok sums -> summaries_total sums = items_total d.
Proof.
  intros H. apply mapM_Forall2 in H.
  unfold summaries_total, items_total, sum.
  induction H as [|kv s d sums Hs Hrest IH]; [reflexivity|].
  cbn. rewrite IH, (summarize_feed_len _ _ Hs). reflexivity.
Qed.

Lemma insert_byM_perm {A} (lt : A -> A -> result bool) (x : A)
  (l r : list A) :
  insert_byM lt x l = Ok r -> Permutation (x :: l) r.
Proof.
  revert r. induction l as [|y l IH]; intros r H; cbn in H.
  - injection H as <-. reflexivity.
  - inv_ok H. match goal with b : bool |- _ => destruct b end.
    + inv_ok H. injection H as <-.
      etransitivity; [apply perm_swap|]. apply perm_skip. now apply IH.
    + injection H as <-. reflexivity.
Qed.

Lemma stable_sortM_perm {A} (lt : A -> A -> result bool) (l r : list A) :
  stable_sortM lt l = Ok r -> Permutation l r.
Proof.
  revert r. induction l as [|x l IH]; intros r H; cbn in H.
  - injection H as <-. constructor.
  - inv_ok H. apply insert_byM_perm in H.
    etransitivity; [|exact H]. apply perm_skip. now apply IH.
Qed.

Lemma feed_entries_total (i : Z) (sums : list summary) :
  total_count (map feed_entry (enumerate_from i sums)) = summaries_total sums
  /\ Forall counts_its_titles (map feed_entry (enumerate_from i sums)).
Proof.
  revert i. unfold total_count, summaries_total, sum.
  induction sums as [|[[name items] rank] sums IH]; intros i.
  - split; [reflexivity | constructor].
  - destruct (IH (i + 1)) as [IH1 IH2]. cbn [enumerate_from map fold_right].
    split.
    + rewrite IH1. reflexivity.
    + constructor; [|exact IH2]. exists items. split; reflexivity.
Qed.

Lemma regroup_total (stats : list value) (per : list (list value))
  (out : list value) :
  mapM titles_of stats = Ok per -> regroup_personal stats = Ok out ->
  total_count out = len (concat per) /\ Forall counts_its_titles out.
Proof.
  intros Hper H. unfold regroup_personal in H. rewrite Hper in H.
  cbn [bind] in H. inv_ok H. injection H as <-.
  match goal with
  | E1 : foldM add_to_feed _ _ = Ok ?d,
    E2 : mapM summarize_feed ?d = Ok ?sums,
    E3 : stable_sortM _ ?sums = Ok ?sorted |- _ =>
      destruct (feed_entries_total 0 sorted) as [Ht Hc];
      unfold enumerate; split; [|exact Hc];
      rewrite Ht;
      apply stable_sortM_perm in E3;
      assert (Hs : summaries_total sorted = summaries_total sums)
        by (unfold summaries_total; symmetry; apply sum_perm;
            now apply Permutation_map);
      rewrite Hs, (summaries_total_of _ _ E2), (foldM_add_total _ _ _ E1)
  end.
  reflexivity.
Qed.

(** X21. Every title of the personal-feed entries lands in exactly one
    feed of the payload's [rss_stats]: the count of each feed entry is
    the number of its titles, and the counts add up to the number of
    titles that the personal-feed entries of [rss_stats] hold. *)
Theorem personal_titles_are_filed_once {rulebook : Type}
  (matches : option (str -> rulebook -> result value))
  (load : option (result rulebook))
  stats failed_ids new_titles id_to_name mode rank_threshold
  (rss : list value) rss_new_stats (p : payload) :
  prepare_report_data matches load stats failed_ids new_titles id_to_name
    mode rank_threshold (Some rss) rss_new_stats = Ok p ->
  exists per,
    mapM titles_of (filter personal_word rss) = Ok per
    /\ total_count (p_rss_stats p) = len (concat per)
    /\ Forall counts_its_titles (p_rss_stats p).
Proof.
  intros H.
  destruct (prepare_runs_final_pass _ _ _ _ _ _ _ _ _ _ _ H)
    as (pers & kw & stats' & Epers & _ & _ & Er & _).
  cbn [or_nil] in Epers. destruct (rss_split _ _ Epers) as (<- & _).
  destruct pers as [|x rest] eqn:Ep.
  - cbn in Er. injection Er as <-. exists []. repeat split; constructor.
  - rewrite <- Ep in *. assert (Hnil : is_nil pers = false) by now subst.
    clear Ep. rewrite Hnil in Er. pose proof Er as Er'.
    unfold regroup_personal in Er'. inv_ok Er'.
    match goal with
    | E : mapM titles_of pers = Ok ?per |- _ =>
        exists per; split; [exact E|]; exact (regroup_total _ _ _ E Er)
    end.
Qed.

(** ** What the merge conserves *)

Lemma kd_set_new (mu : dict -> Z) (k : value) (b : dict) (m : merged_map) :
  kd_lookup k m = None -> sum_filed mu (kd_set k b m) = sum_filed mu m + mu b.
Proof.
  unfold sum_filed, sum. induction m as [|[k' a] m IH]; cbn [kd_lookup kd_set].
  - intros _. cbn [map fold_right snd]. lia.
  - destruct (key_eqb k' k); [discriminate|]. intros H.
    cbn [map fold_right snd]. rewrite (IH H). lia.
Qed.

Lemma kd_set_old (mu : dict -> Z) (k : value) (a b : dict)
  (m : merged_map) :
  kd_lookup k m = Some a ->
  sum_filed mu (kd_set k b m) = sum_filed mu m - mu a + mu b.
Proof.
  unfold sum_filed, sum. induction m as [|[k' a'] m IH];
    cbn [kd_lookup kd_set]; [discriminate|].
  destruct (key_eqb k' k).
  - intros [= ->]. cbn [map fold_right snd]. lia.
  - intros H. cbn [map fold_right snd]. rewrite (IH H). lia.
Qed.

Lemma countable_truthy (x : value) (d : dict) :
  countable x -> x = VDict d ->
  exists w, dict_get d k_word VNone = VStr w /\ w <> []
            /\ word_of x = VStr w
            /\ truthy (dict_get d k_word VNone) = true /\ readable d.
Proof.
  intros (d' & w & -> & Hw & Hne & Hr) [= <-]. exists w.
  assert (E : dict_get d' k_word VNone = VStr w)
    by (unfold dict_get; now rewrite Hw).
  cbn [word_of]. rewrite E.
  split; [reflexivity|]. split; [assumption|]. split; [reflexivity|].
  split; [|assumption]. cbn. now destruct w.
Qed.

(** The merge of two readable entries adds up counts and titles. *)
Lemma merge_into_readable (md sd md' : dict) :
  readable md -> readable sd -> merge_into md (VDict sd) = Ok md' ->
  readable md'
  /\ count_or_zero md' = count_or_zero md + count_or_zero sd
  /\ titles_number md' = titles_number md + titles_number sd.
Proof.
  intros [[cp Hcp] [tp Htp]] [[cs Hcs] [ts Hts]] H.
  destruct (merge_into_shape _ _ _ H)
    as (c1 & c2 & t1 & t2 & pos & E1 & E2 & E3 & E4 & _ & Hshape).
  rewrite (count_value_int _ _ Hcp) in E1. injection E1 as <-.
  rewrite (count_value_int _ _ Hcs) in E2. injection E2 as <-.
  rewrite (titles_value_iter _ _ Htp) in E3. injection E3 as <-.
  rewrite (titles_value_iter _ _ Hts) in E4. injection E4 as <-.
  assert (Hc : dict_lookup k_count md' = Some (VInt (cp + cs))
               /\ dict_lookup k_titles md' = Some (VList (tp ++ ts))).
  { cbn zeta in Hshape. destruct Hshape as [-> | [f ->]];
      rewrite !dict_lookup_set; split; reflexivity. }
  destruct Hc as [Hc Ht].
  assert (Hcv : count_value md' = Some (cp + cs))
    by (unfold count_value; now rewrite Hc).
  assert (Htv : titles_value md' = Some (tp ++ ts))
    by (unfold titles_value; now rewrite Ht).
  split; [split; eauto|].
  unfold count_or_zero, titles_number.
  rewrite Hcv, Htv, Hcp, Hcs, Htp, Hts, len_app. split; reflexivity.
Qed.

Section Measure.
Variable mu : dict -> Z.
Hypothesis mu_merge :
  forall md sd md',
    readable md -> readable sd -> merge_into md (VDict sd) = Ok md' ->
    mu md' = mu md + mu sd.

Lemma secondary_loop_sum (rss : list value) (m0 m : merged_map) :
  Forall countable rss -> Forall readable (map snd m0) ->
  foldM merge_rss rss m0 = Ok m ->
  sum_filed mu m = sum_filed mu m0 + sum_over mu rss
  /\ Forall readable (map snd m).
Proof.
  revert m0. induction rss as [|x rss IH]; intros m0 Hr Hm0 H; cbn in H.
  - injection H as <-. unfold sum_over, sum. cbn. split; [lia | assumption].
  - inversion Hr as [|? ? Hx Hrest]; subst. inv_ok H.
    match goal with
    | E : merge_rss m0 x = Ok ?m1 |- _ =>
        destruct (merge_rss_cases _ _ _ E) as (d & -> & Hcase);
        assert (Hstep : sum_filed mu m1 = sum_filed mu m0 + mu d
                        /\ Forall readable (map snd m1))
    end.
    { destruct (countable_truthy _ d Hx eq_refl)
        as (w & Ew & _ & _ & Ht & Hrd).
      destruct Hcase as [[Hf _] | [_ Hcase]]; [congruence|].
      destruct Hcase as [[Hl ->] | (md & md' & Hl & Hm & ->)].
      - split; [now apply kd_set_new | now apply kd_set_Forall].
      - pose proof (kd_lookup_In _ _ _ Hl) as Hin.
        rewrite Forall_forall in Hm0. pose proof (Hm0 _ Hin) as Hmd.
        rewrite (kd_set_old mu _ md md' m0 Hl).
        rewrite (mu_merge _ _ _ Hmd Hrd Hm).
        split; [lia|]. apply kd_set_Forall; [now apply Forall_forall|].
        now apply (merge_into_readable md d md'). }
    destruct Hstep as [Hs Hg]. destruct (IH _ Hrest Hg H) as [IH1 IH2].
    split; [|assumption]. rewrite IH1, Hs.
    unfold sum_over, sum. cbn [map fold_right measured]. lia.
Qed.

Lemma primary_loop_sum (stats : list value) (m : merged_map) :
  Forall countable stats -> NoDup (map word_of stats) ->
  foldM add_primary stats [] = Ok m ->
  sum_filed mu m = sum_over mu stats /\ Forall readable (map snd m).
Proof.
  revert m. induction stats as [|x stats IH] using rev_ind;
    intros m Hc Hnd H.
  - cbn in H. injection H as <-. split; [reflexivity | constructor].
  - rewrite foldM_app in H. inv_ok H. cbn [foldM] in H. inv_ok H.
    injection H as <-.
    apply Forall_app in Hc as [Hc Hx]. inversion Hx as [|? ? Hx' _]; subst.
    rewrite map_app in Hnd. cbn [map] in Hnd.
    assert (Hnd' : NoDup (map word_of stats)
                   /\ ~ In (word_of x) (map word_of stats)).
    { apply NoDup_remove in Hnd. now rewrite app_nil_r in Hnd. }
    destruct Hnd' as [Hnd' Hnew].
    match goal with
    | E : foldM add_primary stats [] = Ok ?m1 |- _ =>
        destruct (IH _ Hc Hnd' E) as [IH1 IH2];
        rename E into Epre
    end.
    match goal with
    | E : add_primary _ x = Ok _ |- _ =>
        destruct (add_primary_cases _ _ _ E) as (d & -> & Hcase)
    end.
    destruct (countable_truthy _ d Hx' eq_refl)
      as (w & Ew & _ & Eword & Ht & Hrd).
    destruct Hcase as [[Hf _] | [_ ->]]; [congruence|].
    rewrite Ew.
    assert (Hno : no_word w stats).
    { apply Forall_forall. intros y Hy E. apply Hnew. rewrite Eword, <- E.
      now apply in_map. }
    split; [|now apply kd_set_Forall].
    etransitivity;
      [exact (kd_set_new mu _ d _ (no_primary_entry w stats _ Hno Epre))|].
    rewrite IH1. unfold sum_over. rewrite map_app, sum_app.
    unfold sum. cbn [map fold_right measured]. lia.
Qed.

Lemma merge_sum (stats rss out : list value) :
  Forall countable stats -> Forall countable rss ->
  NoDup (map word_of stats) ->
  merge_stats stats rss = Ok out ->
  sum_over mu out = sum_over mu stats + sum_over mu rss.
Proof.
  intros Hs Hr Hnd H.
  destruct (merge_stats_cases _ _ _ H) as (m & keys & Hm & _ & _ & Hperm).
  unfold merge_by_word in Hm. inv_ok Hm.
  match goal with
  | E : foldM add_primary _ _ = Ok _ |- _ =>
      destruct (primary_loop_sum _ _ Hs Hnd E) as [H1 Hg]
  end.
  destruct (secondary_loop_sum _ _ _ Hr Hg Hm) as [H2 _].
  rewrite <- H1, <- H2. unfold sum_over, sum_filed.
  rewrite (sum_perm _ _ (Permutation_map (measured mu) Hperm)).
  rewrite !map_map. reflexivity.
Qed.

End Measure.

(** X22. The merge neither loses nor doubles anything: for entries
    under non-empty string words with integer counts and lists of
    titles, the hot-list words being distinct, the counts of the merged
    stats add up to the counts of the hot-list entries plus those of the
    keyword RSS entries, and so do the numbers of titles. *)
Theorem merge_conserves_counts_and_titles (stats rss out : list value) :
  Forall countable stats -> Forall countable rss ->
  NoDup (map word_of stats) ->
  merge_stats stats rss = Ok out ->
  sum_over count_or_zero out
  = sum_over count_or_zero stats + sum_over count_or_zero rss
  /\ sum_over titles_number out
     = sum_over titles_number stats + sum_over titles_number rss.
Proof.
  intros Hs Hr Hnd H. split.
  - apply (merge_sum count_or_zero); try assumption.
    intros md sd md' Hmd Hsd Hm.
    now destruct (merge_into_readable _ _ _ Hmd Hsd Hm) as (_ & E & _).
  - apply (merge_sum titles_number); try assumption.
    intros md sd md' Hmd Hsd Hm.
    now destruct (merge_into_readable _ _ _ Hmd Hsd Hm) as (_ & _ & E).
Qed.

(** ** The new-titles section at work *)

Lemma dict_set_new (k : str) (v : value) (d : dict) :
  ~ In k (map fst d) -> dict_set k v d = d ++ [(k, v)].
Proof.
  induction d as [|[k' v'] d IH]; cbn; intros H; [reflexivity|].
  destruct (str_eqb k' k) eqn:E.
  - apply str_eqb_eq in E. exfalso. apply H. now left.
  - rewrite IH; [reflexivity|]. intros Hin. apply H. now right.
Qed.

Lemma filter_title_items (accept : str -> bool) (titles : title_table) :
  filter (fun tv : str * value => accept (fst tv)) (map title_item titles)
  = map title_item (filter (fun tv => accept (fst tv)) titles).
Proof.
  induction titles as [|tv titles IH]; cbn; [reflexivity|].
  destruct (accept (fst tv)); cbn; now rewrite IH.
Qed.

Lemma fold_left_add (l : list Z) (z : Z) : fold_left Z.add l z = z + sum l.
Proof.
  unfold sum. revert z. induction l as [|x l IH]; intros z;
    cbn [fold_left fold_right]; [lia | rewrite IH; lia].
Qed.

Lemma Forall2_len {A B} (R : A -> B -> Prop) (l : list A) (l' : list B) :
  Forall2 R l l' -> len l = len l'.
Proof.
  intros H. unfold len. now rewrite (Forall2_length H).
Qed.

Lemma file_source (acc : dict) (sid : str) (ft : title_table) :
  ~ In sid (map fst acc) ->
  (if is_nil (map title_item ft) then acc
   else dict_set sid (VDict (map title_item ft)) acc)
  = acc ++ map source_item (if negb (is_nil ft) then [(sid, ft)] else []).
Proof.
  intros H. destruct ft as [|tv ft]; cbn [map is_nil negb].
  - now rewrite app_nil_r.
  - now rewrite dict_set_new.
Qed.

Section Filtered.
Context {rulebook : Type}.
Variable m : str -> rulebook -> result value.
Variable rb : rulebook.
Variable accept : str -> bool.
Hypothesis m_accepts :
  forall title, exists r, m title rb = Ok r /\ truthy r = accept title.

Lemma filter_titles_fold (items acc : dict) :
  NoDup (map fst items) ->
  (forall k, In k (map fst items) -> ~ In k (map fst acc)) ->
  foldM (fun (acc : dict) (tv : str * value) =>
           r <- m (fst tv) rb ;;
           Ok (if truthy r then dict_set (fst tv) (snd tv) acc else acc))
        items acc
  = Ok (acc ++ filter (fun tv => accept (fst tv)) items).
Proof.
  revert acc. induction items as [|[k v] items IH]; intros acc Hnd Hdis;
    cbn [foldM filter fst snd].
  - now rewrite app_nil_r.
  - inversion Hnd as [|? ? Hk Hnd']; subst.
    destruct (m_accepts k) as (r & Hm & Hr). rewrite Hm. cbn [bind].
    rewrite Hr. destruct (accept k).
    + rewrite dict_set_new by (apply Hdis; now left).
      rewrite IH; [now rewrite <- app_assoc | assumption |].
      intros k' Hk' Hin. rewrite map_app in Hin.
      apply in_app_or in Hin as [Hin | [<- | []]].
      * apply (Hdis k'); [now right | assumption].
      * now apply Hk.
    + apply IH; [assumption|]. intros k' Hk'. apply Hdis. now right.
Qed.

Lemma filter_source_typed (acc : dict) (src : str * title_table) :
  NoDup (map fst (snd src)) ->
  ~ In (fst src) (map fst acc) ->
  filter_source m rb acc (source_item src)
  = Ok (acc ++ map source_item (passing accept [src])).
Proof.
  intros Hnd Hnew. unfold filter_source, source_item. cbn [py_items bind].
  rewrite filter_titles_fold.
  - cbn [app bind]. rewrite filter_title_items.
    unfold passing. cbn [map filter fst snd]. f_equal.
    now apply file_source.
  - rewrite map_map. cbn [title_item fst]. exact Hnd.
  - intros k _ [].
Qed.

Lemma passing_cons (src : str * title_table) (srcs : source_table) :
  passing accept (src :: srcs) = passing accept [src] ++ passing accept srcs.
Proof.
  unfold passing. cbn [map filter].
  match goal with |- context [if ?c then _ else _] => destruct c end;
    reflexivity.
Qed.

Lemma passing_ids (srcs : source_table) (k : str) :
  In k (map fst (passing accept srcs)) -> In k (map fst srcs).
Proof.
  unfold passing. intros H. apply in_map_iff in H as (src & <- & Hin).
  apply filter_In in Hin as [Hin _].
  apply in_map_iff in Hin as (src' & <- & Hin'). cbn. now apply in_map.
Qed.

Lemma filter_sources_fold (srcs : source_table) (acc : dict) :
  NoDup (map fst srcs) ->
  Forall (fun src => NoDup (map fst (snd src))) srcs ->
  (forall k, In k (map fst srcs) -> ~ In k (map fst acc)) ->
  foldM (filter_source m rb) (map source_item srcs) acc
  = Ok (acc ++ map source_item (passing accept srcs)).
Proof.
  revert acc. induction srcs as [|src srcs IH]; intros acc Hnd Hall Hdis;
    cbn [map foldM].
  - cbn. now rewrite app_nil_r.
  - inversion Hnd as [|? ? Hk Hnd']; subst.
    inversion Hall as [|? ? Hsrc Hall']; subst.
    rewrite filter_source_typed; [|assumption | apply Hdis; now left].
    cbn [bind]. rewrite IH; [|assumption | assumption |].
    + now rewrite (passing_cons src srcs), map_app, app_assoc.
    + intros k Hin Hacc. rewrite map_app in Hacc.
      apply in_app_or in Hacc as [Hacc | Hacc].
      * apply (Hdis k); [now right | assumption].
      * rewrite map_map in Hacc. cbn [source_item fst] in Hacc.
        change (fun x : str * title_table => fst x)
          with (@fst str title_table) in Hacc.
        apply passing_ids in Hacc. cbn in Hacc.
        destruct Hacc as [<- | []]. now apply Hk.
Qed.

End Filtered.

Lemma count_titles_typed (srcs : source_table) :
  exists z, count_titles (new_titles_value srcs) = Ok z.
Proof.
  unfold count_titles, new_titles_value.
  destruct (truthy (VDict (map source_item srcs))); [|eauto].
  cbn [py_items bind].
  rewrite (mapM_pure _ (fun kv : str * value =>
                          match snd kv with
                          | VDict d => len d
                          | _ => 0
                          end)).
  - cbn [bind]. eauto.
  - apply Forall_forall. intros kv Hin.
    apply in_map_iff in Hin as (src & <- & _). reflexivity.
Qed.

Lemma passing_all (srcs : source_table) :
  passing (fun _ => true) srcs
  = filter (fun src => negb (is_nil (snd src))) srcs.
Proof.
  unfold passing. f_equal. induction srcs as [|[sid titles] srcs IH];
    cbn [map fst snd]; [reflexivity|]. rewrite IH. f_equal. f_equal.
  induction titles as [|tv titles IHt]; cbn; [reflexivity | now f_equal].
Qed.

Lemma passing_same (accept accept' : str -> bool) (srcs : source_table) :
  (forall t, accept t = accept' t) -> passing accept srcs = passing accept' srcs.
Proof.
  intros H. unfold passing. f_equal. apply map_ext. intros src. f_equal.
  apply filter_ext. intros tv. apply H.
Qed.

Lemma new_title_entries (source_name rank_threshold : value)
  (titles : title_table) :
  exists ts,
    mapM (new_title_entry source_name rank_threshold) (map title_item titles)
    = Ok ts
    /\ Forall2 (shows_title source_name rank_threshold) titles ts.
Proof.
  induction titles as [|tv titles (ts & E & IH)].
  - exists []. split; [reflexivity | constructor].
  - eexists. cbn [map mapM]. rewrite E.
    split; [reflexivity|]. constructor; [reflexivity | exact IH].
Qed.

Lemma new_source_entries (names : dict) (rank_threshold : value)
  (srcs : source_table) :
  exists groups,
    mapM (new_source_entry (VDict names) rank_threshold)
         (map source_item srcs) = Ok groups
    /\ Forall2 (shows_source names rank_threshold)
         (filter (fun src => negb (is_nil (snd src))) srcs) (concat groups).
Proof.
  induction srcs as [|src srcs (groups & E & IH)].
  - exists []. split; [reflexivity | constructor].
  - destruct src as [sid titles].
    destruct (new_title_entries
                (dict_get names sid (VStr sid))
                rank_threshold titles) as (ts & Et & Hts).
    eexists. cbn [map mapM]. unfold new_source_entry at 1.
    cbn [source_item py_get py_items bind fst snd]. rewrite Et. cbn [bind].
    rewrite E. cbn [bind]. split; [reflexivity|].
    cbn [concat filter fst snd].
    destruct Hts as [|tv t titles ts' Ht Hts]; cbn [is_nil negb app];
      [exact IH|].
    constructor; [|exact IH].
    exists (t :: ts'). split; [reflexivity | now constructor].
Qed.

Lemma total_of_sources (names : dict) (rank_threshold : value)
  (srcs : source_table) (out : list value) :
  Forall2 (shows_source names rank_threshold) srcs out ->
  total_new_count out = Ok (sum (map (fun src => len (snd src)) srcs)).
Proof.
  intros H. unfold total_new_count.
  rewrite (mapM_pure _ (fun e => match entry_field k_titles e with
                                 | Some (VList ts) => len ts
                                 | _ => 0
                                 end)).
  - cbn [bind]. rewrite fold_left_add. f_equal. cbn [Z.add]. f_equal.
    induction H as [|src e srcs out (ts & -> & Hts) Hrest IH];
      [reflexivity|].
    cbn [map]. rewrite IH. f_equal. cbn. symmetry.
    eapply Forall2_len; eassumption.
  - induction H as [|src e srcs out (ts & -> & Hts) Hrest IH];
      constructor; [reflexivity | exact IH].
Qed.

Lemma filter_new_titles_typed {rulebook : Type}
  (matches : option (str -> rulebook -> result value))
  (load : option (result rulebook)) (accept : str -> bool)
  (srcs : source_table) (names : dict) :
  filters_by matches load accept ->
  NoDup (map fst srcs) ->
  Forall (fun src => NoDup (map fst (snd src))) srcs ->
  names <> [] ->
  exists shown,
    filter_new_titles matches load (new_titles_value srcs) (VDict names)
    = Ok (new_titles_value shown)
    /\ filter (fun src => negb (is_nil (snd src))) shown
       = passing accept srcs.
Proof.
  intros Hf Hnd Hall Hnames. unfold filter_new_titles.
  destruct (truthy (new_titles_value srcs) && truthy (VDict names)) eqn:Et.
  - assert (Hgen : forall shown,
               filter (fun src => negb (is_nil (snd src))) shown
               = passing accept srcs ->
               exists shown',
                 (_ <- count_titles (new_titles_value srcs) ;;
                  _ <- count_titles (new_titles_value shown) ;;
                  Ok (new_titles_value shown))
                 = Ok (new_titles_value shown')
                 /\ filter (fun src => negb (is_nil (snd src))) shown'
                    = passing accept srcs).
    { intros shown Hs. exists shown.
      destruct (count_titles_typed srcs) as [z ->].
      destruct (count_titles_typed shown) as [z' ->]. now split. }
    unfold filters_by in Hf.
    destruct matches as [m|], load as [l|];
      try (cbn [bind]; apply Hgen; rewrite <- passing_all;
           now apply passing_same).
    destruct Hf as (rb & -> & Hm). cbn [bind].
    unfold new_titles_value at 1. cbn [py_items bind].
    rewrite (filter_sources_fold m rb accept Hm srcs [] Hnd Hall)
      by (intros k _ []).
    cbn [app bind]. apply Hgen. unfold passing.
    now rewrite filter_filter_same.
  - exists []. split; [reflexivity|].
    destruct srcs as [|src srcs]; [reflexivity|].
    destruct names; [contradiction | discriminate Et].
Qed.


(** ** What the final pass copies *)

Lemma process_title_copies (title_data t : value) :
  process_title title_data = Ok t -> copied_title title_data t.
Proof.
  unfold process_title. intros H.
  destruct title_data as [| | | | |l|d]; try discriminate.
  cbn [py_getitem py_get bind] in H.
  repeat match type of H with
         | bind (match dict_lookup ?k d with _ => _ end) _ = _ =>
             let E := fresh "E" in
             destruct (dict_lookup k d) eqn:E; [cbn [bind] in H | discriminate]
         end.
  destruct (truthy (dict_get d k_mobile_url VNone)); cbn [bind] in H;
    injection H as <-; exists d; (split; [reflexivity|]);
    (split; [repeat constructor; cbn; congruence|]);
    split; reflexivity.
Qed.

Lemma process_stat_copies (stat : value) (out : list value) :
  process_stat stat = Ok out -> Forall (copied_stat stat) out.
Proof.
  unfold process_stat. intros H.
  destruct stat as [| | | | |l|sd]; try discriminate.
  cbn [py_getitem py_get bind] in H.
  destruct (dict_lookup k_count sd) as [c|] eqn:Ec; [|discriminate].
  cbn [bind] in H.
  destruct (py_le_int c 0) as [[|]|]; [| |discriminate]; cbn [bind] in H.
  - injection H as <-. constructor.
  - destruct (dict_lookup k_titles sd) as [tv|] eqn:Et; [|discriminate].
    cbn [bind] in H.
    destruct (py_iter tv) as [titles|] eqn:Ei; [|discriminate].
    cbn [bind] in H.
    destruct (mapM process_title titles) as [ts|] eqn:Em; [|discriminate].
    cbn [bind] in H.
    destruct (dict_lookup k_word sd) as [w|] eqn:Ew; [|discriminate].
    cbn [bind] in H. injection H as <-.
    constructor; [|constructor].
    exists sd, titles, ts. split; [reflexivity|].
    split; [now rewrite Ew|]. split; [now rewrite Ec|].
    split; [reflexivity|]. split.
    + cbn [py_getitem bind]. now rewrite Et.
    + split; [reflexivity|]. apply mapM_Forall2 in Em.
      eapply Forall2_impl; [|exact Em]. apply process_title_copies.
Qed.

(** X24. The final pass copies and defaults. An entry of the payload's
    [stats] comes from an input entry that passes the count test and
    has its [word] and [count]; its [percentage] is the input's, or 0
    when the input has none. Its titles are those of the input entry in
    their order, each with [title], [source_name], [time_display],
    [count], [ranks] and [rank_threshold] as given, [url] defaulting to
    the empty string and [is_new] to [False]. *)
Theorem final_pass_copies_and_defaults (stats out : list value) :
  process_stats (Some stats) = Ok out ->
  Forall (fun e => exists stat,
              In stat stats /\ kept_by_final_pass stat = true
              /\ copied_stat stat e)
         out.
Proof.
  unfold process_stats. intros H. inv_ok H. injection H as <-.
  eapply mapM_concat_Forall; [eassumption|].
  intros stat g Hin Hg.
  pose proof (process_stat_copies _ _ Hg) as Hc.
  destruct (process_stat_kept _ _ Hg) as [[_ ->] | (Hk & e & -> & _)];
    [constructor|].
  inversion Hc as [|? ? He _]; subst.
  constructor; [|constructor]. now exists stat.
Qed.

(** ** Ranks of any kind *)

Lemma min_from_cases (xs : list value) (m : value) :
  (exists v, min_from m xs = Ok v /\ (v = m \/ In v xs))
  \/ min_from m xs = Raise TypeError.
Proof.
  revert m. induction xs as [|x xs IH]; intros m; cbn [min_from].
  - left. exists m. split; [reflexivity | now left].
  - destruct (py_lt x m) as [b|e] eqn:E; cbn [bind].
    + destruct (IH (if b then x else m)) as [(v & -> & Hv) | ->];
        [left | now right].
      exists v. split; [reflexivity|].
      destruct Hv as [-> | Hv]; [|right; now right].
      destruct b; [right; now left | now left].
    + right. unfold py_lt in E.
      destruct (as_number x), (as_number m); try discriminate;
        destruct x, m; try discriminate; congruence.
Qed.

Lemma py_int_cases (v : value) :
  (forall s, v <> VFloat (S754_infinity s)) ->
  (exists z, py_int v = Ok z)
  \/ py_int v = Raise TypeError \/ py_int v = Raise ValueError.
Proof.
  intros Hv. destruct v as [|b|z|f|s|l|d]; cbn [py_int];
    try (right; left; reflexivity); try (left; eexists; reflexivity).
  - destruct f as [s|s| |s m e]; cbn [float_to_Z].
    + left. eauto.
    + now destruct (Hv s).
    + right. now right.
    + left. eauto.
  - destruct (int_of_str s); [left; eauto | right; now right].
Qed.

(** X25. The sort key of a personal title is total on dicts: whatever
    the [ranks] field holds (a string, a number, a list of mixed
    things), [_rank_key] raises nothing and answers an integer, which is
    999 when there is no rank to read; only an infinite float among
    the ranks is left aside. *)
Theorem rank_key_takes_any_ranks (d : dict) :
  no_infinite_rank (dict_get d k_ranks (VList [])) ->
  exists z,
    _rank_key (VDict d) = Ok z
    /\ (truthy (dict_get d k_ranks (VList [])) = false -> z = 999).
Proof.
  intros Hfin. unfold _rank_key. cbn [py_get bind].
  set (ranks := dict_get d k_ranks (VList [])) in *.
  destruct (truthy ranks) eqn:Et; cbn [negb].
  2:{ exists 999. now split. }
  assert (Hgoal : exists z,
             except_type_value
               (xs <- py_iter ranks ;; m <- py_min xs ;; py_int m)
               (Ok 999) = Ok z).
  { destruct (py_iter ranks) as [xs|e] eqn:Ei; cbn [bind].
    2:{ destruct ranks; cbn in Ei; try discriminate;
        injection Ei as <-; cbn; eauto. }
    assert (Hxs : forall v s, In v xs -> v <> VFloat (S754_infinity s)).
    { intros v s Hin ->. destruct ranks as [| | | |str|l|dd];
        cbn in Ei; try discriminate; injection Ei as <-.
      - apply in_map_iff in Hin as (c & Hc & _). discriminate.
      - now apply (Hfin l s eq_refl).
      - apply in_map_iff in Hin as (kv & Hc & _). discriminate. }
    destruct xs as [|x xs]; cbn [py_min bind]; [cbn; eauto|].
    destruct (min_from_cases xs x) as [(v & -> & Hv) | ->];
      cbn [bind]; [|cbn; eauto].
    assert (Hfv : forall s, v <> VFloat (S754_infinity s)).
    { intros s. apply Hxs. destruct Hv as [-> | Hv]; [now left | now right]. }
    destruct (py_int_cases v Hfv) as [[z ->] | [-> | ->]]; cbn; eauto. }
  destruct Hgoal as [z Hz]. exists z. split; [exact Hz | discriminate].
Qed.

End WithRuntime.

(** ** Concrete runs *)

Lemma new_titles_section_switched_off_witness :
  prepare_report_data (RT := ascii_runtime) (rulebook := unit)
    (Some (fun _ _ => Raise TypeError)) (Some (Raise FileNotFoundError))
    (Some [entry_A]) None
    (VDict [(utf8 "src", VDict [(utf8 "t", VDict [])])])
    (VDict [(utf8 "src", VStr (utf8 "Source"))])
    (utf8 "incremental") (VInt 3) None None
  = prepare_report_data (RT := ascii_runtime) (rulebook := unit) None None
      (Some [entry_A]) None
      (VDict [(utf8 "src", VDict [(utf8 "t", VDict [])])])
      (VDict [(utf8 "src", VStr (utf8 "Source"))])
      (utf8 "incremental") (VInt 3) None None
  /\ (forall p,
         prepare_report_data (RT := ascii_runtime) (rulebook := unit)
           (Some (fun _ _ => Raise TypeError))
           (Some (Raise FileNotFoundError))
           (Some [entry_A]) None
           (VDict [(utf8 "src", VDict [(utf8 "t", VDict [])])])
           (VDict [(utf8 "src", VStr (utf8 "Source"))])
           (utf8 "incremental") (VInt 3) None None = Ok p ->
         p_new_titles p = [] /\ p_total_new_count p = 0).
Proof.
  apply (new_titles_section_switched_off (RT := ascii_runtime)
           (rulebook := unit)).
  left. reflexivity.
Defined.

Lemma rss_new_stats_are_ignored_witness :
  p_rss_new_stats plain_report = []
  /\ prepare_report_data (RT := ascii_runtime) (rulebook := unit) None None
       (Some [entry_A; zero_count_entry; two_url_entry]) None VNone VNone
       (utf8 "daily") (VInt 3) None None = Ok plain_report.
Proof.
  apply (rss_new_stats_are_ignored (RT := ascii_runtime) (rulebook := unit)
           None None (Some [entry_A; zero_count_entry; two_url_entry]) None
           VNone VNone (utf8 "daily") (VInt 3) None
           (Some [entry_C; personal_stat]) plain_report).
  vm_compute. reflexivity.
Defined.

Lemma missing_stats_need_keyword_rss_witness :
  (forall p,
      prepare_report_data (RT := ascii_runtime) (rulebook := unit) None None
        None None VNone VNone (utf8 "daily") (VInt 3)
        (Some [personal_stat]) None <> Ok p)
  /\ prepare_report_data (RT := ascii_runtime) (rulebook := unit) None None
       None None VNone VNone (utf8 "daily") (VInt 3) (Some [entry_C]) None
     = prepare_report_data (RT := ascii_runtime) (rulebook := unit) None
         None (Some []) None VNone VNone (utf8 "daily") (VInt 3)
         (Some [entry_C]) None.
Proof.
  split.
  - apply (proj1 (missing_stats_need_keyword_rss (RT := ascii_runtime)
                    (rulebook := unit) None None None VNone VNone
                    (utf8 "daily") (VInt 3) (Some [personal_stat]) None)).
    repeat constructor.
  - apply (proj2 (missing_stats_need_keyword_rss (RT := ascii_runtime)
                    (rulebook := unit) None None None VNone VNone
                    (utf8 "daily") (VInt 3) (Some [entry_C]) None)).
    exists entry_C. split; [now left | reflexivity].
Defined.

Lemma personal_and_keyword_rss_do_not_mix_witness :
  (exists p1,
      prepare_report_data (RT := ascii_runtime) (rulebook := unit) None None
        (Some [entry_B]) None VNone VNone (utf8 "daily") (VInt 3)
        (Some (filter (fun x => negb (personal_word x))
                 [personal_stat; entry_C]))
        None = Ok p1
      /\ p_stats p1 = p_stats mixed_report /\ p_rss_stats p1 = [])
  /\ (exists p2,
         prepare_report_data (RT := ascii_runtime) (rulebook := unit) None
           None (Some []) None VNone VNone (utf8 "daily") (VInt 3)
           (Some (filter personal_word [personal_stat; entry_C])) None
         = Ok p2
         /\ p_stats p2 = [] /\ p_rss_stats p2 = p_rss_stats mixed_report).
Proof.
  apply (personal_and_keyword_rss_do_not_mix (RT := ascii_runtime)
           (rulebook := unit) None None (Some [entry_B]) None VNone VNone
           (utf8 "daily") (VInt 3) [personal_stat; entry_C] None
           mixed_report).
  vm_compute. reflexivity.
Defined.

Lemma stats_keep_input_order_without_keyword_rss_witness :
  map (entry_field k_word) (p_stats plain_report)
  = map (entry_field k_word)
      (filter kept_by_final_pass [entry_A; zero_count_entry; two_url_entry])
  /\ map (entry_field k_count) (p_stats plain_report)
     = map (entry_field k_count)
         (filter kept_by_final_pass
            [entry_A; zero_count_entry; two_url_entry]).
Proof.
  apply (stats_keep_input_order_without_keyword_rss (RT := ascii_runtime)
           (rulebook := unit) None None
           [entry_A; zero_count_entry; two_url_entry] None VNone VNone
           (utf8 "daily") (VInt 3) None None plain_report).
  - constructor.
  - vm_compute. reflexivity.
Defined.

Lemma final_pass_requires_fields_witness :
  Forall (fun s =>
            (exists c, entry_field k_count s = Some c
                       /\ as_number c <> None)
            /\ (kept_by_final_pass s = true ->
                has_field k_word s
                /\ exists titles,
                     bind (py_getitem s k_titles) py_iter = Ok titles
                     /\ Forall complete_title titles))
         [zero_count_entry; two_url_entry].
Proof.
  apply (final_pass_requires_fields [zero_count_entry; two_url_entry]
           final_pass_out).
  vm_compute. reflexivity.
Defined.

Lemma unmatched_primary_entry_is_kept_witness :
  In (VDict chip_hot) chip_unmatched_merged.
Proof.
  apply (unmatched_primary_entry_is_kept (RT := ascii_runtime)
           [] [] [VDict other_rss] chip_unmatched_merged chip_hot chip).
  - discriminate.
  - reflexivity.
  - constructor.
  - constructor; [|constructor]. vm_compute. discriminate.
  - vm_compute. reflexivity.
Defined.

Lemma merged_stats_have_distinct_words_witness :
  NoDup (map (entry_field k_word) (p_stats merged_report)).
Proof.
  apply (merged_stats_have_distinct_words (RT := ascii_runtime)
           (rulebook := unit) None None (Some [wordless_entry; entry_B])
           None VNone VNone (utf8 "daily") (VInt 3) (Some [entry_C]) None
           merged_report).
  - exists entry_C. split; [now left | reflexivity].
  - repeat constructor; intros d [= <-] _; eexists; reflexivity.
  - repeat constructor; intros d [= <-] _; eexists; reflexivity.
  - vm_compute. reflexivity.
Defined.

Lemma payload_entries_have_fixed_keys_witness :
  Forall (entry_of_titles stat_keys) (p_stats plain_report)
  /\ Forall (entry_of_titles source_keys) (p_new_titles plain_report).
Proof.
  apply (payload_entries_have_fixed_keys (RT := ascii_runtime)
           (rulebook := unit) None None
           (Some [entry_A; zero_count_entry; two_url_entry]) None VNone
           VNone (utf8 "daily") (VInt 3) None None plain_report).
  vm_compute. reflexivity.
Defined.

Lemma merge_goes_by_what_can_be_read_witness :
  dict_lookup k_position chip_merged_entry = Some (VInt (Z.min 4 999))
  /\ dict_lookup k_percentage chip_merged_entry
     = Some (VFloat (float_add (S754_zero false) (S754_zero false))).
Proof.
  apply (merge_goes_by_what_can_be_read (RT := ascii_runtime)
           chip_hot chip_rss chip_merged_entry).
  vm_compute. reflexivity.
Defined.

Lemma personal_titles_are_filed_once_witness :
  exists per,
    mapM titles_of (filter personal_word [personal_stat; entry_C]) = Ok per
    /\ total_count (p_rss_stats mixed_report) = len (concat per)
    /\ Forall counts_its_titles (p_rss_stats mixed_report).
Proof.
  apply (personal_titles_are_filed_once (RT := ascii_runtime)
           (rulebook := unit) None None (Some [entry_B]) None VNone VNone
           (utf8 "daily") (VInt 3) [personal_stat; entry_C] None
           mixed_report).
  vm_compute. reflexivity.
Defined.

Lemma merge_conserves_counts_and_titles_witness :
  sum_over count_or_zero chip_merged
  = sum_over count_or_zero [VDict chip_hot]
    + sum_over count_or_zero [VDict other_rss; VDict chip_rss]
  /\ sum_over titles_number chip_merged
     = sum_over titles_number [VDict chip_hot]
       + sum_over titles_number [VDict other_rss; VDict chip_rss].
Proof.
  apply (merge_conserves_counts_and_titles (RT := ascii_runtime)
           [VDict chip_hot] [VDict other_rss; VDict chip_rss] chip_merged).
  - repeat constructor; eexists _, _;
      (split; [reflexivity|]); (split; [reflexivity|]);
      (split; [discriminate|]); split; eexists; reflexivity.
  - repeat constructor; eexists _, _;
      (split; [reflexivity|]); (split; [reflexivity|]);
      (split; [discriminate|]); split; eexists; reflexivity.
  - constructor; [intros [] | constructor].
  - vm_compute. reflexivity.
Defined.


Lemma final_pass_copies_and_defaults_witness :
  Forall (fun e => exists stat,
              In stat [zero_count_entry; two_url_entry]
              /\ kept_by_final_pass stat = true
              /\ copied_stat stat e)
         final_pass_out.
Proof.
  apply (final_pass_copies_and_defaults [zero_count_entry; two_url_entry]).
  vm_compute. reflexivity.
Defined.

Lemma rank_key_takes_any_ranks_witness :
  exists z,
    _rank_key (RT := ascii_runtime) (VDict odd_ranks_title) = Ok z
    /\ (truthy (dict_get odd_ranks_title k_ranks (VList [])) = false ->
        z = 999).
Proof.
  apply (rank_key_takes_any_ranks (RT := ascii_runtime) odd_ranks_title).
  intros l s [= <-] [H | [H | []]]; discriminate H.
Defined.

End PayloadProps.

(* ===================================================================== *)
(** * generate_html_report *)
(* ===================================================================== *)

Module ReportProps.
Import Py PyFacts Generator Report Samples Cases.
Local Open Scope py_scope.

Section OnHost.
Context {RT : Runtime} {PL : Pathlib} {H : Host}.

(** ** Calls that went through *)

Lemma call_returns (c : fs_call) (log log' : list fs_call) (u : unit) :
  call c log = (Returns u, log') -> log' = log ++ [c].
Proof.
  unfold call. destruct (refuses log c); intros [= <- <-]; reflexivity.
Qed.

Lemma write_file_returns (target content : str) (log log' : list fs_call)
  (u : unit) :
  write_file target content log = (Returns u, log') ->
  log' = log ++ [Open target; WriteText target content; Close target].
Proof.
  unfold write_file, io_bind.
  destruct (call (Open target) log) as [[[]|r] log1] eqn:E1; [|discriminate].
  apply call_returns in E1. subst log1.
  destruct (call (WriteText target content) (log ++ [Open target]))
    as [[[]|r] log2] eqn:E2.
  - apply call_returns in E2. subst log2. intros E3.
    apply call_returns in E3. subst log'. now rewrite <- !app_assoc.
  - destruct (call (Close target) log2) as [[[]|r'] log3]; discriminate.
Qed.

(** Whatever comes of a call or of writing a file, the log only grows,
    and by calls on the file in hand. *)
Lemma call_touches (dirs : list path) (targets : list str) (content : str)
  (c : fs_call) (log log' : list fs_call) (o : outcome unit) :
  touches dirs targets content c ->
  call c log = (o, log') ->
  exists calls, log' = log ++ calls
                /\ Forall (touches dirs targets content) calls.
Proof.
  intros Hc. unfold call. destruct (refuses log c); intros [= <- <-].
  - exists []. split; [now rewrite app_nil_r | constructor].
  - exists [c]. split; [reflexivity | now repeat constructor].
Qed.

Lemma grows_twice (P : fs_call -> Prop) (log log1 log2 : list fs_call) :
  (exists calls, log1 = log ++ calls /\ Forall P calls) ->
  (exists calls, log2 = log1 ++ calls /\ Forall P calls) ->
  exists calls, log2 = log ++ calls /\ Forall P calls.
Proof.
  intros (c1 & -> & H1) (c2 & -> & H2). exists (c1 ++ c2).
  split; [now rewrite app_assoc | apply Forall_app; now split].
Qed.

Lemma write_file_touches (dirs : list path) (targets : list str)
  (target content : str) (log log' : list fs_call) (o : outcome unit) :
  In target targets ->
  write_file target content log = (o, log') ->
  exists calls, log' = log ++ calls
                /\ Forall (touches dirs targets content) calls.
Proof.
  intros Hin. unfold write_file, io_bind.
  destruct (call (Open target) log) as [[[]|r] log1] eqn:E1.
  - pose proof (call_touches dirs targets content (Open target) _ _ _
                  Hin E1) as H1.
    destruct (call (WriteText target content) log1)
      as [[[]|r] log2] eqn:E2.
    + pose proof (call_touches dirs targets content
                    (WriteText target content) _ _ _
                    (conj Hin eq_refl) E2) as H2.
      intros E3.
      pose proof (call_touches dirs targets content (Close target) _ _ _
                    Hin E3) as H3.
      eapply grows_twice; [|exact H3]. eapply grows_twice; eassumption.
    + pose proof (call_touches dirs targets content
                    (WriteText target content) _ _ _
                    (conj Hin eq_refl) E2) as H2.
      destruct (call (Close target) log2) as [[[]|r'] log3] eqn:E3;
        intros [= <- <-];
        pose proof (call_touches dirs targets content (Close target) _ _ _
                      Hin E3) as H3;
        (eapply grows_twice; [|exact H3]); eapply grows_twice; eassumption.
  - intros [= <- <-].
    exact (call_touches dirs targets content (Open target) _ _ _ Hin E1).
Qed.

Section Injected.
Context {rulebook : Type}.
Variable render_html_func
  : option (payload -> value -> bool -> str -> value -> result str).
Variable matches : option (str -> rulebook -> result value).
Variable load : option (result rulebook).
Variable format_payload : payload -> str.

Variables (stats : option (list value)) (total_titles : value)
  (failed_ids : option (list value)) (new_titles id_to_name : value)
  (mode : str) (is_daily_summary : bool) (update_info : value)
  (rank_threshold : value) (output_dir date_folder time_filename : str)
  (enable_index_copy : bool) (rss_stats rss_new_stats : option (list value)).




End Injected.

End OnHost.

(** ** Concrete runs *)




End ReportProps.
